(** * Event-driven demand-shock simulation: curve builder, what-if
      composition and series downsampler of the dashboard front end.

    The embedding follows the JavaScript source function by function.

    Numbers.  A JavaScript number is modelled by [number]: a rational,
    one of the two infinities, or NaN; the sign of zero is not modelled.
    Division by zero, operations on NaN and the comparisons with NaN
    behave as in ECMAScript.  The arithmetic is given twice.  [F64] and
    [Binary64] compute as the engine does, in binary64: every operation
    rounds its exact result to the nearest value of binary64, ties to
    even, and overflows to an infinity.  [Num] and the functions built
    on it compute with the exact results; they are the idealisation in
    which order, bounds and structure are stated, and they differ from
    the engine in the last bit of a result and where a tie of [round]
    or [Math.round] is decided by that bit.  The properties that depend
    on rounding (the spike kernel far from its center, the guarded
    division, [round], [formatImpact]) are stated on [Binary64].

    Dates.  A [Date] is its time value: an integral number of milliseconds
    since the epoch, or the Invalid Date (time value NaN).  [Date_UTC],
    [YearFromTime] and friends follow the ECMAScript definitions, including
    the two-digit-year rule of [Date.UTC] and the clipping of time values
    beyond 8.64e15 ms.

    Host.  The clock ([new Date()]), the implementation-defined string
    parser behind [new Date(string)] and [Math.exp] are taken from a
    [Host] record; [Math.sin], which only the demo data use, is a
    parameter of [buildDemoPoints].

    Exceptions.  The one exception the engine can raise is the RangeError
    of [toISOString] on an Invalid Date; functions that can raise it
    return an [option]. *)

From Stdlib Require Import Ascii String.
From Stdlib Require Import ZArith QArith Qround Qminmax Qabs Qpower Lia Lqa Bool List.
From Stdlib Require Import Morphisms.
From Stdlib Require Import DecimalString.
Import ListNotations.

Local Open Scope Z_scope.

(* ================================================================= *)
(** ** JavaScript numbers *)

Module Num.

Local Open Scope Q_scope.

Inductive number : Type :=
| Fin (q : Q)
| Inf (negative : bool)
| NaN.

Definition finite (x : number) : Prop :=
  match x with Fin _ => True | _ => False end.

Definition is_finite (x : number) : bool :=
  match x with Fin _ => true | _ => false end.

(** Equality of numbers as values: rationals up to [Qeq]. *)
Definition eqv (x y : number) : Prop :=
  match x, y with
  | Fin p, Fin q => p == q
  | Inf a, Inf b => a = b
  | NaN, NaN => True
  | _, _ => False
  end.

Definition Qneg_b (q : Q) : bool := negb (Qle_bool 0 q).
Definition Qzero_b (q : Q) : bool := Qeq_bool q 0.

Definition neg (x : number) : number :=
  match x with
  | Fin q => Fin (- q)
  | Inf s => Inf (negb s)
  | NaN => NaN
  end.

Definition add (x y : number) : number :=
  match x, y with
  | NaN, _ | _, NaN => NaN
  | Fin p, Fin q => Fin (p + q)
  | Inf s, Fin _ | Fin _, Inf s => Inf s
  | Inf s, Inf s' => if Bool.eqb s s' then Inf s else NaN
  end.

Definition sub (x y : number) : number := add x (neg y).

Definition mul (x y : number) : number :=
  match x, y with
  | NaN, _ | _, NaN => NaN
  | Fin p, Fin q => Fin (p * q)
  | Inf s, Fin q | Fin q, Inf s =>
      if Qzero_b q then NaN else Inf (xorb s (Qneg_b q))
  | Inf s, Inf s' => Inf (xorb s s')
  end.

Definition div (x y : number) : number :=
  match x, y with
  | NaN, _ | _, NaN => NaN
  | Fin p, Fin q =>
      if Qzero_b q
      then (if Qzero_b p then NaN else Inf (Qneg_b p))
      else Fin (p / q)
  | Fin _, Inf _ => Fin 0
  | Inf s, Fin q => Inf (xorb s (Qneg_b q))
  | Inf _, Inf _ => NaN
  end.

(** [x < y]; false as soon as one side is NaN. *)
Definition lt (x y : number) : bool :=
  match x, y with
  | NaN, _ | _, NaN => false
  | Fin p, Fin q => negb (Qle_bool q p)
  | Fin _, Inf s => negb s
  | Inf s, Fin _ => s
  | Inf s, Inf s' => s && negb s'
  end.

Definition gt (x y : number) : bool := lt y x.

(** [x <= y]; false as soon as one side is NaN. *)
Definition le (x y : number) : bool :=
  match x, y with
  | NaN, _ | _, NaN => false
  | _, _ => negb (lt y x)
  end.

(** [ToBoolean] on a number: zero and NaN are falsy. *)
Definition truthy (x : number) : bool :=
  match x with
  | Fin q => negb (Qzero_b q)
  | Inf _ => true
  | NaN => false
  end.

(** [x || y] on numbers. *)
Definition or_else (x y : number) : number := if truthy x then x else y.

Definition Math_max (x y : number) : number :=
  match x, y with
  | NaN, _ | _, NaN => NaN
  | _, _ => if lt x y then y else x
  end.

Definition Math_min (x y : number) : number :=
  match x, y with
  | NaN, _ | _, NaN => NaN
  | _, _ => if lt y x then y else x
  end.

(** [Math.round]: the nearest integer, ties towards +Infinity. *)
Definition Math_round (x : number) : number :=
  match x with
  | Fin q => Fin (inject_Z (Qfloor (q + (1 # 2))))
  | other => other
  end.

(** [Math.exp], from the host's approximation on finite arguments. *)
Definition Math_exp (exp : Q -> Q) (x : number) : number :=
  match x with
  | Fin q => Fin (exp q)
  | Inf true => Fin 0
  | Inf false => Inf false
  | NaN => NaN
  end.

(** [x ** 2]. *)
Definition sq (x : number) : number := mul x x.

Definition of_Z (z : Z) : number := Fin (inject_Z z).

End Num.

Export Num.

Declare Scope num_scope.
Delimit Scope num_scope with num.
Bind Scope num_scope with number.
Infix "+" := Num.add : num_scope.
Infix "-" := Num.sub : num_scope.
Infix "*" := Num.mul : num_scope.
Infix "/" := Num.div : num_scope.
Infix "==" := Num.eqv (at level 70, no associativity) : num_scope.

(* ================================================================= *)
(** ** Binary64 arithmetic *)

(** The arithmetic of the engine: every operation returns the value of
    binary64 nearest to the exact result, ties to the even significand;
    results of magnitude 2^1024 or more are an infinity.  A finite value
    of binary64 has at most 53 significant bits and an exponent of its
    last bit of at least -1074. *)
Module F64.

Local Open Scope Q_scope.

(** [floor (log2 |q|)] for [q <> 0]. *)
Definition ilog2 (q : Q) : Z :=
  let k := (Z.log2 (Z.abs (Qnum q)) - Z.log2 (Zpos (Qden q)))%Z in
  if Qle_bool (2 ^ k) (Qabs q) then k else (k - 1)%Z.

(** The exponent of the last bit of the values around [q]. *)
Definition ulpExp (q : Q) : Z := Z.max (ilog2 q - 52) (-1074).

(** The integer nearest to [x], ties to even. *)
Definition rne (x : Q) : Z :=
  let f := Qfloor x in
  match Qcompare (x - inject_Z f) (1 # 2) with
  | Lt => f
  | Gt => (f + 1)%Z
  | Eq => if Z.even f then f else (f + 1)%Z
  end.

Definition rndAbs (x : Q) : Q :=
  let e := ulpExp x in inject_Z (rne (x / 2 ^ e)) * 2 ^ e.

(** Rounding to nearest with unbounded exponent range above. *)
Definition rndQ (q : Q) : Q :=
  Qred (if Qle_bool 0 q then rndAbs q else - rndAbs (- q)).

Definition huge : Q := 2 ^ 1024.

(** The value of binary64 for the exact result [q]. *)
Definition rnd (q : Q) : number :=
  let r := rndQ q in
  if Qle_bool huge (Qabs r) then Inf (Qneg_b r) else Fin r.

(** A number as a value of binary64. *)
Definition nearest (x : number) : number :=
  match x with Fin q => rnd q | other => other end.

Definition add (x y : number) : number := nearest (Num.add x y).
Definition sub (x y : number) : number := nearest (Num.sub x y).
Definition mul (x y : number) : number := nearest (Num.mul x y).
Definition div (x y : number) : number := nearest (Num.div x y).

(** A decimal literal of the source. *)
Definition lit (q : Q) : number := rnd q.

End F64.

Declare Scope f64_scope.
Delimit Scope f64_scope with f64.
Import F64(ilog2, ulpExp, rne, rndAbs, rndQ, huge, rnd).

Infix "[+]" := F64.add (at level 50, left associativity) : f64_scope.
Infix "[-]" := F64.sub (at level 50, left associativity) : f64_scope.
Infix "[*]" := F64.mul (at level 40, left associativity) : f64_scope.
Infix "[/]" := F64.div (at level 40, left associativity) : f64_scope.

(* ================================================================= *)
(** ** ECMAScript dates *)

Module JsDate.

Definition msPerDay : Z := 86400000.
Definition maxTime : Z := 8640000000000000.

(** A Date object, by its time value. *)
Inductive Date : Type :=
| ValidDate (t : Z)
| InvalidDate.

Definition getTime (d : Date) : number :=
  match d with
  | ValidDate t => of_Z t
  | InvalidDate => NaN
  end.

(** [TimeClip] followed by [new Date(tv)]. *)
Definition TimeClip (t : Z) : Date :=
  if Z.abs t <=? maxTime then ValidDate t else InvalidDate.

Definition Day (t : Z) : Z := t / msPerDay.

Definition DayFromYear (y : Z) : Z :=
  365 * (y - 1970) + (y - 1969) / 4 - (y - 1901) / 100 + (y - 1601) / 400.

Definition isLeapYear (y : Z) : bool :=
  ((y mod 4 =? 0) && negb (y mod 100 =? 0)) || (y mod 400 =? 0).

Definition DaysInYear (y : Z) : Z := if isLeapYear y then 366 else 365.

(** [YearFromTime] on day numbers: the year [y] with
    [DayFromYear y <= day < DayFromYear (y + 1)], found from the mean
    year length and corrected by at most one. *)
Definition YearFromDay (day : Z) : Z :=
  let y := 1970 + (day * 400) / 146097 in
  if DayFromYear (y + 1) <=? day then y + 1
  else if DayFromYear y <=? day then y
  else y - 1.

Definition YearFromTime (t : Z) : Z := YearFromDay (Day t).

(** Day number, within its year, of the first day of month [m]
    (0 = January). *)
Definition monthStart (leap : bool) (m : Z) : Z :=
  let l := if leap then 1 else 0 in
  match m with
  | 0 => 0
  | 1 => 31
  | 2 => 59 + l
  | 3 => 90 + l
  | 4 => 120 + l
  | 5 => 151 + l
  | 6 => 181 + l
  | 7 => 212 + l
  | 8 => 243 + l
  | 9 => 273 + l
  | 10 => 304 + l
  | _ => 334 + l
  end.

Definition DayWithinYear (t : Z) : Z := Day t - DayFromYear (YearFromTime t).

Definition monthOfDay (leap : bool) (d : Z) : Z :=
  if d <? monthStart leap 1 then 0
  else if d <? monthStart leap 2 then 1
  else if d <? monthStart leap 3 then 2
  else if d <? monthStart leap 4 then 3
  else if d <? monthStart leap 5 then 4
  else if d <? monthStart leap 6 then 5
  else if d <? monthStart leap 7 then 6
  else if d <? monthStart leap 8 then 7
  else if d <? monthStart leap 9 then 8
  else if d <? monthStart leap 10 then 9
  else if d <? monthStart leap 11 then 10
  else 11.

Definition MonthFromTime (t : Z) : Z :=
  monthOfDay (isLeapYear (YearFromTime t)) (DayWithinYear t).

Definition DateFromTime (t : Z) : Z :=
  let leap := isLeapYear (YearFromTime t) in
  DayWithinYear t - monthStart leap (MonthFromTime t) + 1.

(** [MakeDay year month date] for integral arguments: months outside
    0..11 carry into the year, days outside the month carry on. *)
Definition MakeDay (year month date : Z) : Z :=
  let ym := year + month / 12 in
  let mn := month mod 12 in
  DayFromYear ym + monthStart (isLeapYear ym) mn + date - 1.

(** [MakeFullYear]: years 0..99 stand for 1900..1999. *)
Definition MakeFullYear (y : Z) : Z :=
  if (0 <=? y) && (y <=? 99) then 1900 + y else y.

(** [new Date(Date.UTC(year, month, date))], midnight UTC. *)
Definition Date_UTC (year month date : Z) : Date :=
  TimeClip (MakeDay (MakeFullYear year) month date * msPerDay).

(** The calendar day [year-month-date] of the proleptic Gregorian
    calendar (month 1 = January), as a Date at midnight UTC. *)
Definition civil (year month date : Z) : Date :=
  TimeClip (MakeDay year (month - 1) date * msPerDay).

(** The getters return NaN on the Invalid Date: [None]. *)
Definition getUTCFullYear (d : Date) : option Z :=
  match d with ValidDate t => Some (YearFromTime t) | InvalidDate => None end.

Definition getUTCMonth (d : Date) : option Z :=
  match d with ValidDate t => Some (MonthFromTime t) | InvalidDate => None end.

Definition getUTCDate (d : Date) : option Z :=
  match d with ValidDate t => Some (DateFromTime t) | InvalidDate => None end.

(** Relational operators on Date objects compare the time values. *)
Definition date_lt (a b : Date) : bool := Num.lt (getTime a) (getTime b).
Definition date_gt (a b : Date) : bool := Num.gt (getTime a) (getTime b).
Definition date_le (a b : Date) : bool := Num.le (getTime a) (getTime b).

(** [new Date(d.getTime() + ms)]. *)
Definition addMs (d : Date) (ms : Z) : Date :=
  match d with
  | ValidDate t => TimeClip (t + ms)
  | InvalidDate => InvalidDate
  end.

End JsDate.

Export JsDate.

(* ================================================================= *)
(** ** Host environment, labels and points *)

(** What the engine reads from its host: the clock behind [new Date()]
    (a time value, constant during one call), the implementation-defined
    parser behind [new Date(string)], and [Math.exp] on finite numbers. *)
Record Host : Type := {
  clock : Z;
  Date_parse : string -> Date;
  exp : Q -> Q
}.

(** A date label as it sits in [point.date]: missing ([undefined] or
    [null]), a string, a number, or a Date instance (an object, compared
    by reference). *)
Inductive Label : Type :=
| LMissing
| LString (s : string)
| LNumber (n : Z)
| LDateObj (ref : nat) (d : Date).

(** [Boolean(value)]. *)
Definition label_truthy (v : Label) : bool :=
  match v with
  | LMissing => false
  | LString s => negb (String.eqb s "")
  | LNumber n => negb (n =? 0)
  | LDateObj _ _ => true
  end.

(** SameValueZero, the equality of [Set]. *)
Definition sameValueZero (a b : Label) : bool :=
  match a, b with
  | LMissing, LMissing => true
  | LString s, LString s' => String.eqb s s'
  | LNumber n, LNumber n' => n =? n'
  | LDateObj r _, LDateObj r' _ => Nat.eqb r r'
  | _, _ => false
  end.

Record ForecastPoint : Type := {
  date : Label;
  forecast : number;
  lower : number;
  upper : number
}.

Record Dealer : Type := { dealer_id : Z }.
Record Context : Type := { dealer : option Dealer }.

(* ================================================================= *)
(** ** Small helpers for arrays and strings *)

Section Arrays.
Context {A B : Type}.

(** [xs.map((x, index) => f x index)]. *)
Fixpoint mapi_from (f : A -> nat -> B) (i : nat) (xs : list A) : list B :=
  match xs with
  | [] => []
  | x :: rest => f x i :: mapi_from f (S i) rest
  end.

Definition mapi (f : A -> nat -> B) (xs : list A) : list B := mapi_from f 0 xs.

(** [xs.filter((x, index) => keep index)]. *)
Fixpoint filteri_from (keep : nat -> bool) (i : nat) (xs : list A) : list A :=
  match xs with
  | [] => []
  | x :: rest =>
      if keep i then x :: filteri_from keep (S i) rest
      else filteri_from keep (S i) rest
  end.

Definition filteri (keep : nat -> bool) (xs : list A) : list A :=
  filteri_from keep 0 xs.

(** [xs.map(f)] where [f] may throw. *)
Fixpoint traverse (f : A -> option B) (xs : list A) : option (list B) :=
  match xs with
  | [] => Some []
  | x :: rest =>
      match f x, traverse f rest with
      | Some y, Some ys => Some (y :: ys)
      | _, _ => None
      end
  end.

End Arrays.

(** [xs[index] ?? dflt]. *)
Definition at_or {A : Type} (xs : list A) (index : nat) (dflt : A) : A :=
  nth index xs dflt.

(** [new Set(xs).size]. *)
Fixpoint distinct (xs : list Label) : list Label :=
  match xs with
  | [] => []
  | x :: rest =>
      if existsb (sameValueZero x) rest then distinct rest
      else x :: distinct rest
  end.

(** [s.includes(sub)]. *)
Fixpoint includes (sub s : string) : bool :=
  String.prefix sub s ||
  match s with
  | EmptyString => false
  | String _ rest => includes sub rest
  end.

Definition digit (c : ascii) : option Z :=
  let n := Z.of_nat (nat_of_ascii c) in
  if (48 <=? n) && (n <=? 57) then Some (n - 48) else None.

(** [/^\d{4}-\d{2}-\d{2}$/.test(s)] and [s.split("-").map(Number)]. *)
Definition matchIsoDate (s : string) : option (Z * Z * Z) :=
  match s with
  | String y1 (String y2 (String y3 (String y4 (String "-"
      (String m1 (String m2 (String "-"
        (String d1 (String d2 EmptyString))))))))) =>
      match digit y1, digit y2, digit y3, digit y4,
            digit m1, digit m2, digit d1, digit d2 with
      | Some a, Some b, Some c, Some e, Some f, Some g, Some h, Some i =>
          Some (1000 * a + 100 * b + 10 * c + e, 10 * f + g, 10 * h + i)
      | _, _, _, _, _, _, _, _ => None
      end
  | _ => None
  end.

Definition digitChar (n : Z) : ascii := ascii_of_nat (Z.to_nat (48 + n mod 10)).

(** Decimal digits of [n >= 0], zero-padded to [width] places. *)
Fixpoint padded (width : nat) (n : Z) : string :=
  match width with
  | O => EmptyString
  | S w => (padded w (n / 10) ++ String (digitChar n) EmptyString)%string
  end.

(** The first ten characters of [toISOString()]: [YYYY-MM-DD] for the
    years 0..9999, and a sign with six year digits otherwise. *)
Definition isoPrefix (t : Z) : string :=
  let y := YearFromTime t in
  let mm := padded 2 (MonthFromTime t + 1) in
  let dd := padded 2 (DateFromTime t) in
  if (0 <=? y) && (y <=? 9999)
  then (padded 4 y ++ "-" ++ mm ++ "-" ++ dd)%string
  else let sign := if y <? 0 then "-"%string else "+"%string in
       (sign ++ padded 6 (Z.abs y) ++ "-" ++ mm)%string.

(** [formatDate value = value.toISOString().slice(0, 10)]; [toISOString]
    throws a RangeError on the Invalid Date: [None]. *)
Definition formatDate (value : Date) : option string :=
  match value with
  | ValidDate t => Some (isoPrefix t)
  | InvalidDate => None
  end.

(* ================================================================= *)
(** ** The event catalog *)

Inductive EventKind : Type := spike | dip | ramp | step | otherKind.

Record MonthDay : Type := { md_m : Z; md_d : Z }.
Record EventWindow : Type := { w_start : MonthDay; w_end : MonthDay }.

(** A value found under a key of [EVENT_PROFILES].  Absent properties
    ([undefined]) are [None]; a [kind] that is none of the four strings
    is [otherKind]. *)
Record EventProfile : Type := {
  kind : EventKind;
  avgImpact : number;
  peakImpact : number;
  window : option EventWindow;
  center : option MonthDay;
  widthDays : option number
}.

Definition md (m d : Z) : MonthDay := {| md_m := m; md_d := d |}.

Definition windowed (k : EventKind) (avg peak : Q) (s e : MonthDay)
  : EventProfile :=
  {| kind := k; avgImpact := Fin avg; peakImpact := Fin peak;
     window := Some {| w_start := s; w_end := e |};
     center := None; widthDays := None |}.

Definition centred (avg peak : Q) (c : option MonthDay) (w : Q)
  : EventProfile :=
  {| kind := spike; avgImpact := Fin avg; peakImpact := Fin peak;
     window := None; center := c; widthDays := Some (Fin w) |}.

(** The own properties of a catalog object, each key once. *)
Definition Catalog : Type := list (string * EventProfile).

Definition EVENT_PROFILES : Catalog :=
  [ ("Monsoon Month (Jun-Sep)",
       windowed dip (-0.12) (-0.25) (md 6 15) (md 9 15));
    ("Diwali Festival (Oct-Nov)",
       centred 0.18 0.32 (Some (md 10 25)) 24);
    ("Construction Boom (Feb-May)",
       windowed ramp 0.12 0.28 (md 2 10) (md 5 31));
    ("Summer Paint Push (Mar-Apr)",
       windowed step 0.08 0.18 (md 3 15) (md 4 30));
    ("Year-End Promo (Dec)",
       windowed step 0.07 0.18 (md 12 1) (md 12 31));
    ("Winter Slowdown (Jan)",
       windowed dip (-0.06) (-0.12) (md 1 1) (md 1 31));
    ("Regional Expo (Sep)",
       centred 0.05 0.12 (Some (md 9 10)) 12);
    ("Dealer Anniversary (Variable)",
       centred 0.04 0.1 None 10) ]%string.

(** [EVENT_OPTIONS = Object.keys(EVENT_PROFILES)]. *)
Definition EVENT_OPTIONS : list string := map fst EVENT_PROFILES.

Fixpoint ownProperty (catalog : Catalog) (key : string) : option EventProfile :=
  match catalog with
  | [] => None
  | (k, p) :: rest => if String.eqb k key then Some p else ownProperty rest key
  end.

(** The catalog is an object literal, so a key it does not own is looked
    up on [Object.prototype], whose members are functions (and, for
    [__proto__], an object): truthy values without [kind], [window],
    [center], [widthDays] or impacts. *)
Definition Object_prototype_keys : list string :=
  [ "constructor"; "hasOwnProperty"; "isPrototypeOf";
    "propertyIsEnumerable"; "toLocaleString"; "toString"; "valueOf";
    "__proto__"; "__defineGetter__"; "__defineSetter__";
    "__lookupGetter__"; "__lookupSetter__" ]%string.

Definition inheritedMember : EventProfile :=
  {| kind := otherKind; avgImpact := NaN; peakImpact := NaN;
     window := None; center := None; widthDays := None |}.

(** [catalog[eventTag]]; [None] is [undefined]. *)
Definition getProfile (catalog : Catalog) (eventTag : string)
  : option EventProfile :=
  match ownProperty catalog eventTag with
  | Some p => Some p
  | None =>
      if existsb (String.eqb eventTag) Object_prototype_keys
      then Some inheritedMember
      else None
  end.

(* ================================================================= *)
(** ** CurveBuilder: [buildEventMultiplier] *)

Section CurveBuilder.

Variable host : Host.

(** [new Date()]. *)
Definition today : Date := ValidDate (clock host).

(** [new Date(Date.UTC(year, month, date))] with a year that may be NaN. *)
Definition utcDate (year : option Z) (month date : option Z) : Date :=
  match year, month, date with
  | Some y, Some m, Some d => Date_UTC y m d
  | _, _, _ => InvalidDate
  end.

(** Truncation of a Date to its UTC calendar day. *)
Definition utcDay (value : Date) : Date :=
  utcDate (getUTCFullYear value) (getUTCMonth value) (getUTCDate value).

(** [new Date(value)] for a string or a number. *)
Definition newDate (value : Label) : Date :=
  match value with
  | LString s => Date_parse host s
  | LNumber n => TimeClip n
  | LDateObj _ d => d
  | LMissing => InvalidDate
  end.

Definition toUTCDate (value : Label) : option Date :=
  if negb (label_truthy value) then None
  else
    match value with
    | LDateObj _ d => Some (utcDay d)
    | _ =>
        match (match value with LString s => matchIsoDate s | _ => None end) with
        | Some (year, month, day) => Some (Date_UTC year (month - 1) day)
        | None =>
            let parsed := newDate value in
            match parsed with
            | InvalidDate => None
            | ValidDate _ => Some (utcDay parsed)
            end
        end
    end.

(** The dates of a label sequence; an unparseable label at position
    [index] becomes January 1 of the current year plus [index + 1] days. *)
Definition labelDates (dateLabels : list Label) : list Date :=
  mapi (fun label index =>
          match toUTCDate label with
          | Some parsed => parsed
          | None =>
              let fallback := utcDate (getUTCFullYear today) (Some 0) (Some 1) in
              addMs fallback ((Z.of_nat index + 1) * 86400000)
          end)
       dateLabels.

Definition makeUTCDate (year : option Z) (month day : Z) : Date :=
  utcDate year (Some (month - 1)) (Some day).

Section PerProfile.

Variable profile : EventProfile.
Variable eventTag : string.
Variable context : Context.

Definition resolveWindow (date : Date) : option (Date * Date) :=
  match window profile with
  | None => None
  | Some w =>
      let year := getUTCFullYear date in
      let start := makeUTCDate year (md_m (w_start w)) (md_d (w_start w)) in
      let end_ := makeUTCDate year (md_m (w_end w)) (md_d (w_end w)) in
      if date_lt end_ start then
        if date_le date end_ then
          Some (makeUTCDate (option_map (fun y => y - 1) year)
                            (md_m (w_start w)) (md_d (w_start w)), end_)
        else
          Some (start, makeUTCDate (option_map (fun y => y + 1) year)
                                   (md_m (w_end w)) (md_d (w_end w)))
      else Some (start, end_)
  end.

Definition resolveCenter (date : Date) : option Date :=
  match center profile with
  | Some c => Some (makeUTCDate (getUTCFullYear date) (md_m c) (md_d c))
  | None =>
      match dealer context with
      | Some dl =>
          if includes "Dealer Anniversary" eventTag then
            let id_or_1 := if dealer_id dl =? 0 then 1 else dealer_id dl in
            let month := Z.rem id_or_1 12 + 1 in
            Some (makeUTCDate (getUTCFullYear date) month 15)
          else None
      | None => None
      end
  end.

(** [date < window.start || date > window.end]. *)
Definition outsideWindow (date : Date) (w : Date * Date) : bool :=
  date_lt date (fst w) || date_gt date (snd w).

(** The body of the final [dates.map]. *)
Definition multiplierAt (date : Date) : number :=
  match kind profile with
  | spike =>
      match resolveCenter date with
      | None => Fin 1
      | Some centerDate =>
          let widthDays := match widthDays profile with
                           | Some w => w
                           | None => Fin 14
                           end in
          let sigma := Math_max (Fin 3) (widthDays / Fin 2.355) in
          let dist := (getTime date - getTime centerDate) / Fin 86400000 in
          let impact :=
            peakImpact profile
            * Math_exp (exp host) (Fin (-0.5) * sq (dist / sigma)) in
          Fin 1 + impact
      end
  | k =>
      match resolveWindow date with
      | None => Fin 1
      | Some w =>
          let impact :=
            if outsideWindow date w then Fin 0
            else
              let t := Math_min (Fin 1)
                         (Math_max (Fin 0)
                            ((getTime date - getTime (fst w))
                             / (getTime (snd w) - getTime (fst w)))) in
              match k with
              | dip =>
                  let dist := t - Fin 0.5 in
                  peakImpact profile
                  * (Fin 1 - Math_min (Fin 1) (dist * dist * Fin 4))
              | ramp => peakImpact profile * t
              | step => peakImpact profile
              | _ => Fin 0
              end in
          Fin 1 + impact
      end
  end%num.

End PerProfile.

(** [buildEventMultiplier] over an explicit catalog. *)
Definition buildEventMultiplierIn (catalog : Catalog)
    (eventTag : string) (dateLabels : list Label) (context : Context)
  : list number :=
  match getProfile catalog eventTag with
  | None => []
  | Some profile =>
      match dateLabels with
      | [] => []
      | _ => map (multiplierAt profile eventTag context) (labelDates dateLabels)
      end
  end.

Definition buildEventMultiplier : string -> list Label -> Context -> list number :=
  buildEventMultiplierIn EVENT_PROFILES.

End CurveBuilder.

(* ================================================================= *)
(** ** DateNormalizer, sequence level: [resolvePointDates] *)

Section PointDates.

Variable host : Host.

(** [buildDailyLabels count]: the ISO days from tomorrow on.  [None] when
    [toISOString] throws. *)
Definition buildDailyLabels (count : nat) : option (list Label) :=
  let start := today host in
  traverse (fun index =>
              option_map LString
                (formatDate (addMs start ((Z.of_nat index + 1) * 86400000))))
           (seq 0 count).

Definition resolvePointDates (points : list ForecastPoint)
  : option (list Label) :=
  match points with
  | [] => Some []
  | _ =>
      let raw := map date points in
      let unique := distinct (filter label_truthy raw) in
      if (length unique <=? 1)%nat
         || existsb (fun value => negb (label_truthy value)) raw
      then buildDailyLabels (length points)
      else Some raw
  end.

End PointDates.

(* ================================================================= *)
(** ** SeriesDownsampler: [downsamplePoints] *)

(** [Math.ceil(a / b)] on counts; [None] is Infinity (b = 0 < a). *)
Definition ceilDiv (a b : nat) : option nat :=
  match b with
  | O => None
  | _ => Some ((a + b - 1) / b)%nat
  end.

(** [index % step]; a finite number modulo Infinity is itself. *)
Definition remStep (index : nat) (step : option nat) : nat :=
  match step with
  | Some s => (index mod s)%nat
  | None => index
  end.

Definition downsamplePoints {A : Type} (points : list A) (maxPoints : nat)
  : list A :=
  if (length points <=? maxPoints)%nat then points
  else
    let step := ceilDiv (length points) maxPoints in
    filteri (fun index =>
               (remStep index step =? 0)%nat
               || (index =? length points - 1)%nat)
            points.

(* ================================================================= *)
(** ** WhatIfComposer: the point computation of [runWhatIf] *)

Section WhatIf.

Variable host : Host.
Variable catalog : Catalog.

(** [round value = Math.round(value * 10) / 10]. *)
Definition round (value : number) : number :=
  (Math_round (value * Fin 10) / Fin 10)%num.

(** [labels[index] ?? fallback]. *)
Definition labelAt (labels : list Label) (index : nat) (fallback : Label)
  : Label :=
  match nth_error labels index with
  | Some LMissing | None => fallback
  | Some l => l
  end.

Definition scaled (point : ForecastPoint) (label : Label) (factor : number)
  : ForecastPoint :=
  {| date := label;
     forecast := round (forecast point * factor);
     lower := round (lower point * factor);
     upper := round (upper point * factor) |}.

(** The [base.points.map] of demo mode. *)
Definition applyDirect (multiplier : number) (eventCurve : list number)
    (baseDates : list Label) (points : list ForecastPoint)
  : list ForecastPoint :=
  mapi (fun point index =>
          let eventMultiplier := at_or eventCurve index (Fin 1) in
          let combined := (multiplier * eventMultiplier)%num in
          scaled point (labelAt baseDates index (date point)) combined)
       points.

(** Direct policy (demo mode): [base.points] scaled by the percent shift
    times the event curve. *)
Definition whatIfDirect (points : list ForecastPoint)
    (whatIfPercent : number) (whatIfEvent : string)
    (selectedDealer : option Dealer) : option (list ForecastPoint) :=
  let multiplier := (Fin 1 + whatIfPercent / Fin 100)%num in
  match resolvePointDates host points with
  | None => None
  | Some baseDates =>
      let eventCurve :=
        buildEventMultiplierIn host catalog whatIfEvent baseDates
          {| dealer := selectedDealer |} in
      Some (applyDirect multiplier eventCurve baseDates points)
  end.

(** [curve.reduce((sum, value) => sum + value, 0) / Math.max(1, curve.length)]. *)
Definition average (curve : list number) : number :=
  (fold_left Num.add curve (Fin 0)
   / Math_max (Fin 1) (of_Z (Z.of_nat (length curve))))%num.

Definition normalize (curve : list number) : list number :=
  let avgCurve := average curve in
  map (fun value => (value / or_else avgCurve (Fin 1))%num) curve.

(** The [data.points.map] of the API branch. *)
Definition applyNormalized (curve : list number) (dates : list Label)
    (points : list ForecastPoint) : list ForecastPoint :=
  let normalized := normalize curve in
  mapi (fun point index =>
          let multiplier := at_or normalized index (Fin 1) in
          scaled point (labelAt dates index (date point)) multiplier)
       points.

(** Normalized policy (forecast from the API): [data.points] scaled by
    the event curve divided by its own mean.  With no profile under the
    tag the points are passed on as they are. *)
Definition whatIfNormalized (points : list ForecastPoint)
    (whatIfEvent : string) (selectedDealer : option Dealer)
  : option (list ForecastPoint) :=
  match getProfile catalog whatIfEvent with
  | None => Some points
  | Some _ =>
      match resolvePointDates host points with
      | None => None
      | Some dates =>
          let curve :=
            buildEventMultiplierIn host catalog whatIfEvent dates
              {| dealer := selectedDealer |} in
          Some (applyNormalized curve dates points)
      end
  end.

(** [runWhatIf] on the points of its forecast: [base.points] in demo
    mode, [data.points] of the response otherwise (when the request
    fails, the catch branch repeats the demo computation).  [None]: an
    exception escapes. *)
Definition runWhatIf (demoMode : bool) (points : list ForecastPoint)
    (whatIfPercent : number) (whatIfEvent : string)
    (selectedDealer : option Dealer) : option (list ForecastPoint) :=
  if demoMode
  then whatIfDirect points whatIfPercent whatIfEvent selectedDealer
  else whatIfNormalized points whatIfEvent selectedDealer.

End WhatIf.

(* ================================================================= *)
(** ** The engine in binary64 *)

(** The functions of the engine that compute with numbers, once more,
    with the arithmetic of binary64: [multiplierAt] and the curve
    builder, [round], and the two composition policies of [runWhatIf].
    Dates, labels and the catalog are those above; the numbers of a
    profile, written as decimal literals in the source, are read as the
    values of binary64 nearest to them. *)
Module Binary64.

Local Open Scope f64_scope.
(** [Math.exp]: the host's approximation, as a value of binary64. *)
Definition Math_exp (exp : Q -> Q) (x : number) : number :=
  F64.nearest (Num.Math_exp exp x).

(** [x ** 2]. *)
Definition sq (x : number) : number := (x [*] x)%f64.

Section CurveBuilder.

Variable host : Host.
Variable profile : EventProfile.
Variable eventTag : string.
Variable context : Context.

(** The body of the final [dates.map]. *)
Definition multiplierAt (date : Date) : number :=
  match kind profile with
  | spike =>
      match resolveCenter profile eventTag context date with
      | None => Fin 1
      | Some centerDate =>
          let widthDays := match widthDays profile with
                           | Some w => F64.nearest w
                           | None => Fin 14
                           end in
          let sigma := Math_max (Fin 3) (widthDays [/] F64.lit 2.355) in
          let dist := (getTime date [-] getTime centerDate) [/] Fin 86400000 in
          let impact :=
            F64.nearest (peakImpact profile)
            [*] Math_exp (exp host) (Fin (-0.5) [*] sq (dist [/] sigma)) in
          Fin 1 [+] impact
      end
  | k =>
      match resolveWindow profile date with
      | None => Fin 1
      | Some w =>
          let impact :=
            if outsideWindow date w then Fin 0
            else
              let t := Math_min (Fin 1)
                         (Math_max (Fin 0)
                            ((getTime date [-] getTime (fst w))
                             [/] (getTime (snd w) [-] getTime (fst w)))) in
              match k with
              | dip =>
                  let dist := t [-] Fin 0.5 in
                  F64.nearest (peakImpact profile)
                  [*] (Fin 1 [-] Math_min (Fin 1) (dist [*] dist [*] Fin 4))
              | ramp => F64.nearest (peakImpact profile) [*] t
              | step => F64.nearest (peakImpact profile)
              | _ => Fin 0
              end in
          Fin 1 [+] impact
      end
  end%f64.

End CurveBuilder.

Definition buildEventMultiplierIn (host : Host) (catalog : Catalog)
    (eventTag : string) (dateLabels : list Label) (context : Context)
  : list number :=
  match getProfile catalog eventTag with
  | None => []
  | Some profile =>
      match dateLabels with
      | [] => []
      | _ => map (multiplierAt host profile eventTag context)
                 (labelDates host dateLabels)
      end
  end.

Definition buildEventMultiplier (host : Host)
  : string -> list Label -> Context -> list number :=
  buildEventMultiplierIn host EVENT_PROFILES.

Section WhatIf.

Variable host : Host.
Variable catalog : Catalog.

(** [round value = Math.round(value * 10) / 10]. *)
Definition round (value : number) : number :=
  (Math_round (value [*] Fin 10) [/] Fin 10)%f64.

Definition scaled (point : ForecastPoint) (label : Label) (factor : number)
  : ForecastPoint :=
  {| date := label;
     forecast := round (forecast point [*] factor)%f64;
     lower := round (lower point [*] factor)%f64;
     upper := round (upper point [*] factor)%f64 |}.

Definition applyDirect (multiplier : number) (eventCurve : list number)
    (baseDates : list Label) (points : list ForecastPoint)
  : list ForecastPoint :=
  mapi (fun point index =>
          let eventMultiplier := at_or eventCurve index (Fin 1) in
          let combined := (multiplier [*] eventMultiplier)%f64 in
          scaled point (labelAt baseDates index (date point)) combined)
       points.

Definition whatIfDirect (points : list ForecastPoint)
    (whatIfPercent : number) (whatIfEvent : string)
    (selectedDealer : option Dealer) : option (list ForecastPoint) :=
  let multiplier := (Fin 1 [+] whatIfPercent [/] Fin 100)%f64 in
  match resolvePointDates host points with
  | None => None
  | Some baseDates =>
      let eventCurve :=
        buildEventMultiplierIn host catalog whatIfEvent baseDates
          {| dealer := selectedDealer |} in
      Some (applyDirect multiplier eventCurve baseDates points)
  end.

(** [curve.reduce((sum, value) => sum + value, 0) / Math.max(1, curve.length)]. *)
Definition average (curve : list number) : number :=
  (fold_left F64.add curve (Fin 0)
   [/] Math_max (Fin 1) (of_Z (Z.of_nat (length curve))))%f64.

Definition normalize (curve : list number) : list number :=
  let avgCurve := average curve in
  map (fun value => (value [/] or_else avgCurve (Fin 1))%f64) curve.

Definition applyNormalized (curve : list number) (dates : list Label)
    (points : list ForecastPoint) : list ForecastPoint :=
  let normalized := normalize curve in
  mapi (fun point index =>
          let multiplier := at_or normalized index (Fin 1) in
          scaled point (labelAt dates index (date point)) multiplier)
       points.

Definition whatIfNormalized (points : list ForecastPoint)
    (whatIfEvent : string) (selectedDealer : option Dealer)
  : option (list ForecastPoint) :=
  match getProfile catalog whatIfEvent with
  | None => Some points
  | Some _ =>
      match resolvePointDates host points with
      | None => None
      | Some dates =>
          let curve :=
            buildEventMultiplierIn host catalog whatIfEvent dates
              {| dealer := selectedDealer |} in
          Some (applyNormalized curve dates points)
      end
  end.

Definition runWhatIf (demoMode : bool) (points : list ForecastPoint)
    (whatIfPercent : number) (whatIfEvent : string)
    (selectedDealer : option Dealer) : option (list ForecastPoint) :=
  if demoMode
  then whatIfDirect points whatIfPercent whatIfEvent selectedDealer
  else whatIfNormalized points whatIfEvent selectedDealer.

End WhatIf.

End Binary64.

(* ================================================================= *)
(** ** Impact labels: [formatImpact] *)

(** [String(n)] for an integer [n] below 10^21 in magnitude (from there
    on JavaScript writes an exponent). *)
Definition integerToString (n : Z) : string :=
  NilZero.string_of_int (Z.to_int n).

(** [`${Math.round(x)}`]; the zero that [Math.round] returns for
    [-0.5 <= x < 0] is written without a sign. *)
Definition roundedToString (x : number) : string :=
  match Math_round x with
  | Fin q => integerToString (Qfloor q)
  | Inf false => "Infinity"
  | Inf true => "-Infinity"
  | NaN => "NaN"
  end.

(** [formatImpact]: the product [value * 100] is that of binary64. *)
Definition formatImpact (value : number) : string :=
  let sign := if Num.le (Fin 0) value then "+"%string else ""%string in
  (sign ++ roundedToString (value [*] Fin 100)%f64 ++ "%")%string.

(* ================================================================= *)
(** ** Demo data: [buildDemoPoints] and [buildDemoForecast] *)

Section DemoData.

Variable host : Host.

(** [Math.sin] on finite numbers, as the host approximates it. *)
Variable sin : Q -> Q.

Definition Math_sin (x : number) : number :=
  match x with
  | Fin q => Fin (sin q)
  | _ => NaN
  end.

(** [None] when [toISOString] throws. *)
Definition buildDemoPoints (horizon : nat) (base trend : number)
  : option (list ForecastPoint) :=
  let start := today host in
  traverse (fun index =>
              let seasonal :=
                (Fin 8 * Math_sin (of_Z (Z.of_nat index) / Fin 4))%num in
              let value :=
                (base + trend * of_Z (Z.of_nat index) + seasonal)%num in
              let forecast := round value in
              option_map
                (fun label =>
                   {| date := LString label;
                      forecast := forecast;
                      lower := round (Math_max (Fin 0) (forecast * Fin 0.88)%num);
                      upper := round (forecast * Fin 1.12)%num |})
                (formatDate (addMs start ((Z.of_nat index + 1) * 86400000))))
           (seq 0 horizon).

(** The [points] of [buildDemoForecast skuId region horizon base]. *)
Definition buildDemoForecast (horizon : nat) (base : number)
  : option (list ForecastPoint) :=
  buildDemoPoints horizon base (Fin 0.6).

End DemoData.

(* ================================================================= *)
(** ** Event overlap and chart data *)

(** [Math.abs]. *)
Definition Math_abs (x : number) : number :=
  match x with
  | Fin q => Fin (Qabs q)
  | Inf _ => Inf false
  | NaN => NaN
  end.

Module Chart.

(** [{ labels, datasets }], each dataset by its [data]. *)
Record t : Type := { labels : list Label; datasets : list (list number) }.

End Chart.

(** [points.map((p) => p.forecast)]. *)
Definition forecastValues (points : list ForecastPoint) : list number :=
  map forecast points.

Section Charts.

Variable host : Host.

(** [eventHasOverlap]; a forecast is given by its [points] array, [None]
    when there is no such array.  The result is [None] when an exception
    escapes. *)
Definition eventHasOverlap (whatIfForecast forecast : option (list ForecastPoint))
    (whatIfEvent : string) (selectedDealer : option Dealer) : option bool :=
  let referencePoints :=
    match whatIfForecast with
    | Some points => points
    | None => match forecast with
              | Some points => points
              | None => []
              end
    end in
  match resolvePointDates host referencePoints with
  | None => None
  | Some dates =>
      match dates with
      | [] => Some true
      | _ =>
          let curve :=
            buildEventMultiplier host whatIfEvent dates
              {| dealer := selectedDealer |} in
          Some (existsb (fun value =>
                           Num.gt (Math_abs (value - Fin 1)%num) (Fin 0.01))
                        curve)
      end
  end.

(** [forecastChart]: [Some None] is [null], [None] an exception. *)
Definition forecastChart (forecast : option (list ForecastPoint))
    (maxChartPoints : nat) : option (option Chart.t) :=
  match forecast with
  | None => Some None
  | Some points =>
      let sampledPoints := downsamplePoints points maxChartPoints in
      match resolvePointDates host sampledPoints with
      | None => None
      | Some labels =>
          Some (Some {| Chart.labels := labels;
                        Chart.datasets :=
                          [ forecastValues sampledPoints;
                            map lower sampledPoints;
                            map upper sampledPoints ] |})
      end
  end.

Definition whatIfChart (whatIfForecast : option (list ForecastPoint))
    (maxChartPoints : nat) : option (option Chart.t) :=
  match whatIfForecast with
  | None => Some None
  | Some points =>
      let sampledPoints := downsamplePoints points maxChartPoints in
      match resolvePointDates host sampledPoints with
      | None => None
      | Some labels =>
          Some (Some {| Chart.labels := labels;
                        Chart.datasets := [ forecastValues sampledPoints ] |})
      end
  end.

End Charts.

(* ================================================================= *)
(** ** Inventory by region: [regionInventoryData] *)

Module Inventory.

Record DealerRow : Type := { id : Z; region : string }.
Record Item : Type := { dealer_id : Z; quantity : Z }.

(** A [Map] from region to quantity, in insertion order. *)
Definition Totals : Type := list (string * Z).

(** [totals.get(key)]; [None] is [undefined]. *)
Fixpoint Map_get (totals : Totals) (key : string) : option Z :=
  match totals with
  | [] => None
  | (k, v) :: rest => if String.eqb k key then Some v else Map_get rest key
  end.

(** [totals.set(key, value)]: a known key keeps its place, a new one is
    appended. *)
Fixpoint Map_set (totals : Totals) (key : string) (value : Z) : Totals :=
  match totals with
  | [] => [(key, value)]
  | (k, v) :: rest =>
      if String.eqb k key then (k, value) :: rest
      else (k, v) :: Map_set rest key value
  end.

(** [dealers.find((d) => d.id === item.dealer_id)]. *)
Definition findDealer (dealers : list DealerRow) (item : Item)
  : option DealerRow :=
  find (fun d => id d =? dealer_id item) dealers.

(** The body of [items.forEach]. *)
Definition addItem (dealers : list DealerRow) (totals : Totals) (item : Item)
  : Totals :=
  match findDealer dealers item with
  | None => totals
  | Some dealer =>
      let current :=
        match Map_get totals (region dealer) with
        | Some v => if v =? 0 then 0 else v
        | None => 0
        end in
      Map_set totals (region dealer) (current + quantity item)
  end.

Record Data : Type := { labels : list string; values : list Z }.

(** [networkInventory] is [None] when it is no array. *)
Definition regionInventoryData (dealers : list DealerRow)
    (networkInventory : option (list Item)) : Data :=
  let items := match networkInventory with
               | Some items => items
               | None => []
               end in
  let totals := fold_left (addItem dealers) items [] in
  {| labels := map fst totals; values := map snd totals |}.

End Inventory.

(* ================================================================= *)
(** ** Vocabulary of the properties *)

(** The membership test of the window resolver: [start <= d <= end]. *)
Definition insideWindow (d : Date) (w : Date * Date) : bool :=
  date_le (fst w) d && date_le d (snd w).

(** Midnight UTC of day number [n]. *)
Definition dayDate (n : Z) : Date := ValidDate (n * msPerDay).

(** Years all of whose days are valid time values. *)
Definition representableYear (y : Z) : Prop := -271820 <= y <= 275759.

(** Years that [Date.UTC] takes as they are. *)
Definition literalYear (y : Z) : Prop := y < 0 \/ 99 < y.

(** A window from December 1 to January 31. *)
Definition wrapWindow : EventWindow := {| w_start := md 12 1; w_end := md 1 31 |}.

Definition wrapProfile : EventProfile := windowed step 0.07 0.18 (md 12 1) (md 1 31).

(** A host for the examples: the clock reads 2024-02-29T01:00:00Z, the
    parser accepts nothing, and [exp] is a rational function that is 1 at
    0, positive and strictly increasing. *)
Definition expModel (x : Q) : Q :=
  if Qle_bool 0 x then (1 + x)%Q else (1 / (1 - x))%Q.

Definition sampleHost : Host :=
  {| clock := 1709168400000;
     Date_parse := fun _ => InvalidDate;
     exp := expModel |}.

(** Years whose days, and the days of the year before, are valid time
    values. *)
Definition yearInRange (y : Z) : Prop := -271819 <= y <= 275759.

(** A point whose three values are finite numbers. *)
Definition finitePoint (pt : ForecastPoint) : Prop :=
  finite (forecast pt) /\ finite (lower pt) /\ finite (upper pt).

(** The width of the spike kernel in the words of the specification:
    [sigma = max(3, widthDays / 2.355)]. *)
Definition sigmaOf (widthDays : Q) : Q := Qmax 3 (widthDays / 2.355).

(** The width a spike profile is evaluated with: its own, or 14. *)
Definition effectiveWidth (p : EventProfile) (w : Q) : Prop :=
  widthDays p = Some (Fin w) \/ (widthDays p = None /\ w = 14%Q).

(** What the properties of the spike kernel ask of [Math.exp]. *)
Definition strictlyIncreasing (f : Q -> Q) : Prop :=
  forall x y, (x < y)%Q -> (f x < f y)%Q.

Definition respectsEq (f : Q -> Q) : Prop :=
  forall x y, (x == y)%Q -> (f x == f y)%Q.

Definition unitRangeBelowZero (f : Q -> Q) : Prop :=
  forall x, (x <= 0)%Q -> (0 <= f x <= 1)%Q.

(** A multiplier that deviates from 1 by at most the peak impact, on the
    side of its sign. *)
Definition withinPeak (peak m : Q) : Prop :=
  ((0 <= peak)%Q -> (1 <= m <= 1 + peak)%Q)
  /\ ((peak < 0)%Q -> (1 + peak <= m <= 1)%Q).

(** Some label is blank, or all labels are one and the same value. *)
Definition degenerate (raw : list Label) : Prop :=
  (exists v, In v raw /\ label_truthy v = false)
  \/ (forall a b, In a raw -> In b raw -> sameValueZero a b = true).

(** Every label is blank, or all labels are one and the same value. *)
Definition entirelyDegenerate (raw : list Label) : Prop :=
  (forall v, In v raw -> label_truthy v = false)
  \/ (forall a b, In a raw -> In b raw -> sameValueZero a b = true).

(** [subseq xs ys]: [xs] is [ys] with some elements left out. *)
Inductive subseq {A : Type} : list A -> list A -> Prop :=
| subseq_nil : subseq [] []
| subseq_skip y xs ys : subseq xs ys -> subseq xs (y :: ys)
| subseq_take x xs ys : subseq xs ys -> subseq (x :: xs) (x :: ys).

(** The number of multiples of [s] below [m]. *)
Definition multiplesBelow (s m : nat) : nat := ((m + s - 1) / s)%nat.

(** Sample points and labels for the examples. *)
Definition pointAt (label : Label) (value : Q) : ForecastPoint :=
  {| date := label; forecast := Fin value;
     lower := Fin (value * 0.9); upper := Fin (value * 1.1) |}.

Definition marchDays : list Label :=
  [ LString "2024-03-01"; LString "2024-03-02"; LString "2024-03-03";
    LString "2024-03-04"; LString "2024-03-05" ]%string.

Definition flatHundred : list ForecastPoint :=
  map (fun label => pointAt label 100) marchDays.

Definition allYearStep : EventProfile :=
  windowed step 0.05 0.10 (md 1 1) (md 12 31).

(** The label stands for the time value [t] under [new Date(label)]: a
    Date instance with this time value, this number (not 0, within the
    time range), or a string that is not ISO-shaped and that the host
    parses to it. *)
Definition denotes (host : Host) (label : Label) (t : Z) : Prop :=
  match label with
  | LMissing => False
  | LString s => s <> ""%string /\ matchIsoDate s = None
                 /\ Date_parse host s = ValidDate t
  | LNumber n => n <> 0 /\ Z.abs n <= maxTime /\ n = t
  | LDateObj _ d => d = ValidDate t
  end.

(** A point whose values are finite with [lower <= forecast <= upper]. *)
Definition orderedBand (pt : ForecastPoint) : Prop :=
  exists l f u, lower pt = Fin l /\ forecast pt = Fin f /\ upper pt = Fin u
                /\ (l <= f <= u)%Q.

(** A finite number that is not negative. *)
Definition nonNegative (x : number) : Prop :=
  exists q, x = Fin q /\ (0 <= q)%Q.

(** [Math.max(1, n)] on a count. *)
Definition countDivisor (n : nat) : Q :=
  if Qle_bool (inject_Z (Z.of_nat n)) 1 then 1%Q else inject_Z (Z.of_nat n).

(** The test of [curve.some]: the multiplier is more than 0.01 away from 1. *)
Definition deviates (value : number) : bool :=
  Num.gt (Math_abs (value - Fin 1)%num) (Fin 0.01).

(** The fraction of the window [s .. e] that has passed at [t]. *)
Definition progress (s e t : Z) : Q :=
  ((inject_Z t - inject_Z s) / (inject_Z e - inject_Z s))%Q.

(** The catalog key of the dealer anniversary and its profile. *)
Definition anniversaryTag : string := "Dealer Anniversary (Variable)".

Definition anniversaryProfile : EventProfile := centred 0.04 0.1 None 10.

(** The month (1 = January) of the anniversary of the dealer [id]. *)
Definition anniversaryMonth (id : Z) : Z :=
  (if id =? 0 then 1 else id) mod 12 + 1.

(** A valid date of a year whose neighbours are valid too. *)
Definition dateInRange (d : Date) : Prop :=
  exists t, d = ValidDate t /\ yearInRange (YearFromTime t).

(** What the properties of the demo data ask of [Math.sin]. *)
Definition unitBounded (f : Q -> Q) : Prop :=
  forall x, (-1 <= f x <= 1)%Q.

(** The sine of the examples: the constant 0. *)
Definition flatSine (x : Q) : Q := 0%Q.

(** The demo point at [index] for a finite base and trend, with the date
    that the clock plus [index + 1] days has. *)
Definition demoPoint (host : Host) (sin : Q -> Q) (b tr : Q) (index : nat)
  : ForecastPoint :=
  let value := (b + tr * inject_Z (Z.of_nat index)
                + 8 * sin (inject_Z (Z.of_nat index) / 4))%Q in
  let f := (inject_Z (Qfloor (value * 10 + (1 # 2))) / 10)%Q in
  {| date := LString (isoPrefix (clock host + (Z.of_nat index + 1) * 86400000));
     forecast := Fin f;
     lower := round (Math_max (Fin 0) (Fin (f * 0.88)));
     upper := round (Fin (f * 1.12)) |}.

(** The quantity that [item] adds to the region [key]: its own when its
    dealer is known and of that region, else nothing. *)
Definition contribution (dealers : list Inventory.DealerRow) (key : string)
    (item : Inventory.Item) : Z :=
  match Inventory.findDealer dealers item with
  | Some dealer =>
      if String.eqb (Inventory.region dealer) key
      then Inventory.quantity item else 0
  | None => 0
  end.

Definition sumZ (values : list Z) : Z := fold_right Z.add 0 values.

(** The quantity of all items of the region [key]. *)
Definition regionTotal (dealers : list Inventory.DealerRow)
    (items : list Inventory.Item) (key : string) : Z :=
  sumZ (map (contribution dealers key) items).

(** The quantity of an item counts when its dealer is known. *)
Definition knownQuantity (dealers : list Inventory.DealerRow)
    (item : Inventory.Item) : Z :=
  match Inventory.findDealer dealers item with
  | Some _ => Inventory.quantity item
  | None => 0
  end.

(** Some item of the list belongs to a known dealer of the region. *)
Definition stocked (dealers : list Inventory.DealerRow)
    (items : list Inventory.Item) (key : string) : bool :=
  existsb (fun item =>
             match Inventory.findDealer dealers item with
             | Some dealer => String.eqb (Inventory.region dealer) key
             | None => false
             end)
          items.

(** The value under [key], 0 when there is none. *)
Definition totalOf (totals : Inventory.Totals) (key : string) : Z :=
  match Inventory.Map_get totals key with Some v => v | None => 0 end.

(** The value on the grid of exponent [e] nearest to [x]. *)
Definition onGrid (e : Z) (x : Q) : Q :=
  (inject_Z (F64.rne (x / 2 ^ e)) * 2 ^ e)%Q.

(** A finite value of binary64: on the grid and below the overflow
    threshold. *)
Definition isDouble (q : Q) : Prop := (rndQ q == q /\ Qabs q < huge)%Q.

(** A number that is a value of binary64. *)
Definition doubleValue (x : number) : Prop :=
  match x with Fin q => isDouble q | _ => True end.

(** A point whose values are values of binary64. *)
Definition doublePoint (pt : ForecastPoint) : Prop :=
  doubleValue (forecast pt) /\ doubleValue (lower pt) /\ doubleValue (upper pt).

(** A finite number between two bounds. *)
Definition withinRange (lo hi : Q) (x : number) : Prop :=
  exists q, x = Fin q /\ (lo <= q <= hi)%Q.

(** A point whose three values are at most [b] in magnitude. *)
Definition boundedPoint (b : Q) (pt : ForecastPoint) : Prop :=
  withinRange (- b) b (forecast pt) /\ withinRange (- b) b (lower pt)
  /\ withinRange (- b) b (upper pt).

(** A time value of a Date object. *)
Definition timeValue (t : Z) : Prop := Z.abs t <= maxTime.

(** What the properties of the spike kernel ask of [Math.exp] in
    binary64: it does not decrease, is 1 at 0, is not negative on
    arguments <= 0, and has left 1 by 2^-11 at -2^-9 (the exponential is
    below 0.9981 there). *)
Definition saneExp (f : Q -> Q) : Prop :=
  (forall x y, (x <= y)%Q -> (f x <= f y)%Q)
  /\ (f 0 == 1)%Q
  /\ (forall x, (x <= 0)%Q -> (0 <= f x)%Q)
  /\ (f (- (1 # 512)) <= 1 - (1 # 2048))%Q.

(** The spike kernel in the words of the specification, computed in
    binary64: [sigma = max(3, widthDays / 2.355)], the distance in days
    between the date [t] and the center [c], and
    [multiplier = 1 + peakImpact * exp(-0.5 * (dist / sigma)^2)]. *)
Definition sigma64 (widthDays : number) : number :=
  Math_max (Fin 3) (widthDays [/] F64.lit 2.355)%f64.

Definition dist64 (t c : Z) : number :=
  ((of_Z t [-] of_Z c) [/] Fin 86400000)%f64.

Definition kernel64 (expf : Q -> Q) (peak sigma : number) (t c : Z) : number :=
  (Fin 1 [+] peak [*] Binary64.Math_exp expf
                      (Fin (-0.5) [*] Binary64.sq (dist64 t c [/] sigma)))%f64.

Definition gaussian64 (expf : Q -> Q) (peak widthDays : number) (t c : Z)
  : number :=
  kernel64 expf peak (sigma64 widthDays) t c.

(** The same steps on finite values, from the time difference [x] in
    milliseconds. *)
Definition spikeSteps (expf : Q -> Q) (peak sigma x : Q) : Q :=
  let dist := rndQ (rndQ x / 86400000) in
  let u := rndQ (dist / sigma) in
  let e := rndQ (expf (rndQ (-0.5 * rndQ (u * u)))) in
  rndQ (1 + rndQ (peak * e)).

(** A host whose [exp] falls off fast: on negative arguments it is
    [(1 - x/64)^-64], which lies above the exponential. *)
Definition expDecay (x : Q) : Q :=
  if Qle_bool 0 x then (1 + x)%Q else (/ (1 - x / 64) ^ 64)%Q.

Definition decayHost : Host :=
  {| clock := 1709168400000;
     Date_parse := fun _ => InvalidDate;
     exp := expDecay |}.

(** Two profiles of the catalog and the key of the second. *)
Definition diwali : EventProfile := centred 0.18 0.32 (Some (md 10 25)) 24.

Definition monsoon : EventProfile :=
  windowed dip (-0.12) (-0.25) (md 6 15) (md 9 15).

Definition monsoonTag : string := "Monsoon Month (Jun-Sep)".

(** Two points, the first labelled with the last time value there is. *)
Definition edgePoints : list ForecastPoint :=
  [ pointAt (LNumber 8640000000000000) 100;
    pointAt (LString "2024-03-01") 100 ].

(** Twenty-one points with the values 100.25, 90.75 and 110.25. *)
Definition flat21 : list ForecastPoint :=
  map (fun index =>
         {| date := LString (isoPrefix (1709251200000 + Z.of_nat index * 86400000));
            forecast := Fin 100.25; lower := Fin 90.75; upper := Fin 110.25 |})
      (seq 0 21).

(* ================================================================= *)
(** ** Calendar arithmetic *)

Section Calendar.

Lemma isLeapYear_spec y :
  isLeapYear y = true <-> (y mod 4 = 0 /\ y mod 100 <> 0) \/ y mod 400 = 0.
Proof.
  unfold isLeapYear.
  rewrite orb_true_iff, andb_true_iff, negb_true_iff, !Z.eqb_eq, Z.eqb_neq.
  tauto.
Qed.

Lemma DaysInYear_range y : 365 <= DaysInYear y <= 366.
Proof. unfold DaysInYear. destruct (isLeapYear y); lia. Qed.

Lemma DayFromYear_succ y :
  DayFromYear (y + 1) = DayFromYear y + DaysInYear y.
Proof.
  unfold DaysInYear.
  destruct (isLeapYear y) eqn:L.
  - apply isLeapYear_spec in L. unfold DayFromYear.
    Z.to_euclidean_division_equations; lia.
  - assert (N : ~ ((y mod 4 = 0 /\ y mod 100 <> 0) \/ y mod 400 = 0)).
    { rewrite <- isLeapYear_spec, L. discriminate. }
    unfold DayFromYear. Z.to_euclidean_division_equations; lia.
Qed.

(** [YearFromDay] inverts [DayFromYear]: ECMAScript's [YearFromTime]. *)
Lemma YearFromDay_spec y day :
  DayFromYear y <= day < DayFromYear (y + 1) -> YearFromDay day = y.
Proof.
  intros H. unfold YearFromDay.
  pose proof (DayFromYear_succ y) as S1.
  pose proof (DayFromYear_succ (y + 1)) as S2.
  pose proof (DayFromYear_succ (y - 1)) as S0.
  replace (y - 1 + 1) with y in S0 by lia.
  pose proof (DaysInYear_range y).
  pose proof (DaysInYear_range (y + 1)).
  pose proof (DaysInYear_range (y - 1)).
  set (e := 1970 + day * 400 / 146097).
  assert (E : y - 1 <= e <= y + 1).
  { subst e. unfold DayFromYear in H. Z.to_euclidean_division_equations; lia. }
  assert (C : e = y - 1 \/ e = y \/ e = y + 1) by lia.
  destruct C as [C | [C | C]]; rewrite C.
  - replace (y - 1 + 1) with y by lia.
    destruct (Z.leb_spec (DayFromYear y) day); lia.
  - destruct (Z.leb_spec (DayFromYear (y + 1)) day); try lia.
    destruct (Z.leb_spec (DayFromYear y) day); lia.
  - destruct (Z.leb_spec (DayFromYear (y + 1 + 1)) day); try lia.
    destruct (Z.leb_spec (DayFromYear (y + 1)) day); lia.
Qed.

Lemma DayFromYear_bounds y :
  representableYear y ->
  -100000000 <= DayFromYear y /\ DayFromYear (y + 1) <= 100000000.
Proof.
  unfold representableYear, DayFromYear. intros.
  Z.to_euclidean_division_equations; lia.
Qed.

Lemma MakeDay_month y m d :
  0 <= m < 12 ->
  MakeDay y m d = DayFromYear y + monthStart (isLeapYear y) m + d - 1.
Proof.
  intros H. unfold MakeDay.
  rewrite (Z.div_small m 12), (Z.mod_small m 12) by lia.
  rewrite Z.add_0_r. reflexivity.
Qed.

Lemma month_cases m :
  0 <= m < 12 ->
  m = 0 \/ m = 1 \/ m = 2 \/ m = 3 \/ m = 4 \/ m = 5 \/ m = 6 \/ m = 7
  \/ m = 8 \/ m = 9 \/ m = 10 \/ m = 11.
Proof. lia. Qed.

Lemma offset_bounds y m d :
  0 <= m < 12 -> 1 <= d <= 31 ->
  0 <= monthStart (isLeapYear y) m + d - 1 < DaysInYear y.
Proof.
  intros Hm Hd. unfold DaysInYear.
  pose proof (month_cases m Hm) as C.
  repeat (destruct C as [C | C]); subst m;
    destruct (isLeapYear y); cbv [monthStart]; lia.
Qed.

Lemma MakeDay_in_year y m d :
  0 <= m < 12 -> 1 <= d <= 31 ->
  DayFromYear y <= MakeDay y m d < DayFromYear (y + 1).
Proof.
  intros Hm Hd. rewrite MakeDay_month, DayFromYear_succ by assumption.
  pose proof (offset_bounds y m d Hm Hd). lia.
Qed.

Lemma MakeDay_valid y m d :
  representableYear y -> 0 <= m < 12 -> 1 <= d <= 31 ->
  TimeClip (MakeDay y m d * msPerDay) = dayDate (MakeDay y m d).
Proof.
  intros R Hm Hd.
  pose proof (DayFromYear_bounds y R).
  pose proof (MakeDay_in_year y m d Hm Hd).
  unfold TimeClip, dayDate, msPerDay, maxTime.
  destruct (Z.leb_spec (Z.abs (MakeDay y m d * 86400000)) 8640000000000000);
    [reflexivity | lia].
Qed.

Lemma year_of_dayDate y m d :
  0 <= m < 12 -> 1 <= d <= 31 ->
  getUTCFullYear (dayDate (MakeDay y m d)) = Some y.
Proof.
  intros. unfold dayDate, getUTCFullYear, YearFromTime, Day.
  rewrite Z.div_mul by (unfold msPerDay; lia).
  f_equal. apply YearFromDay_spec, MakeDay_in_year; assumption.
Qed.

Lemma MakeFullYear_literal y : literalYear y -> MakeFullYear y = y.
Proof.
  unfold literalYear, MakeFullYear. intros.
  destruct (Z.leb_spec 0 y), (Z.leb_spec y 99); simpl; lia.
Qed.

Lemma civil_valid y m d :
  representableYear y -> 1 <= m <= 12 -> 1 <= d <= 31 ->
  civil y m d = dayDate (MakeDay y (m - 1) d).
Proof. intros. apply MakeDay_valid; (assumption || lia). Qed.

Lemma makeUTCDate_literal y m d :
  literalYear y -> makeUTCDate (Some y) m d = civil y m d.
Proof.
  intros L. unfold makeUTCDate, utcDate, Date_UTC, civil.
  rewrite MakeFullYear_literal by assumption. reflexivity.
Qed.

(** Comparisons of valid dates are comparisons of their time values. *)
Lemma date_lt_valid a b : date_lt (ValidDate a) (ValidDate b) = (a <? b).
Proof.
  unfold date_lt, Num.lt; simpl.
  destruct (Z.ltb_spec a b) as [H | H].
  - apply negb_true_iff, not_true_is_false.
    rewrite Qle_bool_iff, <- Zle_Qle. lia.
  - apply negb_false_iff. rewrite Qle_bool_iff, <- Zle_Qle. lia.
Qed.

Lemma date_gt_valid a b : date_gt (ValidDate a) (ValidDate b) = (b <? a).
Proof. apply date_lt_valid. Qed.

Lemma date_le_valid a b : date_le (ValidDate a) (ValidDate b) = (a <=? b).
Proof.
  unfold date_le, Num.le. simpl getTime. unfold of_Z.
  change (Num.lt (Fin (inject_Z b)) (Fin (inject_Z a)))
    with (date_lt (ValidDate b) (ValidDate a)).
  rewrite date_lt_valid, Z.leb_antisym. reflexivity.
Qed.

Lemma dayDate_lt a b : date_lt (dayDate a) (dayDate b) = (a <? b).
Proof.
  unfold dayDate. rewrite date_lt_valid. unfold msPerDay.
  destruct (Z.ltb_spec a b), (Z.ltb_spec (a * 86400000) (b * 86400000)); lia.
Qed.

Lemma dayDate_gt a b : date_gt (dayDate a) (dayDate b) = (b <? a).
Proof. apply dayDate_lt. Qed.

Lemma dayDate_le a b : date_le (dayDate a) (dayDate b) = (a <=? b).
Proof.
  unfold dayDate. rewrite date_le_valid. unfold msPerDay.
  destruct (Z.leb_spec a b), (Z.leb_spec (a * 86400000) (b * 86400000)); lia.
Qed.

Lemma monthOfDay_monthStart leap m d :
  0 <= m < 12 -> 1 <= d <= 28 ->
  monthOfDay leap (monthStart leap m + d - 1) = m.
Proof.
  intros Hm Hd. pose proof (month_cases m Hm) as C.
  repeat (destruct C as [C | C]); subst m; destruct leap;
    cbv [monthOfDay monthStart];
    repeat match goal with
           | |- context [?a <? ?b] => destruct (Z.ltb_spec a b); try lia
           end.
Qed.

(** The getters invert [MakeDay]: year, month and day of the month of a
    calendar day are the ones it was made from. *)
Lemma getters_of_dayDate y m d :
  0 <= m < 12 -> 1 <= d <= 28 ->
  getUTCFullYear (dayDate (MakeDay y m d)) = Some y
  /\ getUTCMonth (dayDate (MakeDay y m d)) = Some m
  /\ getUTCDate (dayDate (MakeDay y m d)) = Some d.
Proof.
  intros Hm Hd.
  assert (Y : YearFromTime (MakeDay y m d * msPerDay) = y).
  { pose proof (year_of_dayDate y m d Hm ltac:(lia)) as E.
    unfold dayDate, getUTCFullYear in E. congruence. }
  assert (W : DayWithinYear (MakeDay y m d * msPerDay)
              = monthStart (isLeapYear y) m + d - 1).
  { unfold DayWithinYear. rewrite Y. unfold Day.
    rewrite Z.div_mul by (unfold msPerDay; lia).
    rewrite MakeDay_month by assumption. lia. }
  assert (M : MonthFromTime (MakeDay y m d * msPerDay) = m).
  { unfold MonthFromTime. rewrite Y, W.
    apply monthOfDay_monthStart; assumption. }
  unfold dayDate, getUTCFullYear, getUTCMonth, getUTCDate.
  repeat split; f_equal; try assumption.
  unfold DateFromTime. rewrite Y, M, W. lia.
Qed.

End Calendar.

(** Decides comparisons between calendar days of one year or of two
    consecutive years. *)
Ltac calendar :=
  rewrite ?dayDate_lt, ?dayDate_gt, ?dayDate_le;
  rewrite ?MakeDay_month by lia;
  rewrite ?DayFromYear_succ;
  unfold DaysInYear;
  repeat match goal with
         | |- context [isLeapYear ?y] => destruct (isLeapYear y)
         end;
  cbv [monthStart];
  repeat match goal with
         | |- context [?a <? ?b] => destruct (Z.ltb_spec a b); try lia
         | |- context [?a <=? ?b] => destruct (Z.leb_spec a b); try lia
         end;
  try reflexivity.

(* ================================================================= *)
(** ** WindowResolver: windows that cross the year boundary *)

Section WindowResolver.

Variable p : EventProfile.
Hypothesis p_window : window p = Some wrapWindow.

Variable Y : Z.
Hypothesis Y_range : -271820 <= Y <= 275758.
Hypothesis Y_literal : literalYear Y.
Hypothesis Y1_literal : literalYear (Y + 1).

Ltac wrap_resolve y m d :=
  assert (RY : representableYear Y) by (unfold representableYear; lia);
  assert (RY1 : representableYear (Y + 1)) by (unfold representableYear; lia);
  unfold resolveWindow; rewrite p_window;
  cbn [wrapWindow w_start w_end md md_m md_d];
  rewrite (civil_valid y m d), year_of_dayDate by (assumption || lia);
  cbn [option_map];
  replace (Y + 1 - 1) with Y by lia;
  rewrite ?(makeUTCDate_literal Y), ?(makeUTCDate_literal (Y + 1)) by assumption;
  rewrite ?(civil_valid Y), ?(civil_valid (Y + 1)) by (assumption || lia);
  change (12 - 1) with 11; change (1 - 1) with 0; change (6 - 1) with 5;
  calendar.

Lemma resolveWindow_december :
  resolveWindow p (civil Y 12 15) = Some (civil Y 12 1, civil (Y + 1) 1 31).
Proof. wrap_resolve Y 12 15. Qed.

Lemma resolveWindow_january :
  resolveWindow p (civil (Y + 1) 1 15)
  = Some (civil Y 12 1, civil (Y + 1) 1 31).
Proof. wrap_resolve (Y + 1) 1 15. Qed.

Lemma resolveWindow_june :
  resolveWindow p (civil Y 6 1) = Some (civil Y 12 1, civil (Y + 1) 1 31).
Proof. wrap_resolve Y 6 1. Qed.

End WindowResolver.

(** The year wrap.  A window from December 1 to January 31, resolved
    against December 15 of year Y, against January 15 of year Y + 1, or
    against June 1 of year Y, is the window from December 1 of Y to
    January 31 of Y + 1; it holds the first two dates and excludes the
    third.  This is for the years that [Date.UTC] takes literally, Y
    and Y + 1 not in 0..99, and whose days are valid time values. *)
Theorem resolveWindow_year_wrap (p : EventProfile) (Y : Z) :
  window p = Some wrapWindow ->
  -271820 <= Y <= 275758 -> literalYear Y -> literalYear (Y + 1) ->
  let w := (civil Y 12 1, civil (Y + 1) 1 31) in
  (resolveWindow p (civil Y 12 15) = Some w
   /\ insideWindow (civil Y 12 15) w = true
   /\ outsideWindow (civil Y 12 15) w = false)
  /\ (resolveWindow p (civil (Y + 1) 1 15) = Some w
      /\ insideWindow (civil (Y + 1) 1 15) w = true
      /\ outsideWindow (civil (Y + 1) 1 15) w = false)
  /\ (resolveWindow p (civil Y 6 1) = Some w
      /\ insideWindow (civil Y 6 1) w = false
      /\ outsideWindow (civil Y 6 1) w = true).
Proof.
  intros W R L L1 w.
  assert (RY : representableYear Y) by (unfold representableYear; lia).
  assert (RY1 : representableYear (Y + 1)) by (unfold representableYear; lia).
  rewrite resolveWindow_december, resolveWindow_january, resolveWindow_june
    by assumption.
  repeat split; unfold w, insideWindow, outsideWindow; cbn [fst snd];
    rewrite !civil_valid by (assumption || lia);
    change (12 - 1) with 11; change (1 - 1) with 0; change (6 - 1) with 5;
    calendar.
Qed.

Lemma resolveWindow_year_wrap_witness :
  let w := (civil 2024 12 1, civil (2024 + 1) 1 31) in
  (resolveWindow wrapProfile (civil 2024 12 15) = Some w
   /\ insideWindow (civil 2024 12 15) w = true
   /\ outsideWindow (civil 2024 12 15) w = false)
  /\ (resolveWindow wrapProfile (civil (2024 + 1) 1 15) = Some w
      /\ insideWindow (civil (2024 + 1) 1 15) w = true
      /\ outsideWindow (civil (2024 + 1) 1 15) w = false)
  /\ (resolveWindow wrapProfile (civil 2024 6 1) = Some w
      /\ insideWindow (civil 2024 6 1) w = false
      /\ outsideWindow (civil 2024 6 1) w = true).
Proof.
  apply (resolveWindow_year_wrap wrapProfile 2024);
    [reflexivity | lia | right; lia | right; lia].
Defined.


(* ================================================================= *)
(** ** Arrays *)

Section ArrayFacts.
Context {A B : Type}.

Lemma mapi_from_length (f : A -> nat -> B) xs : forall i,
  length (mapi_from f i xs) = length xs.
Proof. induction xs as [|x xs IH]; intros i; simpl; [|rewrite IH]; reflexivity. Qed.

Lemma mapi_length (f : A -> nat -> B) xs : length (mapi f xs) = length xs.
Proof. apply mapi_from_length. Qed.

Lemma mapi_from_nth (f : A -> nat -> B) xs : forall i k,
  nth_error (mapi_from f i xs) k
  = option_map (fun x => f x (i + k)%nat) (nth_error xs k).
Proof.
  induction xs as [|x xs IH]; intros i k.
  - destruct k; reflexivity.
  - destruct k; simpl.
    + rewrite Nat.add_0_r. reflexivity.
    + rewrite IH. replace (S i + k)%nat with (i + S k)%nat by lia. reflexivity.
Qed.

Lemma mapi_nth (f : A -> nat -> B) xs k :
  nth_error (mapi f xs) k = option_map (fun x => f x k) (nth_error xs k).
Proof. apply mapi_from_nth. Qed.

End ArrayFacts.

(* ================================================================= *)
(** ** CurveBuilder: dates outside the window *)

Section OutsideWindow.

Variable host : Host.

Lemma multiplierAt_outside p tag ctx d w :
  kind p = dip \/ kind p = ramp \/ kind p = step ->
  resolveWindow p d = Some w ->
  outsideWindow d w = true ->
  multiplierAt host p tag ctx d = Fin 1.
Proof.
  intros K W O. unfold multiplierAt.
  destruct K as [K | [K | K]]; rewrite K, W, O; reflexivity.
Qed.

Lemma buildEventMultiplierIn_nth catalog tag p labels ctx i d :
  getProfile catalog tag = Some p ->
  nth_error (labelDates host labels) i = Some d ->
  nth_error (buildEventMultiplierIn host catalog tag labels ctx) i
  = Some (multiplierAt host p tag ctx d).
Proof.
  intros G D. unfold buildEventMultiplierIn. rewrite G.
  destruct labels as [|l labels].
  - destruct i; discriminate.
  - rewrite nth_error_map, D. reflexivity.
Qed.

End OutsideWindow.



(* ================================================================= *)
(** ** Numbers: congruence and finiteness *)

Section NumFacts.

Local Open Scope Q_scope.

Lemma Qzero_b_true q : Qzero_b q = true <-> q == 0.
Proof. unfold Qzero_b. apply Qeq_bool_iff. Qed.

Lemma Qzero_b_false q : Qzero_b q = false <-> ~ q == 0.
Proof.
  rewrite <- Qzero_b_true. destruct (Qzero_b q); split; congruence.
Qed.

Lemma Qneg_b_true q : Qneg_b q = true <-> q < 0.
Proof.
  unfold Qneg_b. rewrite negb_true_iff.
  destruct (Qle_bool 0 q) eqn:E.
  - apply Qle_bool_iff in E. split; [discriminate | intros; lra].
  - split; [intros _ | reflexivity].
    apply Qnot_le_lt. intros H. apply Qle_bool_iff in H. congruence.
Qed.

Lemma Qzero_b_comp p q : p == q -> Qzero_b p = Qzero_b q.
Proof.
  intros E. destruct (Qzero_b q) eqn:Z.
  - apply Qzero_b_true. apply Qzero_b_true in Z. lra.
  - apply Qzero_b_false. apply Qzero_b_false in Z. lra.
Qed.

Lemma Qneg_b_comp p q : p == q -> Qneg_b p = Qneg_b q.
Proof.
  intros E. destruct (Qneg_b q) eqn:Z.
  - apply Qneg_b_true. apply Qneg_b_true in Z. lra.
  - destruct (Qneg_b p) eqn:Z'; [|reflexivity].
    apply Qneg_b_true in Z'. assert (q < 0) as H by lra.
    apply Qneg_b_true in H. congruence.
Qed.

Lemma eqv_refl x : (x == x)%num.
Proof. destruct x; simpl; auto with qarith. Qed.

Lemma eqv_trans x y z : (x == y)%num -> (y == z)%num -> (x == z)%num.
Proof.
  destruct x, y, z; simpl; try tauto; try congruence.
  intros; etransitivity; eassumption.
Qed.

Lemma mul_eqv x x' y y' :
  (x == x')%num -> (y == y')%num -> (x * y == x' * y')%num.
Proof.
  destruct x, x', y, y'; simpl; try tauto; intros E1 E2; subst.
  - rewrite E1, E2. reflexivity.
  - rewrite (Qzero_b_comp _ _ E1), (Qneg_b_comp _ _ E1).
    destruct (Qzero_b q0); simpl; auto.
  - rewrite (Qzero_b_comp _ _ E2), (Qneg_b_comp _ _ E2).
    destruct (Qzero_b q0); simpl; auto.
  - reflexivity.
Qed.

Lemma div_eqv x x' y y' :
  (x == x')%num -> (y == y')%num -> (x / y == x' / y')%num.
Proof.
  destruct x, x', y, y'; simpl; try tauto; intros E1 E2; subst.
  - rewrite (Qzero_b_comp _ _ E1), (Qzero_b_comp _ _ E2), (Qneg_b_comp _ _ E1).
    repeat match goal with
           | |- context [Qzero_b ?a] => destruct (Qzero_b a)
           end; simpl; auto.
    rewrite E1, E2. reflexivity.
  - reflexivity.
  - rewrite (Qneg_b_comp _ _ E2). reflexivity.
Qed.

Lemma Math_round_eqv x y : (x == y)%num -> (Math_round x == Math_round y)%num.
Proof.
  destruct x, y; cbn [Math_round eqv]; try tauto.
  intros E. rewrite E. reflexivity.
Qed.

Lemma round_eqv x y : (x == y)%num -> (round x == round y)%num.
Proof.
  intros E. unfold round.
  apply div_eqv; [|apply eqv_refl].
  apply Math_round_eqv, mul_eqv; [assumption | apply eqv_refl].
Qed.

Lemma finite_Fin x : finite x -> exists q, x = Fin q.
Proof. destruct x; simpl; try tauto. eauto. Qed.

Lemma finite_add x y : finite x -> finite y -> finite (x + y)%num.
Proof. destruct x, y; simpl; tauto. Qed.

Lemma finite_mul x y : finite x -> finite y -> finite (x * y)%num.
Proof. destruct x, y; simpl; tauto. Qed.

Lemma finite_div x q : finite x -> ~ q == 0 -> finite (x / Fin q)%num.
Proof.
  intros F N. destruct x; simpl in *; try tauto.
  apply Qzero_b_false in N. rewrite N. exact I.
Qed.

Lemma finite_round x : finite x -> finite (round x).
Proof.
  intros F. unfold round. apply finite_div; [|discriminate].
  destruct x; simpl in *; tauto.
Qed.

Lemma lt_Fin p q : Num.lt (Fin p) (Fin q) = true <-> p < q.
Proof.
  simpl. rewrite negb_true_iff. split.
  - intros H. apply Qnot_le_lt. intros L. apply Qle_bool_iff in L. congruence.
  - intros H. apply not_true_is_false. rewrite Qle_bool_iff. lra.
Qed.

Lemma Math_max_Fin p q :
  exists r, Math_max (Fin p) (Fin q) = Fin r
            /\ p <= r /\ q <= r /\ (r = p \/ r = q).
Proof.
  unfold Math_max. destruct (Num.lt (Fin p) (Fin q)) eqn:L.
  - apply lt_Fin in L. exists q. repeat split; auto; lra.
  - exists p. repeat split; auto; try lra.
    apply Qnot_lt_le. intros H. apply lt_Fin in H. congruence.
Qed.

Lemma Math_min_Fin p q :
  exists r, Math_min (Fin p) (Fin q) = Fin r
            /\ r <= p /\ r <= q /\ (r = p \/ r = q).
Proof.
  unfold Math_min. destruct (Num.lt (Fin q) (Fin p)) eqn:L.
  - apply lt_Fin in L. exists q. repeat split; auto; lra.
  - exists p. repeat split; auto; try lra.
    apply Qnot_lt_le. intros H. apply lt_Fin in H. congruence.
Qed.

(** [Math.min(1, Math.max(0, x))] lies in the unit interval. *)
Lemma clamp_unit x :
  exists r, Math_min (Fin 1) (Math_max (Fin 0) (Fin x)) = Fin r /\ 0 <= r <= 1.
Proof.
  destruct (Math_max_Fin 0 x) as (a & -> & A0 & _ & _).
  destruct (Math_min_Fin 1 a) as (r & -> & R1 & _ & [-> | ->]).
  - exists 1. split; [reflexivity | lra].
  - exists a. split; [reflexivity | lra].
Qed.

End NumFacts.

(* ================================================================= *)
(** ** Binary64: rounding to nearest *)

(** Closed comparisons of rationals, by evaluation. *)
Ltac closedQ :=
  match goal with
  | |- (_ <= _ <= _)%Q => split; closedQ
  | |- (_ <= _)%Q => apply Qle_bool_iff; vm_compute; reflexivity
  | |- (_ < _)%Q => apply Qlt_alt; vm_compute; reflexivity
  | |- (_ == _)%Q => apply Qeq_bool_iff; vm_compute; reflexivity
  end.

(** Powers of two. *)
Section Powers.
Local Open Scope Q_scope.

Lemma pow2_pos (e : Z) : 0 < 2 ^ e.
Proof. apply Qpower_0_lt. reflexivity. Qed.

Lemma pow2_le (a b : Z) : (a <= b)%Z -> 2 ^ a <= 2 ^ b.
Proof. intros H. apply Qpower_le_compat_l; [exact H | discriminate]. Qed.

Lemma pow2_lt (a b : Z) : (a < b)%Z -> 2 ^ a < 2 ^ b.
Proof. intros H. apply Qpower_lt_compat_l; [exact H | reflexivity]. Qed.

Lemma pow2_add (a b : Z) : 2 ^ (a + b) == 2 ^ a * 2 ^ b.
Proof. apply Qpower_plus. discriminate. Qed.

Lemma pow2_succ (a : Z) : 2 ^ (a + 1) == 2 * 2 ^ a.
Proof. rewrite pow2_add. change (2 ^ 1) with 2. ring. Qed.

Lemma pow2_Z (n : Z) : (0 <= n)%Z -> inject_Z (2 ^ n) == 2 ^ n.
Proof. intros H. rewrite Zpower_Qpower by exact H. reflexivity. Qed.

Lemma pow2_lt_inv (a b : Z) : 2 ^ a < 2 ^ b -> (a < b)%Z.
Proof. intros H. apply (Qpower_lt_compat_l_inv 2); [exact H | reflexivity]. Qed.

End Powers.

(** The integer logarithm picks the binade. *)
Section Log.
Local Open Scope Q_scope.

Lemma Qabs_num_den (q : Q) :
  Qabs q * inject_Z (Zpos (Qden q)) == inject_Z (Z.abs (Qnum q)).
Proof.
  destruct q as [n d]. unfold Qabs, Qeq, Qmult, inject_Z. cbn. lia.
Qed.

Lemma ilog2_spec (q : Q) :
  0 < Qabs q -> 2 ^ ilog2 q <= Qabs q /\ Qabs q < 2 ^ (ilog2 q + 1).
Proof.
  intros P. unfold ilog2.
  set (a := Z.abs (Qnum q)). set (d := Zpos (Qden q)).
  set (k := (Z.log2 a - Z.log2 d)%Z).
  assert (E := Qabs_num_den q). fold a d in E.
  assert (Pa : (0 < a)%Z).
  { destruct q as [n dd]. unfold Qabs, Qlt in P. cbn in *. unfold a. cbn. lia. }
  assert (Pd : (0 < d)%Z) by (unfold d; lia).
  destruct (Z.log2_spec a Pa) as [La Ua].
  destruct (Z.log2_spec d Pd) as [Ld Ud].
  assert (N1 := Z.log2_nonneg a). assert (N2 := Z.log2_nonneg d).
  assert (QLa : 2 ^ Z.log2 a <= inject_Z a).
  { rewrite <- pow2_Z by exact N1. rewrite <- Zle_Qle. exact La. }
  assert (QUa : inject_Z a < 2 ^ (Z.log2 a + 1)).
  { rewrite <- pow2_Z by lia. rewrite <- Zlt_Qlt. exact Ua. }
  assert (QLd : 2 ^ Z.log2 d <= inject_Z d).
  { rewrite <- pow2_Z by exact N2. rewrite <- Zle_Qle. exact Ld. }
  assert (QUd : inject_Z d < 2 ^ (Z.log2 d + 1)).
  { rewrite <- pow2_Z by lia. rewrite <- Zlt_Qlt. exact Ud. }
  assert (Dpos : 0 < inject_Z d) by (rewrite Zlt_Qlt in Pd; exact Pd).
  assert (S1 : 2 ^ (Z.log2 a + 1) == 2 ^ (k + 1) * 2 ^ Z.log2 d).
  { rewrite <- pow2_add. unfold k.
    replace (Z.log2 a - Z.log2 d + 1 + Z.log2 d)%Z with (Z.log2 a + 1)%Z by lia.
    reflexivity. }
  assert (S2 : 2 ^ Z.log2 a == 2 ^ (k - 1) * 2 ^ (Z.log2 d + 1)).
  { rewrite <- pow2_add. unfold k.
    replace (Z.log2 a - Z.log2 d - 1 + (Z.log2 d + 1))%Z with (Z.log2 a) by lia.
    reflexivity. }
  assert (Up : Qabs q < 2 ^ (k + 1)).
  { assert (X := pow2_pos (k + 1)).
    apply Qnot_le_lt. intros C.
    assert (2 ^ (k + 1) * inject_Z d <= Qabs q * inject_Z d)
      by (apply Qmult_le_compat_r; [exact C | apply Qlt_le_weak; exact Dpos]).
    assert (2 ^ (k + 1) * 2 ^ Z.log2 d <= 2 ^ (k + 1) * inject_Z d).
    { rewrite !(Qmult_comm (2 ^ (k + 1))).
      apply Qmult_le_compat_r; [exact QLd | apply Qlt_le_weak; exact X]. }
    lra. }
  assert (Lo : 2 ^ (k - 1) <= Qabs q).
  { assert (X := pow2_pos (k - 1)).
    apply Qnot_lt_le. intros C.
    assert (Qabs q * inject_Z d <= 2 ^ (k - 1) * inject_Z d)
      by (apply Qmult_le_compat_r; [apply Qlt_le_weak; exact C | apply Qlt_le_weak; exact Dpos]).
    assert (2 ^ (k - 1) * inject_Z d <= 2 ^ (k - 1) * 2 ^ (Z.log2 d + 1)).
    { rewrite !(Qmult_comm (2 ^ (k - 1))).
      apply Qmult_le_compat_r; [apply Qlt_le_weak; exact QUd | apply Qlt_le_weak; exact X]. }
    assert (Qabs q * inject_Z d < 2 ^ (k - 1) * inject_Z d).
    { apply Qmult_lt_compat_r; assumption. }
    lra. }
  destruct (Qle_bool (2 ^ k) (Qabs q)) eqn:B.
  - apply Qle_bool_iff in B. split; assumption.
  - split; [exact Lo |].
    replace (k - 1 + 1)%Z with k by lia.
    apply Qnot_le_lt. intros C. apply Qle_bool_iff in C. congruence.
Qed.

Lemma ilog2_unique (q : Q) (a : Z) :
  2 ^ a <= Qabs q -> Qabs q < 2 ^ (a + 1) -> ilog2 q = a.
Proof.
  intros L U.
  assert (P : 0 < Qabs q) by (assert (X := pow2_pos a); lra).
  destruct (ilog2_spec q P) as [L' U'].
  assert ((a < ilog2 q + 1)%Z) by (apply pow2_lt_inv; lra).
  assert ((ilog2 q < a + 1)%Z) by (apply pow2_lt_inv; lra).
  lia.
Qed.

Lemma ilog2_comp (p q : Q) : 0 < Qabs p -> p == q -> ilog2 p = ilog2 q.
Proof.
  intros P E. destruct (ilog2_spec p P) as [L U].
  symmetry. apply ilog2_unique; rewrite <- E; assumption.
Qed.

Lemma ilog2_mono (p q : Q) : 0 < Qabs p -> Qabs p <= Qabs q -> (ilog2 p <= ilog2 q)%Z.
Proof.
  intros P H.
  destruct (ilog2_spec p P) as [L U].
  destruct (ilog2_spec q) as [L' U']; [lra |].
  assert ((ilog2 p < ilog2 q + 1)%Z) by (apply pow2_lt_inv; lra).
  lia.
Qed.

End Log.

(** Rounding to the nearest integer, ties to even. *)
Section Nearest.
Local Open Scope Q_scope.

Lemma floor_bounds (x : Q) :
  inject_Z (Qfloor x) <= x /\ x < inject_Z (Qfloor x) + 1.
Proof.
  split; [apply Qfloor_le |].
  assert (H := Qlt_floor x). rewrite inject_Z_plus in H. exact H.
Qed.

Lemma rne_cases (x : Q) :
  let f := Qfloor x in
  (rne x = f /\ x - inject_Z f <= 1 # 2)
  \/ (rne x = (f + 1)%Z /\ (1 # 2) <= x - inject_Z f).
Proof.
  intros f. unfold rne. fold f.
  destruct (Qcompare_spec (x - inject_Z f) (1 # 2)) as [E|E|E].
  - destruct (Z.even f); [left | right]; split; try reflexivity; lra.
  - left. split; [reflexivity | lra].
  - right. split; [reflexivity | lra].
Qed.

Lemma rne_near (x : Q) :
  inject_Z (rne x) - (1 # 2) <= x /\ x <= inject_Z (rne x) + (1 # 2).
Proof.
  destruct (floor_bounds x) as [L U].
  destruct (rne_cases x) as [[-> H]|[-> H]].
  - lra.
  - rewrite inject_Z_plus. change (inject_Z 1) with 1. lra.
Qed.

Lemma rne_comp (x y : Q) : x == y -> rne x = rne y.
Proof.
  intros E. unfold rne. rewrite (Qfloor_comp _ _ E).
  rewrite (Qcompare_comp (x - inject_Z (Qfloor y)) (y - inject_Z (Qfloor y))
             ltac:(rewrite E; reflexivity) (1 # 2) (1 # 2) ltac:(reflexivity)).
  reflexivity.
Qed.

Lemma rne_Z (n : Z) : rne (inject_Z n) = n.
Proof.
  unfold rne. rewrite Qfloor_Z.
  destruct (Qcompare_spec (inject_Z n - inject_Z n) (1 # 2)) as [E|E|E];
    try reflexivity; exfalso; lra.
Qed.

Lemma rne_mono (x y : Q) : x <= y -> (rne x <= rne y)%Z.
Proof.
  intros H.
  assert (F := Qfloor_resp_le _ _ H).
  destruct (floor_bounds x) as [Lx Ux]. destruct (floor_bounds y) as [Ly Uy].
  destruct (Z.eq_dec (Qfloor x) (Qfloor y)) as [E|N].
  - unfold rne. rewrite <- E.
    destruct (Qcompare_spec (x - inject_Z (Qfloor x)) (1 # 2)) as [A|A|A];
      destruct (Qcompare_spec (y - inject_Z (Qfloor x)) (1 # 2)) as [B|B|B];
      try (exfalso; lra); destruct (Z.even (Qfloor x)); lia.
  - destruct (rne_cases x) as [[-> _]|[-> _]];
      destruct (rne_cases y) as [[-> _]|[-> _]]; lia.
Qed.

Lemma rne_nonneg (x : Q) : 0 <= x -> (0 <= rne x)%Z.
Proof.
  intros H. change 0%Z with (rne (inject_Z 0)) at 1.
  rewrite rne_Z. rewrite <- (rne_Z 0). apply rne_mono. exact H.
Qed.

End Nearest.

(** Rounding on the grid of a binade: monotone, exact on the values of
    binary64, idempotent, and off by half a last bit at most. *)
Section Grid.
Local Open Scope Q_scope.

Lemma ulpExp_min (x : Q) : (-1074 <= ulpExp x)%Z.
Proof. unfold ulpExp. lia. Qed.

Lemma ulpExp_upper (x : Q) : 0 < x -> x < 2 ^ (ulpExp x + 53).
Proof.
  intros P. assert (A : Qabs x == x) by (apply Qabs_pos; lra).
  destruct (ilog2_spec x) as [L U]; [lra |].
  assert (2 ^ (ilog2 x + 1) <= 2 ^ (ulpExp x + 53))
    by (apply pow2_le; unfold ulpExp; lia).
  lra.
Qed.

Lemma ulpExp_lower (x : Q) :
  0 < x -> (-1074 < ulpExp x)%Z -> 2 ^ (ulpExp x + 52) <= x.
Proof.
  intros P H. assert (A : Qabs x == x) by (apply Qabs_pos; lra).
  destruct (ilog2_spec x) as [L U]; [lra |].
  assert (E : (ulpExp x + 52 = ilog2 x)%Z) by (unfold ulpExp in *; lia).
  rewrite E. lra.
Qed.

Lemma ulpExp_mono (p q : Q) : 0 < p -> p <= q -> (ulpExp p <= ulpExp q)%Z.
Proof.
  intros P H.
  assert (A : Qabs p == p) by (apply Qabs_pos; lra).
  assert (B : Qabs q == q) by (apply Qabs_pos; lra).
  assert ((ilog2 p <= ilog2 q)%Z) by (apply ilog2_mono; lra).
  unfold ulpExp. lia.
Qed.

Lemma ulpExp_comp (p q : Q) : 0 < p -> p == q -> ulpExp p = ulpExp q.
Proof.
  intros P E. unfold ulpExp. rewrite (ilog2_comp p q); [reflexivity | | exact E].
  rewrite Qabs_pos; lra.
Qed.

Lemma onGrid_mono (e : Z) (x y : Q) : x <= y -> onGrid e x <= onGrid e y.
Proof.
  intros H. unfold onGrid. assert (P := pow2_pos e).
  apply Qmult_le_compat_r; [| lra].
  rewrite <- Zle_Qle. apply rne_mono.
  unfold Qdiv. apply Qmult_le_compat_r; [exact H |].
  apply Qlt_le_weak, Qinv_lt_0_compat, P.
Qed.

Lemma onGrid_point (e : Z) (m : Z) : onGrid e (inject_Z m * 2 ^ e) == inject_Z m * 2 ^ e.
Proof.
  unfold onGrid. assert (P := pow2_pos e).
  rewrite (rne_comp _ (inject_Z m)); [rewrite rne_Z; reflexivity |].
  field. lra.
Qed.

Lemma rndAbs_grid (x : Q) : rndAbs x = onGrid (ulpExp x) x.
Proof. reflexivity. Qed.

Lemma rndAbs_zero (x : Q) : x == 0 -> rndAbs x == 0.
Proof.
  intros E. rewrite rndAbs_grid. unfold onGrid.
  generalize (ulpExp x). intros e.
  rewrite (rne_comp _ (inject_Z 0)); [rewrite rne_Z; ring |].
  rewrite E. unfold Qdiv. ring.
Qed.

Lemma rndAbs_nonneg (x : Q) : 0 <= x -> 0 <= rndAbs x.
Proof.
  intros H. rewrite rndAbs_grid. unfold onGrid.
  assert (P := pow2_pos (ulpExp x)).
  apply Qmult_le_0_compat; [| lra].
  change 0 with (inject_Z 0). rewrite <- Zle_Qle. apply rne_nonneg.
  apply Qle_shift_div_l; [exact P | lra].
Qed.

Lemma rndAbs_comp (p q : Q) : p == q -> rndAbs p == rndAbs q.
Proof.
  intros E. destruct (Qlt_le_dec 0 p) as [P|N].
  - rewrite !rndAbs_grid. rewrite (ulpExp_comp p q P E).
    unfold onGrid. generalize (ulpExp q). intros e.
    rewrite (rne_comp (p / _) (q / 2 ^ e)); [reflexivity |].
    rewrite E. reflexivity.
  - destruct (Qlt_le_dec p 0) as [P|Z].
    + (* negative arguments: the grid is that of the absolute value *)
      rewrite !rndAbs_grid.
      assert (U : ulpExp p = ulpExp q).
      { unfold ulpExp. rewrite (ilog2_comp p q); [reflexivity | | exact E].
        rewrite Qabs_neg; lra. }
      rewrite U. unfold onGrid. generalize (ulpExp q). intros e.
      rewrite (rne_comp (p / _) (q / 2 ^ e)); [reflexivity |].
      rewrite E. reflexivity.
    + assert (p == 0) by lra. rewrite (rndAbs_zero p), (rndAbs_zero q); lra.
Qed.

(** Below the top of its binade a value rounds to at most that top. *)
Lemma rndAbs_upper (x : Q) : 0 < x -> rndAbs x <= 2 ^ (ulpExp x + 53).
Proof.
  intros P. rewrite rndAbs_grid. set (e := ulpExp x).
  assert (U := ulpExp_upper x P). fold e in U.
  assert (E : 2 ^ (e + 53) == inject_Z (2 ^ 53) * 2 ^ e).
  { rewrite pow2_Z by lia. rewrite Z.add_comm. apply pow2_add. }
  rewrite E. rewrite <- onGrid_point. apply onGrid_mono. lra.
Qed.

Lemma rndAbs_lower (x : Q) :
  0 < x -> (-1074 < ulpExp x)%Z -> 2 ^ (ulpExp x + 52) <= rndAbs x.
Proof.
  intros P H. rewrite rndAbs_grid. set (e := ulpExp x).
  assert (L := ulpExp_lower x P H). fold e in L.
  assert (E : 2 ^ (e + 52) == inject_Z (2 ^ 52) * 2 ^ e).
  { rewrite pow2_Z by lia. rewrite Z.add_comm. apply pow2_add. }
  rewrite E. rewrite <- onGrid_point. apply onGrid_mono. lra.
Qed.

Lemma rndAbs_mono (p q : Q) : 0 <= p -> p <= q -> rndAbs p <= rndAbs q.
Proof.
  intros P H. destruct (Qlt_le_dec 0 p) as [P'|Z].
  - assert (M := ulpExp_mono p q P' H).
    destruct (Z.eq_dec (ulpExp p) (ulpExp q)) as [E|N].
    + rewrite !rndAbs_grid, E. apply onGrid_mono, H.
    + assert (U := rndAbs_upper p P').
      assert (L := rndAbs_lower q ltac:(lra) ltac:(assert (X := ulpExp_min p); lia)).
      assert (2 ^ (ulpExp p + 53) <= 2 ^ (ulpExp q + 52)) by (apply pow2_le; lia).
      lra.
  - rewrite (rndAbs_zero p) by lra. apply rndAbs_nonneg. lra.
Qed.

(** Values with at most 53 significant bits, above the least exponent,
    are kept. *)
Lemma rndAbs_exact (m e : Z) :
  (0 <= m <= 2 ^ 53)%Z -> (-1074 <= e)%Z ->
  rndAbs (inject_Z m * 2 ^ e) == inject_Z m * 2 ^ e.
Proof.
  intros Hm He. set (x := inject_Z m * 2 ^ e).
  assert (Pe := pow2_pos e).
  destruct (Z.eq_dec m 0) as [->|N].
  { assert (Z0 : x == 0) by (unfold x; change (inject_Z 0) with 0; ring).
    rewrite (rndAbs_zero x Z0). symmetry. exact Z0. }
  assert (Px : 0 < x).
  { unfold x. apply Qmult_lt_0_compat; [| exact Pe].
    change 0 with (inject_Z 0). rewrite <- Zlt_Qlt. lia. }
  rewrite rndAbs_grid. set (u := ulpExp x).
  destruct (Z_le_gt_dec u e) as [Le|Gt].
  - (* the grid of [x] is at least as fine as [2 ^ e] *)
    assert (E : x == inject_Z (m * 2 ^ (e - u)) * 2 ^ u).
    { unfold x. rewrite inject_Z_mult. rewrite (pow2_Z (e - u)) by lia.
      rewrite <- Qmult_assoc, <- pow2_add.
      replace (e - u + u)%Z with e by lia. reflexivity. }
    unfold onGrid. rewrite (rne_comp _ (inject_Z (m * 2 ^ (e - u)))).
    + rewrite rne_Z. symmetry. exact E.
    + rewrite E. field. assert (X := pow2_pos u). lra.
  - (* only the top of the binade lies on a coarser grid *)
    assert (L := ulpExp_lower x Px ltac:(fold u; lia)). fold u in L.
    assert (B : x <= 2 ^ (e + 53)).
    { unfold x. rewrite Z.add_comm, pow2_add. rewrite <- (pow2_Z 53) by lia.
      apply Qmult_le_compat_r; [rewrite <- Zle_Qle; lia | lra]. }
    assert (2 ^ (e + 53) <= 2 ^ (u + 52)) by (apply pow2_le; lia).
    assert (E : x == 2 ^ (u + 52)) by lra.
    assert (E' : x == inject_Z (2 ^ 52) * 2 ^ u).
    { rewrite E, pow2_Z by lia. rewrite Z.add_comm. apply pow2_add. }
    unfold onGrid. rewrite (rne_comp _ (inject_Z (2 ^ 52))).
    + rewrite rne_Z. symmetry. exact E'.
    + rewrite E'. field. assert (X := pow2_pos u). lra.
Qed.

(** What [rndAbs] returns has at most 53 significant bits. *)
Lemma rndAbs_shape (x : Q) :
  0 < x -> exists m e, (0 <= m <= 2 ^ 53)%Z /\ (-1074 <= e)%Z
                       /\ rndAbs x == inject_Z m * 2 ^ e.
Proof.
  intros P. exists (rne (x / 2 ^ ulpExp x)), (ulpExp x).
  assert (Pe := pow2_pos (ulpExp x)).
  split; [| split; [apply ulpExp_min | reflexivity]].
  split.
  - apply rne_nonneg. apply Qle_shift_div_l; [exact Pe | lra].
  - rewrite <- (rne_Z (2 ^ 53)). apply rne_mono.
    apply Qle_shift_div_r; [exact Pe |].
    assert (U := ulpExp_upper x P).
    rewrite pow2_Z by lia. rewrite <- pow2_add, Z.add_comm. lra.
Qed.

Lemma rndAbs_idem (x : Q) : 0 <= x -> rndAbs (rndAbs x) == rndAbs x.
Proof.
  intros H. destruct (Qlt_le_dec 0 x) as [P|Z].
  - destruct (rndAbs_shape x P) as (m & e & Hm & He & E).
    rewrite (rndAbs_comp _ _ E), E. apply rndAbs_exact; assumption.
  - rewrite (rndAbs_comp _ 0); [| apply rndAbs_zero; lra].
    rewrite (rndAbs_zero x) by lra. reflexivity.
Qed.

(** Half an ulp is the most that rounding moves a value. *)
Lemma rndAbs_error (x : Q) :
  0 <= x -> Qabs (rndAbs x - x) <= 2 ^ (ulpExp x - 1).
Proof.
  intros H. rewrite rndAbs_grid. unfold onGrid. set (e := ulpExp x).
  assert (Pe := pow2_pos e).
  destruct (rne_near (x / 2 ^ e)) as [L U].
  set (m := inject_Z (rne (x / 2 ^ e))) in *.
  assert (X : x == (x / 2 ^ e) * 2 ^ e) by (field; lra).
  assert (Hh : 2 ^ (e - 1) == (1 # 2) * 2 ^ e).
  { replace (e - 1)%Z with (-1 + e)%Z by lia. rewrite pow2_add. reflexivity. }
  rewrite Hh. apply Qabs_Qle_condition.
  set (y := x / 2 ^ e) in *.
  split.
  - assert ((m - y - (-(1 # 2))) * 2 ^ e >= 0) by (apply Qmult_le_0_compat; lra).
    lra.
  - assert (((1 # 2) - (m - y)) * 2 ^ e >= 0) by (apply Qmult_le_0_compat; lra).
    lra.
Qed.

End Grid.

(** The signed rounding [rndQ] and the numbers it returns. *)
Section NearestDouble.
Local Open Scope Q_scope.

Lemma rndQ_nonneg (q : Q) : 0 <= q -> rndQ q == rndAbs q.
Proof.
  intros H. unfold rndQ. rewrite Qred_correct.
  apply Qle_bool_iff in H. rewrite H. reflexivity.
Qed.

Lemma rndQ_neg (q : Q) : q < 0 -> rndQ q == - rndAbs (- q).
Proof.
  intros H. unfold rndQ. rewrite Qred_correct.
  destruct (Qle_bool 0 q) eqn:B; [| reflexivity].
  apply Qle_bool_iff in B. lra.
Qed.

Lemma rndQ_comp (p q : Q) : p == q -> rndQ p = rndQ q.
Proof.
  intros E. unfold rndQ. apply Qred_complete.
  rewrite (Qleb_comp 0 0 ltac:(reflexivity) p q E).
  destruct (Qle_bool 0 q).
  - apply rndAbs_comp, E.
  - apply Qopp_comp, rndAbs_comp. rewrite E. reflexivity.
Qed.

#[global] Instance rndQ_Proper : Proper (Qeq ==> Qeq) rndQ.
Proof. intros p q E. rewrite (rndQ_comp p q E). reflexivity. Qed.

Lemma rndQ_zero : rndQ 0 == 0.
Proof. reflexivity. Qed.

Lemma rndQ_opp (q : Q) : rndQ (- q) == - rndQ q.
Proof.
  destruct (Qlt_le_dec 0 q) as [P|N].
  - rewrite (rndQ_neg (- q)) by lra. rewrite (rndQ_nonneg q) by lra.
    rewrite (rndAbs_comp (- - q) q); [reflexivity | ring].
  - destruct (Qlt_le_dec q 0) as [P|Z].
    + rewrite (rndQ_nonneg (- q)) by lra. rewrite (rndQ_neg q) by lra. ring.
    + assert (E : q == 0) by lra.
      rewrite (rndQ_comp (- q) 0), (rndQ_comp q 0); [reflexivity | exact E |].
      rewrite E. reflexivity.
Qed.

Lemma rndQ_sign (q : Q) : 0 <= q -> 0 <= rndQ q.
Proof. intros H. rewrite rndQ_nonneg by exact H. apply rndAbs_nonneg, H. Qed.

Lemma rndQ_mono (p q : Q) : p <= q -> rndQ p <= rndQ q.
Proof.
  intros H. destruct (Qlt_le_dec p 0) as [Np|Pp]; destruct (Qlt_le_dec q 0) as [Nq|Pq].
  - rewrite (rndQ_neg p), (rndQ_neg q) by assumption.
    assert (rndAbs (- q) <= rndAbs (- p)) by (apply rndAbs_mono; lra). lra.
  - rewrite (rndQ_neg p) by assumption.
    assert (0 <= rndAbs (- p)) by (apply rndAbs_nonneg; lra).
    assert (0 <= rndQ q) by (apply rndQ_sign; exact Pq). lra.
  - lra.
  - rewrite (rndQ_nonneg p), (rndQ_nonneg q) by assumption.
    apply rndAbs_mono; assumption.
Qed.

Lemma rndQ_exact (m e : Z) :
  (Z.abs m <= 2 ^ 53)%Z -> (-1074 <= e)%Z ->
  rndQ (inject_Z m * 2 ^ e) == inject_Z m * 2 ^ e.
Proof.
  intros Hm He. assert (Pe := pow2_pos e).
  destruct (Z_le_gt_dec 0 m) as [P|N].
  - rewrite rndQ_nonneg.
    + apply rndAbs_exact; [lia | exact He].
    + apply Qmult_le_0_compat; [| lra].
      change 0 with (inject_Z 0). rewrite <- Zle_Qle. exact P.
  - assert (E : inject_Z m * 2 ^ e == - (inject_Z (- m) * 2 ^ e))
      by (rewrite inject_Z_opp; ring).
    rewrite E, rndQ_opp. apply Qopp_comp.
    rewrite rndQ_nonneg.
    + apply rndAbs_exact; [lia | exact He].
    + apply Qmult_le_0_compat; [| lra].
      change 0 with (inject_Z 0). rewrite <- Zle_Qle. lia.
Qed.

Lemma rndQ_Z (n : Z) : (Z.abs n <= 2 ^ 53)%Z -> rndQ (inject_Z n) == inject_Z n.
Proof.
  intros H. assert (E : inject_Z n == inject_Z n * 2 ^ 0) by (change (2 ^ 0) with 1; ring).
  rewrite E at 1. rewrite rndQ_exact by (try exact H; lia). symmetry. exact E.
Qed.

Lemma rndQ_idem (q : Q) : rndQ (rndQ q) == rndQ q.
Proof.
  destruct (Qlt_le_dec q 0) as [N|P].
  - rewrite (rndQ_neg q N), rndQ_opp. apply Qopp_comp.
    rewrite rndQ_nonneg by (apply rndAbs_nonneg; lra).
    apply rndAbs_idem. lra.
  - rewrite (rndQ_nonneg q P).
    rewrite rndQ_nonneg by (apply rndAbs_nonneg; exact P).
    apply rndAbs_idem, P.
Qed.

(** Rounding stays within bounds that are themselves on the grid. *)
Lemma rndQ_between (lo hi q : Q) :
  rndQ lo == lo -> rndQ hi == hi -> lo <= q <= hi -> lo <= rndQ q <= hi.
Proof.
  intros L H [A B]. rewrite <- L, <- H. split; apply rndQ_mono; assumption.
Qed.

Lemma rndQ_abs_le (b q : Q) : rndQ b == b -> Qabs q <= b -> Qabs (rndQ q) <= b.
Proof.
  intros B H. apply Qabs_Qle_condition in H. apply Qabs_Qle_condition.
  apply rndQ_between; [| exact B | exact H].
  rewrite rndQ_opp, B. reflexivity.
Qed.

Lemma rnd_value (q : Q) : Qabs (rndQ q) < huge -> rnd q = Fin (rndQ q).
Proof.
  intros H. unfold rnd. destruct (Qle_bool huge (Qabs (rndQ q))) eqn:B; [| reflexivity].
  apply Qle_bool_iff in B. lra.
Qed.

Lemma rnd_comp (p q : Q) : p == q -> rnd p = rnd q.
Proof. intros E. unfold rnd. rewrite (rndQ_comp p q E). reflexivity. Qed.

Lemma rnd_bounded (b q : Q) :
  rndQ b == b -> b < huge -> Qabs q <= b ->
  rnd q = Fin (rndQ q) /\ Qabs (rndQ q) <= b.
Proof.
  intros B H A. assert (X := rndQ_abs_le b q B A).
  split; [apply rnd_value; lra | exact X].
Qed.

Lemma rnd_double (q : Q) : isDouble q -> (rnd q == Fin q)%num.
Proof.
  intros [E H]. rewrite rnd_value; [exact E | rewrite E; exact H].
Qed.

Lemma rnd_is_double (q : Q) : doubleValue (rnd q).
Proof.
  unfold rnd. destruct (Qle_bool huge (Qabs (rndQ q))) eqn:B; [exact I |].
  split; [apply rndQ_idem |].
  apply Qnot_le_lt. intros C. apply Qle_bool_iff in C. congruence.
Qed.

Lemma isDouble_Z (n : Z) : (Z.abs n <= 2 ^ 53)%Z -> isDouble (inject_Z n).
Proof.
  intros H. split; [apply rndQ_Z, H |].
  apply Qabs_Qlt_condition.
  assert (inject_Z (2 ^ 53) < huge) by reflexivity.
  assert (- inject_Z (2 ^ 53) <= inject_Z n)
    by (rewrite <- inject_Z_opp, <- Zle_Qle; lia).
  assert (inject_Z n <= inject_Z (2 ^ 53)) by (rewrite <- Zle_Qle; lia).
  lra.
Qed.

(** The relative error of rounding, with the absolute term of the
    subnormal range. *)
Lemma rndQ_error (q : Q) :
  Qabs (rndQ q - q) <= Qabs q * 2 ^ (-53) + 2 ^ (-1075).
Proof.
  assert (G : forall x, 0 <= x -> Qabs (rndAbs x - x) <= x * 2 ^ (-53) + 2 ^ (-1075)).
  { intros x P. assert (E := rndAbs_error x P).
    assert (A := pow2_pos (-1075)). assert (B := pow2_pos (-53)).
    destruct (Z.eq_dec (ulpExp x) (-1074)) as [S|S].
    - rewrite S in E. change (-1074 - 1)%Z with (-1075)%Z in E.
      assert (0 <= x * 2 ^ (-53)) by (apply Qmult_le_0_compat; lra). lra.
    - destruct (Qlt_le_dec 0 x) as [P'|Z].
      + assert (L := ulpExp_lower x P' ltac:(assert (X := ulpExp_min x); lia)).
        assert (H : 2 ^ (ulpExp x - 1) == 2 ^ (ulpExp x + 52) * 2 ^ (-53)).
        { rewrite <- pow2_add. replace (ulpExp x + 52 + -53)%Z with (ulpExp x - 1)%Z by lia.
          reflexivity. }
        assert (2 ^ (ulpExp x + 52) * 2 ^ (-53) <= x * 2 ^ (-53))
          by (apply Qmult_le_compat_r; lra).
        lra.
      + assert (Z0 : x == 0) by lra.
        rewrite (rndAbs_zero x Z0), Z0.
        setoid_replace (0 - 0) with 0 by ring. cbn [Qabs Z.abs Qnum Qden]. lra. }
  destruct (Qlt_le_dec q 0) as [N|P].
  - rewrite (rndQ_neg q N). rewrite (Qabs_neg q) by lra.
    specialize (G (- q) ltac:(lra)).
    setoid_replace (- rndAbs (- q) - q) with (- (rndAbs (- q) - - q)) by ring.
    rewrite Qabs_opp. exact G.
  - rewrite (rndQ_nonneg q P). rewrite (Qabs_pos q) by exact P. apply G, P.
Qed.

End NearestDouble.

(** The operations on finite numbers. *)
Section Ops.
Local Open Scope Q_scope.

Lemma add_Fin (a b : Q) : (Fin a [+] Fin b)%f64 = rnd (a + b).
Proof. reflexivity. Qed.

Lemma sub_Fin (a b : Q) : (Fin a [-] Fin b)%f64 = rnd (a + - b).
Proof. reflexivity. Qed.

Lemma mul_Fin (a b : Q) : (Fin a [*] Fin b)%f64 = rnd (a * b).
Proof. reflexivity. Qed.

Lemma div_Fin (a b : Q) : ~ b == 0 -> (Fin a [/] Fin b)%f64 = rnd (a / b).
Proof.
  intros H. unfold F64.div, Num.div.
  destruct (Qzero_b b) eqn:Z; [| reflexivity].
  apply Qeq_bool_iff in Z. contradiction.
Qed.

Lemma pow2_double (e : Z) : (-1074 <= e)%Z -> rndQ (2 ^ e) == 2 ^ e.
Proof.
  intros H. assert (E : 2 ^ e == inject_Z 1 * 2 ^ e) by (change (inject_Z 1) with 1; ring).
  rewrite E at 1. rewrite rndQ_exact by (cbn; lia). symmetry. exact E.
Qed.

Lemma pow2_below_huge (e : Z) : (e < 1024)%Z -> 2 ^ e < huge.
Proof. intros H. apply pow2_lt, H. Qed.

(** Rounding a value of magnitude at most [2 ^ e]. *)
Lemma rnd_pow2 (e : Z) (q : Q) :
  (-1074 <= e < 1024)%Z -> Qabs q <= 2 ^ e ->
  rnd q = Fin (rndQ q) /\ Qabs (rndQ q) <= 2 ^ e.
Proof.
  intros H A. apply rnd_bounded; [apply pow2_double; lia | apply pow2_below_huge; lia | exact A].
Qed.

End Ops.

(* ================================================================= *)
(** ** DateNormalizer: lengths and the daily labels *)

Section Labels.

Lemma traverse_length {A B} (f : A -> option B) xs : forall ys,
  traverse f xs = Some ys -> length ys = length xs.
Proof.
  induction xs as [|x xs IH]; simpl; intros ys H.
  - injection H as <-. reflexivity.
  - destruct (f x); [|discriminate].
    destruct (traverse f xs) as [zs|]; [|discriminate].
    injection H as <-. simpl. f_equal. apply IH. reflexivity.
Qed.

Lemma traverse_nth {A B} (f : A -> option B) xs : forall ys i x,
  traverse f xs = Some ys -> nth_error xs i = Some x ->
  exists y, f x = Some y /\ nth_error ys i = Some y.
Proof.
  induction xs as [|x0 xs IH]; intros ys i x H N.
  - destruct i; discriminate.
  - simpl in H. destruct (f x0) as [y0|] eqn:F; [|discriminate].
    destruct (traverse f xs) as [zs|] eqn:T; [|discriminate].
    injection H as <-. destruct i as [|i]; simpl in *.
    + injection N as <-. eauto.
    + eapply IH; eauto.
Qed.

Variable host : Host.

Lemma buildDailyLabels_length count labels :
  buildDailyLabels host count = Some labels -> length labels = count.
Proof.
  intros H. apply traverse_length in H. rewrite H. apply length_seq.
Qed.

(** Label [i] is the ISO day of the clock plus [i + 1] days. *)
Lemma buildDailyLabels_nth count labels i :
  buildDailyLabels host count = Some labels -> (i < count)%nat ->
  nth_error labels i
  = Some (LString (isoPrefix (clock host + (Z.of_nat i + 1) * 86400000))).
Proof.
  intros H I. unfold buildDailyLabels in H.
  destruct (traverse_nth _ _ _ i i H) as (y & F & ->).
  { rewrite nth_error_seq. apply Nat.ltb_lt in I. rewrite I. reflexivity. }
  f_equal. unfold today, addMs, TimeClip in F.
  destruct (Z.abs _ <=? maxTime); simpl in F; [|discriminate].
  injection F as <-. reflexivity.
Qed.

Lemma resolvePointDates_length points dates :
  resolvePointDates host points = Some dates -> length dates = length points.
Proof.
  unfold resolvePointDates. destruct points as [|pt points].
  - intros H. injection H as <-. reflexivity.
  - destruct (_ || _).
    + apply buildDailyLabels_length.
    + intros H. injection H as <-. apply (length_map date (pt :: points)).
Qed.

Lemma labelDates_length labels :
  length (labelDates host labels) = length labels.
Proof. apply mapi_length. Qed.

End Labels.

(* ================================================================= *)
(** ** WhatIfComposer: tags outside the catalog, direct policy *)

Section UnknownTag.

Variable host : Host.

Lemma getProfile_own catalog tag p :
  ownProperty catalog tag = Some p -> getProfile catalog tag = Some p.
Proof. intros O. unfold getProfile. rewrite O. reflexivity. Qed.

Lemma getProfile_not_own catalog tag :
  ownProperty catalog tag = None ->
  getProfile catalog tag = None
  \/ getProfile catalog tag = Some inheritedMember.
Proof.
  intros O. unfold getProfile. rewrite O.
  destruct (existsb _ _); auto.
Qed.

Lemma multiplierAt_inherited tag ctx d :
  multiplierAt host inheritedMember tag ctx d = Fin 1.
Proof. reflexivity. Qed.

Lemma nth_map_const {A B} (f : A -> B) (c : B) (xs : list A) i :
  (forall x, f x = c) -> nth i (map f xs) c = c.
Proof.
  intros F. revert i. induction xs as [|x xs IH]; intros [|i]; simpl; auto.
Qed.

(** Whatever the curve of a tag outside the catalog is, composition
    reads 1 at every position. *)
Lemma unknown_tag_multiplier catalog tag labels ctx i :
  ownProperty catalog tag = None ->
  at_or (buildEventMultiplierIn host catalog tag labels ctx) i (Fin 1) = Fin 1.
Proof.
  intros O. unfold buildEventMultiplierIn, at_or.
  destruct (getProfile_not_own catalog tag O) as [G | G]; rewrite G.
  - destruct i; reflexivity.
  - destruct labels as [|l labels]; [destruct i; reflexivity|].
    apply nth_map_const. intros d. apply multiplierAt_inherited.
Qed.

End UnknownTag.

(** C5 (as amended).  Event tags that are no key of the catalog.  When
    the lookup finds nothing at all, the curve builder returns the empty
    sequence; in every case composition reads the multiplier 1 at every
    position, and demo mode (direct policy) with a percent shift of +10
    returns, for each baseline point, the forecast
    [round (baseline * 1.10)] to one decimal. *)
Theorem unknown_tag_direct_policy
    (host : Host) (tag : string) (points : list ForecastPoint)
    (selectedDealer : option Dealer) (baseDates : list Label) :
  ownProperty EVENT_PROFILES tag = None ->
  resolvePointDates host points = Some baseDates ->
  (getProfile EVENT_PROFILES tag = None ->
   forall labels ctx, buildEventMultiplier host tag labels ctx = [])
  /\ (forall labels ctx i,
        at_or (buildEventMultiplier host tag labels ctx) i (Fin 1) = Fin 1)
  /\ exists out,
       runWhatIf host EVENT_PROFILES true points (Fin 10) tag selectedDealer
       = Some out
       /\ length out = length points
       /\ forall i pt, nth_error points i = Some pt ->
            exists o, nth_error out i = Some o
                      /\ (forecast o == round (forecast pt * Fin 1.10))%num.
Proof.
  intros O R. split; [|split].
  - intros G labels ctx. unfold buildEventMultiplier, buildEventMultiplierIn.
    rewrite G. reflexivity.
  - intros labels ctx i. apply unknown_tag_multiplier, O.
  - unfold runWhatIf, whatIfDirect. rewrite R. eexists. split; [reflexivity|].
    unfold applyDirect. split; [apply mapi_length|].
    intros i pt P. rewrite mapi_nth, P. eexists. split; [reflexivity|].
    cbn [scaled forecast]. rewrite unknown_tag_multiplier by assumption.
    apply round_eqv, mul_eqv; [apply eqv_refl | vm_compute; reflexivity].
Qed.

Lemma unknown_tag_direct_policy_witness :
  (getProfile EVENT_PROFILES "Flash Sale" = None ->
   forall labels ctx, buildEventMultiplier sampleHost "Flash Sale" labels ctx = [])
  /\ (forall labels ctx i,
        at_or (buildEventMultiplier sampleHost "Flash Sale" labels ctx) i (Fin 1)
        = Fin 1)
  /\ exists out,
       runWhatIf sampleHost EVENT_PROFILES true flatHundred (Fin 10)
         "Flash Sale" None = Some out
       /\ length out = length flatHundred
       /\ forall i pt, nth_error flatHundred i = Some pt ->
            exists o, nth_error out i = Some o
                      /\ (forecast o == round (forecast pt * Fin 1.10))%num.
Proof.
  apply (unknown_tag_direct_policy sampleHost "Flash Sale" flatHundred None
           marchDays); vm_compute; reflexivity.
Defined.

(** C5 fails for a tag that names a member of [Object.prototype].  The
    tag "constructor" is no key of the catalog, but the lookup finds the
    inherited member, the guard on a missing profile does not fire, and
    the curve is all ones, one per label, not the empty sequence. *)
Theorem inherited_tag_curve_not_empty :
  ownProperty EVENT_PROFILES "constructor" = None
  /\ buildEventMultiplier sampleHost "constructor" marchDays {| dealer := None |}
     = [Fin 1; Fin 1; Fin 1; Fin 1; Fin 1].
Proof. split; reflexivity. Qed.

(* ================================================================= *)
(** ** WhatIfComposer: a uniform curve under the normalized policy *)

Section UniformStep.

Variable host : Host.

Lemma map_uniform {A B} (f : A -> B) (c : B) xs :
  Forall (fun x => f x = c) xs -> map f xs = repeat c (length xs).
Proof.
  induction 1 as [|x xs H _ IH]; simpl; [reflexivity|].
  rewrite H, IH. reflexivity.
Qed.

Lemma multiplierAt_step_inside p tag ctx d :
  kind p = step ->
  (exists w, resolveWindow p d = Some w /\ outsideWindow d w = false) ->
  multiplierAt host p tag ctx d = (Fin 1 + peakImpact p)%num.
Proof.
  intros K (w & W & O). unfold multiplierAt. rewrite K, W, O. reflexivity.
Qed.

(** A step event whose window holds every date gives the same multiplier
    at every position. *)
Lemma step_curve_uniform catalog tag p labels ctx :
  getProfile catalog tag = Some p ->
  kind p = step ->
  Forall (fun d => exists w, resolveWindow p d = Some w
                             /\ outsideWindow d w = false)
         (labelDates host labels) ->
  buildEventMultiplierIn host catalog tag labels ctx
  = repeat (Fin 1 + peakImpact p)%num (length labels).
Proof.
  intros G K C. unfold buildEventMultiplierIn. rewrite G.
  destruct labels as [|l labels]; [reflexivity|].
  rewrite (map_uniform _ (Fin 1 + peakImpact p)%num).
  - rewrite labelDates_length. reflexivity.
  - eapply Forall_impl; [|exact C]. intros d I. cbv beta.
    apply multiplierAt_step_inside; assumption.
Qed.

End UniformStep.

Section UniformCurve.

Local Open Scope Q_scope.

Lemma sum_repeat c n : forall a,
  exists q, fold_left Num.add (repeat (Fin c) n) (Fin a) = Fin q
            /\ q == a + inject_Z (Z.of_nat n) * c.
Proof.
  induction n as [|n IH]; intros a.
  - exists a. split; [reflexivity|]. simpl. ring.
  - destruct (IH (a + c)) as (q & E & Q). exists q. split; [exact E|].
    rewrite Q, Nat2Z.inj_succ. unfold Z.succ. rewrite inject_Z_plus. ring.
Qed.

Lemma mul_one x : (x * Fin 1 == x)%num.
Proof.
  destruct x as [q|s|]; simpl; auto.
  - ring.
  - destruct s; reflexivity.
Qed.

(** A curve of [n >= 1] equal multipliers other than 0 is divided by
    itself: every normalized multiplier is 1. *)
Lemma normalize_uniform c n :
  ~ c == 0 -> (1 <= n)%nat ->
  Forall (fun v => (v == Fin 1)%num) (normalize (repeat (Fin c) n)).
Proof.
  intros C N. unfold normalize, average. rewrite repeat_length.
  destruct (sum_repeat c n 0) as (s & -> & S).
  destruct (Math_max_Fin 1 (inject_Z (Z.of_nat n))) as (m & M & M1 & M2 & Mc).
  unfold of_Z. rewrite M.
  assert (Mn : m == inject_Z (Z.of_nat n)).
  { destruct Mc as [-> | ->]; [|reflexivity].
    assert (1 <= inject_Z (Z.of_nat n)).
    { change 1 with (inject_Z 1). rewrite <- Zle_Qle. lia. }
    lra. }
  assert (Mz : Qzero_b m = false) by (apply Qzero_b_false; lra).
  cbn [Num.div]. rewrite Mz.
  assert (A : s / m == c).
  { rewrite S, Mn. field. rewrite <- Mn. lra. }
  assert (Az : Qzero_b (s / m) = false)
    by (apply Qzero_b_false; rewrite A; exact C).
  unfold or_else, truthy. rewrite Az. cbn [negb].
  apply Forall_map. apply Forall_forall. intros v V.
  apply repeat_spec in V. subst v. cbn [Num.div]. rewrite Az.
  cbn [eqv]. rewrite A. field. exact C.
Qed.

(** Composition reads 1 wherever it reads such a curve, also beyond its
    end. *)
Lemma at_or_normalize_uniform c n i :
  ~ c == 0 -> (1 <= n)%nat ->
  (at_or (normalize (repeat (Fin c) n)) i (Fin 1) == Fin 1)%num.
Proof.
  intros C N. pose proof (normalize_uniform c n C N) as U. unfold at_or.
  destruct (nth_in_or_default i (normalize (repeat (Fin c) n)) (Fin 1))
    as [I | ->].
  - rewrite Forall_forall in U. apply U, I.
  - apply eqv_refl.
Qed.

Lemma scaled_by_one pt l v :
  (v == Fin 1)%num ->
  (forecast (scaled pt l v) == round (forecast pt))%num
  /\ (lower (scaled pt l v) == round (lower pt))%num
  /\ (upper (scaled pt l v) == round (upper pt))%num.
Proof.
  intros V. cbn [scaled forecast lower upper].
  repeat split; apply round_eqv;
    (eapply eqv_trans;
     [apply mul_eqv; [apply eqv_refl | exact V] | apply mul_one]).
Qed.

End UniformCurve.

(** C2.  Five baseline points with forecast 100, a step event with peak
    impact 0.10 whose resolved window holds every date of the horizon,
    the API branch (normalized policy): the curve is 1.1 throughout, its
    mean is 1.1, every normalized multiplier is 1 and every output
    forecast is 100. *)
Theorem normalized_uniform_step_keeps_baseline
    (host : Host) (catalog : Catalog) (tag : string) (p : EventProfile)
    (points : list ForecastPoint) (selectedDealer : option Dealer)
    (dates : list Label) :
  getProfile catalog tag = Some p ->
  kind p = step ->
  (peakImpact p == Fin 0.10)%num ->
  length points = 5%nat ->
  Forall (fun pt => (forecast pt == Fin 100)%num) points ->
  resolvePointDates host points = Some dates ->
  Forall (fun d => exists w, resolveWindow p d = Some w
                             /\ outsideWindow d w = false)
         (labelDates host dates) ->
  exists out,
    runWhatIf host catalog false points (Fin 0) tag selectedDealer = Some out
    /\ length out = 5%nat
    /\ Forall (fun o => (forecast o == Fin 100)%num) out.
Proof.
  intros G K PK L F R C.
  pose proof (resolvePointDates_length host points dates R) as LD.
  unfold runWhatIf, whatIfNormalized. rewrite G, R.
  eexists. split; [reflexivity|].
  rewrite (step_curve_uniform host catalog tag p dates _ G K C), LD, L.
  destruct (peakImpact p) as [q| |]; cbn [eqv] in PK; try contradiction.
  cbn [Num.add]. unfold applyNormalized.
  split; [rewrite mapi_length; exact L|].
  apply Forall_forall. intros o Ho.
  apply In_nth_error in Ho as (i & Hi). rewrite mapi_nth in Hi.
  destruct (nth_error points i) as [pt|] eqn:E; [|discriminate].
  injection Hi as <-.
  assert (V : (at_or (normalize (repeat (Fin (1 + q)) 5)) i (Fin 1)
               == Fin 1)%num).
  { apply at_or_normalize_uniform; [|lia]. rewrite PK. discriminate. }
  destruct (scaled_by_one pt (labelAt dates i (date pt)) _ V) as (S & _).
  eapply eqv_trans; [exact S|].
  apply eqv_trans with (round (Fin 100)); [|vm_compute; reflexivity].
  apply round_eqv. rewrite Forall_forall in F. eapply F, nth_error_In, E.
Qed.

Lemma normalized_uniform_step_keeps_baseline_witness :
  exists out,
    runWhatIf sampleHost [("Flat Uplift"%string, allYearStep)] false
      flatHundred (Fin 0) "Flat Uplift" None = Some out
    /\ length out = 5%nat
    /\ Forall (fun o => (forecast o == Fin 100)%num) out.
Proof.
  apply (normalized_uniform_step_keeps_baseline sampleHost
           [("Flat Uplift"%string, allYearStep)] "Flat Uplift" allYearStep
           flatHundred None marchDays).
  - reflexivity.
  - reflexivity.
  - reflexivity.
  - reflexivity.
  - repeat constructor; vm_compute; reflexivity.
  - vm_compute; reflexivity.
  - repeat constructor; eexists; split; vm_compute; reflexivity.
Defined.

(* ================================================================= *)
(** ** WhatIfComposer: the guarded division of the normalized policy *)

Section Normalization64.
Local Open Scope Q_scope.

Lemma rnd_not_NaN (q : Q) : rnd q <> NaN.
Proof. unfold rnd. destruct (Qle_bool _ _); discriminate. Qed.

Lemma round_not_NaN (x : number) : x <> NaN -> F64.nearest x <> NaN.
Proof. destruct x; cbn [F64.nearest]; auto using rnd_not_NaN. Qed.

Lemma add_not_NaN (acc v : number) : acc <> NaN -> finite v -> (acc [+] v)%f64 <> NaN.
Proof.
  intros A F. destruct v as [q| |]; cbn in F; try tauto.
  destruct acc as [a|s|]; [apply rnd_not_NaN | discriminate | congruence].
Qed.

Lemma sum_not_NaN (curve : list number) : forall acc,
  acc <> NaN -> Forall finite curve -> fold_left F64.add curve acc <> NaN.
Proof.
  induction curve as [|v curve IH]; intros acc A F; cbn [fold_left]; [exact A |].
  apply Forall_cons_iff in F as (Fv & F).
  apply IH; [apply add_not_NaN; assumption | exact F].
Qed.

Lemma count_max (n : nat) :
  exists m, Math_max (Fin 1) (of_Z (Z.of_nat n)) = Fin m /\ 1 <= m
            /\ ((1 <= n)%nat -> m = inject_Z (Z.of_nat n)).
Proof.
  unfold of_Z. destruct (Math_max_Fin 1 (inject_Z (Z.of_nat n))) as (m & -> & A & B & C).
  exists m. split; [reflexivity |]. split; [exact A |].
  intros N. destruct C as [-> | ->]; [| reflexivity].
  assert (1 <= inject_Z (Z.of_nat n)).
  { change 1 with (inject_Z 1). rewrite <- Zle_Qle. lia. }
  assert (E : inject_Z (Z.of_nat n) == 1) by lra.
  assert (Z1 : Z.of_nat n = 1%Z).
  { unfold Qeq, inject_Z in E. cbn in E. lia. }
  rewrite Z1. reflexivity.
Qed.

(** The divisor [avgCurve || 1] of a curve of finite numbers is a finite
    number other than 0, or an infinity. *)
Lemma divisor_cases (curve : list number) :
  Forall finite curve ->
  (exists q, or_else (Binary64.average curve) (Fin 1) = Fin q /\ ~ q == 0)
  \/ (exists s, or_else (Binary64.average curve) (Fin 1) = Inf s).
Proof.
  intros F. unfold Binary64.average.
  destruct (count_max (length curve)) as (m & -> & M & _).
  assert (S := sum_not_NaN curve (Fin 0) ltac:(discriminate) F).
  destruct (fold_left F64.add curve (Fin 0)) as [s|sg|]; [| | congruence].
  - rewrite div_Fin by lra. unfold rnd.
    destruct (Qle_bool huge (Qabs (rndQ (s / m)))).
    + right. eexists. reflexivity.
    + left. unfold or_else, truthy.
      destruct (Qzero_b (rndQ (s / m))) eqn:Z; cbn [negb].
      * exists 1. split; [reflexivity | discriminate].
      * exists (rndQ (s / m)). split; [reflexivity | apply Qzero_b_false, Z].
  - right. cbn. eexists. reflexivity.
Qed.

Lemma normalize_not_NaN (curve : list number) :
  Forall finite curve -> Forall (fun v => v <> NaN) (Binary64.normalize curve).
Proof.
  intros F. unfold Binary64.normalize. apply Forall_map.
  eapply Forall_impl; [| exact F]. intros v Fv.
  destruct v as [p| |]; cbn in Fv; try tauto.
  destruct (divisor_cases curve F) as [(q & -> & Q) | (s & ->)].
  - rewrite div_Fin by exact Q. apply rnd_not_NaN.
  - cbn. discriminate.
Qed.

(** Division by 1 keeps a value of binary64. *)
Lemma div_one (v : number) : doubleValue v -> ((v [/] Fin 1)%f64 == v)%num.
Proof.
  destruct v as [q|s|]; cbn [doubleValue]; intros D.
  - rewrite div_Fin by discriminate.
    rewrite (rnd_comp (q / 1) q) by (field). apply rnd_double, D.
  - destruct s; reflexivity.
  - exact I.
Qed.

Lemma mul_one64 (v : number) : doubleValue v -> ((v [*] Fin 1)%f64 == v)%num.
Proof.
  destruct v as [q|s|]; cbn [doubleValue]; intros D.
  - rewrite mul_Fin. rewrite (rnd_comp (q * 1) q) by ring. apply rnd_double, D.
  - destruct s; reflexivity.
  - exact I.
Qed.

Lemma mean_zero_normalize (curve : list number) :
  (Binary64.average curve == Fin 0)%num -> Forall doubleValue curve ->
  or_else (Binary64.average curve) (Fin 1) = Fin 1
  /\ Forall2 eqv (Binary64.normalize curve) curve.
Proof.
  intros Z D.
  assert (O : or_else (Binary64.average curve) (Fin 1) = Fin 1).
  { destruct (Binary64.average curve) as [a| |]; cbn [eqv] in Z; try tauto.
    unfold or_else, truthy. apply Qzero_b_true in Z. rewrite Z. reflexivity. }
  split; [exact O |]. unfold Binary64.normalize. rewrite O. clear Z O.
  induction D as [|v curve Dv _ IH]; cbn [map]; constructor; [| exact IH].
  apply div_one, Dv.
Qed.

(** The sum of values between 1/4 and 4. *)
Lemma quarter_double (k : Z) :
  (0 <= k <= 2 ^ 50)%Z ->
  rndQ (inject_Z k * (1 # 4)) == inject_Z k * (1 # 4) /\ rndQ (4 * inject_Z k) == 4 * inject_Z k
  /\ 4 * inject_Z k < huge.
Proof.
  intros K. split; [| split].
  - assert (E : inject_Z k * (1 # 4) == inject_Z k * 2 ^ (-2)) by reflexivity.
    rewrite (rndQ_comp _ _ E), E. apply rndQ_exact; lia.
  - assert (E : 4 * inject_Z k == inject_Z k * 2 ^ 2) by (change (2 ^ 2) with 4; ring).
    rewrite (rndQ_comp _ _ E), E. apply rndQ_exact; lia.
  - assert (inject_Z k <= inject_Z (2 ^ 50)) by (rewrite <- Zle_Qle; lia).
    assert (4 * inject_Z (2 ^ 50) < huge) by reflexivity. lra.
Qed.

Lemma sum_in_range (curve : list number) : forall (k : Z) (a : Q),
  (0 <= k)%Z -> (k + Z.of_nat (length curve) <= 2 ^ 50)%Z ->
  Forall (withinRange (1 # 4) 4) curve ->
  inject_Z k * (1 # 4) <= a <= 4 * inject_Z k ->
  exists s, fold_left F64.add curve (Fin a) = Fin s
            /\ inject_Z (k + Z.of_nat (length curve)) * (1 # 4) <= s
               <= 4 * inject_Z (k + Z.of_nat (length curve)).
Proof.
  induction curve as [|v curve IH]; intros k a K L F A.
  - exists a. split; [reflexivity |]. cbn [length Z.of_nat]. rewrite Z.add_0_r. exact A.
  - apply Forall_cons_iff in F as ((q & -> & Q) & F).
    cbn [length] in *. rewrite Nat2Z.inj_succ in *.
    cbn [fold_left]. rewrite add_Fin.
    destruct (quarter_double (k + 1) ltac:(lia)) as (D1 & D2 & D3).
    assert (R : inject_Z (k + 1) * (1 # 4) <= a + q <= 4 * inject_Z (k + 1)).
    { rewrite inject_Z_plus. change (inject_Z 1) with 1. lra. }
    assert (R' := rndQ_between _ _ _ D1 D2 R).
    assert (P : 0 <= inject_Z (k + 1)).
    { change 0 with (inject_Z 0). rewrite <- Zle_Qle. lia. }
    rewrite rnd_value by (rewrite Qabs_pos; lra).
    destruct (IH (k + 1)%Z (rndQ (a + q)) ltac:(lia) ltac:(lia) F R') as (s & E & S).
    exists s. split; [exact E |].
    replace (k + Z.succ (Z.of_nat (length curve)))%Z
      with (k + 1 + Z.of_nat (length curve))%Z by lia.
    exact S.
Qed.

Lemma normalize_in_range (curve : list number) :
  (Z.of_nat (length curve) < 2 ^ 32)%Z ->
  Forall (withinRange (1 # 4) 4) curve ->
  Forall (withinRange (1 # 16) 16) (Binary64.normalize curve).
Proof.
  intros L F. destruct curve as [|v0 rest] eqn:C; [constructor |]. rewrite <- C in *.
  assert (N : (1 <= length curve)%nat) by (rewrite C; cbn; lia).
  unfold Binary64.normalize, Binary64.average.
  destruct (count_max (length curve)) as (m & -> & M & Mn). specialize (Mn N).
  destruct (sum_in_range curve 0 0 ltac:(lia) ltac:(lia) F ltac:(change (inject_Z 0) with 0; lra)) as (s & -> & S).
  rewrite Z.add_0_l in S. rewrite <- Mn in S.
  rewrite div_Fin by lra.
  assert (R : (1 # 4) <= s / m <= 4).
  { split; [apply Qle_shift_div_l | apply Qle_shift_div_r]; lra. }
  assert (R' := rndQ_between (1 # 4) 4 _ ltac:(reflexivity) ltac:(reflexivity) R).
  rewrite rnd_value by (rewrite Qabs_pos by lra; assert (4 < huge) by reflexivity; lra).
  set (mean := rndQ (s / m)) in *.
  assert (T : or_else (Fin mean) (Fin 1) = Fin mean).
  { unfold or_else, truthy.
    assert (Z : Qzero_b mean = false) by (apply Qzero_b_false; lra).
    rewrite Z. reflexivity. }
  rewrite T. apply Forall_map. eapply Forall_impl; [| exact F].
  intros v (q & -> & Q). rewrite div_Fin by lra.
  assert (B : (1 # 16) <= q / mean <= 16).
  { split; [apply Qle_shift_div_l | apply Qle_shift_div_r]; lra. }
  assert (B' := rndQ_between (1 # 16) 16 _ ltac:(reflexivity) ltac:(reflexivity) B).
  rewrite rnd_value by (rewrite Qabs_pos by lra; assert (16 < huge) by reflexivity; lra).
  eexists. split; [reflexivity | exact B'].
Qed.

(** Rounding to one decimal of a value up to 2^1004 in magnitude. *)
Lemma round_finite (q : Q) : Qabs q <= 2 ^ 1004 -> finite (Binary64.round (Fin q)).
Proof.
  intros B. unfold Binary64.round. rewrite mul_Fin.
  assert (B1 : Qabs (q * 10) <= 2 ^ 1008).
  { rewrite Qabs_Qmult. change (Qabs 10) with 10.
    assert (E : 2 ^ 1008 == 2 ^ 1004 * 16) by reflexivity.
    rewrite E. assert (X := Qabs_nonneg q). lra. }
  destruct (rnd_pow2 1008 _ ltac:(lia) B1) as (-> & B2).
  cbn [Math_round]. rewrite div_Fin by discriminate.
  set (z := Qfloor (rndQ (q * 10) + (1 # 2))).
  assert (B3 : Qabs (inject_Z z / 10) <= 2 ^ 1008).
  { destruct (floor_bounds (rndQ (q * 10) + (1 # 2))) as [L U]. fold z in L, U.
    apply Qabs_Qle_condition in B2. apply Qabs_Qle_condition.
    assert (2 <= 2 ^ 1008) by closedQ. 
    unfold Qdiv. setoid_replace (/ 10) with (1 # 10) by reflexivity.
    split; lra. }
  destruct (rnd_pow2 1008 _ ltac:(lia) B3) as (-> & _). exact I.
Qed.

Lemma scaled_finite64 (pt : ForecastPoint) (l : Label) (m : number) :
  boundedPoint (2 ^ 1000) pt -> withinRange (1 # 16) 16 m ->
  finitePoint (Binary64.scaled pt l m).
Proof.
  intros (F1 & F2 & F3) (q & -> & Q).
  assert (G : forall v, withinRange (- 2 ^ 1000) (2 ^ 1000) v ->
                        finite (Binary64.round (v [*] Fin q)%f64)).
  { intros v (p & -> & P). rewrite mul_Fin.
    assert (B : Qabs (p * q) <= 2 ^ 1004).
    { rewrite Qabs_Qmult. rewrite (Qabs_pos q) by lra.
      assert (E : 2 ^ 1004 == 2 ^ 1000 * 16) by reflexivity.
      assert (A : Qabs p <= 2 ^ 1000) by (apply Qabs_Qle_condition; exact P).
      assert (X := Qabs_nonneg p). rewrite E.
      generalize dependent (Qabs p). generalize (2 ^ 1000). intros b a A X. nra. }
    destruct (rnd_pow2 1004 _ ltac:(lia) B) as (-> & B').
    apply round_finite, B'. }
  repeat split; cbn [Binary64.scaled forecast lower upper]; apply G; assumption.
Qed.

Lemma at_or_in_range (xs : list number) (i : nat) :
  Forall (withinRange (1 # 16) 16) xs -> withinRange (1 # 16) 16 (at_or xs i (Fin 1)).
Proof.
  intros F. unfold at_or. revert i.
  induction F as [|x xs Fx _ IH]; intros [|i]; cbn [nth]; auto;
    exists 1; (split; [reflexivity | lra]).
Qed.

End Normalization64.

(** C8 (as amended).  In the normalized policy, computed in binary64:
    for every curve of finite numbers the divisor [avgCurve || 1] is a
    finite number other than 0 or an infinity, and no normalized
    multiplier is NaN; when the mean is 0 the divisor is 1 and the
    normalized multipliers are the multipliers of the curve; and for a
    curve of multipliers between 1/4 and 4 (the range of every catalog
    profile) the normalized multipliers lie between 1/16 and 16 and the
    scaled values of baseline points of magnitude up to 2^1000 are
    finite: neither NaN nor an infinity. *)
Theorem normalized_policy_is_finite
    (curve : list number) (dates : list Label) (points : list ForecastPoint) :
  Forall finite curve ->
  ((exists q, or_else (Binary64.average curve) (Fin 1) = Fin q /\ ~ (q == 0)%Q)
   \/ (exists s, or_else (Binary64.average curve) (Fin 1) = Inf s))
  /\ Forall (fun v => v <> NaN) (Binary64.normalize curve)
  /\ ((Binary64.average curve == Fin 0)%num -> Forall doubleValue curve ->
      or_else (Binary64.average curve) (Fin 1) = Fin 1
      /\ Forall2 eqv (Binary64.normalize curve) curve)
  /\ (Z.of_nat (length curve) < 2 ^ 32 ->
      Forall (withinRange (1 # 4) 4) curve ->
      Forall (withinRange (1 # 16) 16) (Binary64.normalize curve)
      /\ (Forall (boundedPoint (2 ^ 1000)) points ->
          Forall finitePoint (Binary64.applyNormalized curve dates points))).
Proof.
  intros F. split; [apply divisor_cases, F |].
  split; [apply normalize_not_NaN, F |].
  split; [apply mean_zero_normalize |].
  intros L R. assert (N := normalize_in_range curve L R).
  split; [exact N |].
  intros P. unfold Binary64.applyNormalized. apply Forall_forall. intros o Ho.
  apply In_nth_error in Ho as (i & Hi). rewrite mapi_nth in Hi.
  destruct (nth_error points i) as [pt|] eqn:E; [| discriminate].
  injection Hi as <-. apply scaled_finite64; [| apply at_or_in_range, N].
  rewrite Forall_forall in P. eapply P, nth_error_In, E.
Qed.

Lemma normalized_policy_is_finite_witness :
  ((exists q, or_else (Binary64.average [Fin 1; Fin (-1)]) (Fin 1) = Fin q
              /\ ~ (q == 0)%Q)
   \/ (exists s, or_else (Binary64.average [Fin 1; Fin (-1)]) (Fin 1) = Inf s))
  /\ Forall (fun v => v <> NaN) (Binary64.normalize [Fin 1; Fin (-1)])
  /\ ((Binary64.average [Fin 1; Fin (-1)] == Fin 0)%num ->
      Forall doubleValue [Fin 1; Fin (-1)] ->
      or_else (Binary64.average [Fin 1; Fin (-1)]) (Fin 1) = Fin 1
      /\ Forall2 eqv (Binary64.normalize [Fin 1; Fin (-1)]) [Fin 1; Fin (-1)])
  /\ (Z.of_nat (length [Fin 1; Fin (-1)]) < 2 ^ 32 ->
      Forall (withinRange (1 # 4) 4) [Fin 1; Fin (-1)] ->
      Forall (withinRange (1 # 16) 16) (Binary64.normalize [Fin 1; Fin (-1)])
      /\ (Forall (boundedPoint (2 ^ 1000)) flatHundred ->
          Forall finitePoint
            (Binary64.applyNormalized [Fin 1; Fin (-1)] marchDays flatHundred))).
Proof.
  apply (normalized_policy_is_finite [Fin 1; Fin (-1)] marchDays flatHundred).
  repeat constructor.
Defined.

(** C8 fails for a curve that holds NaN.  At the last day of the time
    range the Monsoon window ends beyond it, the multiplier of that date
    is NaN, the mean of the curve is NaN, [avgCurve || 1] is 1, and the
    what-if forecast of the first point is NaN. *)
Lemma normalized_policy_passes_NaN_on :
  Binary64.buildEventMultiplier sampleHost monsoonTag
    (map date edgePoints) {| dealer := None |} = [NaN; Fin 1]
  /\ Binary64.normalize [NaN; Fin 1] = [NaN; Fin 1]
  /\ option_map (map forecast)
       (Binary64.runWhatIf sampleHost EVENT_PROFILES false edgePoints (Fin 0)
          monsoonTag None)
     = Some [NaN; Fin 100].
Proof. repeat split; vm_compute; reflexivity. Qed.

(* ================================================================= *)
(** ** WhatIfComposer: uniform curves under the normalized policy *)

Section Uniform64.
Local Open Scope Q_scope.

Lemma round_mul_one (v : number) :
  doubleValue v -> Binary64.round (v [*] Fin 1)%f64 = Binary64.round v.
Proof.
  destruct v as [q|s|]; cbn [doubleValue]; intros D.
  - rewrite mul_Fin. destruct D as [E H].
    rewrite rnd_value by (rewrite (rndQ_comp (q * 1) q) by ring; rewrite E; exact H).
    unfold Binary64.round. rewrite !mul_Fin. f_equal. f_equal. apply rnd_comp.
    rewrite (rndQ_comp (q * 1) q) by ring. rewrite E. reflexivity.
  - destruct s; reflexivity.
  - reflexivity.
Qed.

Lemma scaled_by_one64 (pt : ForecastPoint) (l : Label) :
  doublePoint pt ->
  forecast (Binary64.scaled pt l (Fin 1)) = Binary64.round (forecast pt)
  /\ lower (Binary64.scaled pt l (Fin 1)) = Binary64.round (lower pt)
  /\ upper (Binary64.scaled pt l (Fin 1)) = Binary64.round (upper pt).
Proof.
  intros (A & B & C). cbn [Binary64.scaled forecast lower upper].
  repeat split; apply round_mul_one; assumption.
Qed.

(** A uniform curve whose mean comes out as its value is divided to 1. *)
Lemma normalize_uniform64 (c : Q) (n : nat) :
  ~ c == 0 ->
  (Binary64.average (repeat (Fin c) n) == Fin c)%num ->
  forall i, at_or (Binary64.normalize (repeat (Fin c) n)) i (Fin 1) = Fin 1.
Proof.
  intros C A i. unfold Binary64.normalize.
  destruct (Binary64.average (repeat (Fin c) n)) as [a| |]; cbn [eqv] in A; try tauto.
  assert (T : or_else (Fin a) (Fin 1) = Fin a).
  { unfold or_else, truthy.
    assert (Z : Qzero_b a = false) by (apply Qzero_b_false; rewrite A; exact C).
    rewrite Z. reflexivity. }
  rewrite T. unfold at_or.
  destruct (nth_in_or_default i (map (fun v => (v [/] Fin a)%f64) (repeat (Fin c) n)) (Fin 1))
    as [I | ->]; [| reflexivity].
  apply in_map_iff in I as (v & E & V). apply repeat_spec in V. subst v.
  rewrite <- E. rewrite div_Fin by (rewrite A; exact C).
  rewrite (rnd_comp (c / a) 1) by (rewrite A; field; exact C).
  reflexivity.
Qed.

(** The sum of [n] ones is [n]. *)
Lemma sum_of_ones (n : nat) : forall (k : Z) (a : Q),
  (0 <= k)%Z -> (k + Z.of_nat n <= 2 ^ 53)%Z -> a == inject_Z k ->
  (fold_left F64.add (repeat (Fin 1) n) (Fin a)
   == Fin (inject_Z (k + Z.of_nat n)))%num.
Proof.
  induction n as [|n IH]; intros k a K B A.
  - cbn [repeat fold_left eqv Z.of_nat]. rewrite Z.add_0_r. exact A.
  - cbn [repeat fold_left]. rewrite add_Fin.
    rewrite Nat2Z.inj_succ in *.
    destruct (isDouble_Z (k + 1) ltac:(lia)) as [D1 D2].
    assert (E : a + 1 == inject_Z (k + 1))
      by (rewrite A, inject_Z_plus; reflexivity).
    rewrite (rnd_comp _ _ E).
    rewrite rnd_value by (rewrite D1; exact D2).
    replace (k + Z.succ (Z.of_nat n))%Z with (k + 1 + Z.of_nat n)%Z by lia.
    apply IH; [lia | lia | exact D1].
Qed.

Lemma average_of_ones (n : nat) :
  (1 <= n)%nat -> (Z.of_nat n <= 2 ^ 53)%Z ->
  (Binary64.average (repeat (Fin 1) n) == Fin 1)%num.
Proof.
  intros N B. unfold Binary64.average. rewrite repeat_length.
  destruct (count_max n) as (m & -> & M & Mn). specialize (Mn N).
  assert (S := sum_of_ones n 0 0 ltac:(lia) ltac:(lia) ltac:(reflexivity)).
  destruct (fold_left F64.add (repeat (Fin 1) n) (Fin 0)) as [s| |];
    cbn [eqv] in S; try tauto.
  rewrite Z.add_0_l in S. rewrite div_Fin by lra.
  rewrite (rnd_comp (s / m) 1); [reflexivity |].
  rewrite S, Mn. field. rewrite <- Mn. lra.
Qed.

End Uniform64.

(** The shape-only guarantee of the normalized policy on uniform
    curves, in binary64: a curve that is one multiplier other than 0
    throughout, and whose mean comes out as that multiplier, leaves
    every point at its baseline values, rounded to one decimal.  A curve
    of ones always has this mean ([average_of_ones]); twenty-one
    multipliers 1.1 have not ([uniform_curve_of_21_drifts]). *)
Theorem uniform_curve_keeps_rounded_baseline
    (c : Q) (dates : list Label) (points : list ForecastPoint) :
  ~ (c == 0)%Q ->
  (Binary64.average (repeat (Fin c) (length points)) == Fin c)%num ->
  forall i pt, nth_error points i = Some pt -> doublePoint pt ->
    exists o,
      nth_error
        (Binary64.applyNormalized (repeat (Fin c) (length points)) dates points) i
      = Some o
      /\ forecast o = Binary64.round (forecast pt)
      /\ lower o = Binary64.round (lower pt)
      /\ upper o = Binary64.round (upper pt).
Proof.
  intros C A i pt P D.
  unfold Binary64.applyNormalized. rewrite mapi_nth, P. eexists. split; [reflexivity |].
  rewrite (normalize_uniform64 c (length points) C A i).
  apply scaled_by_one64, D.
Qed.

Lemma uniform_curve_keeps_rounded_baseline_witness :
  exists o,
    nth_error
      (Binary64.applyNormalized (repeat (F64.lit 1.1) (length flatHundred))
         marchDays flatHundred) 0
    = Some o
    /\ forecast o = Binary64.round (forecast (pointAt (LString "2024-03-01") 100))
    /\ lower o = Binary64.round (lower (pointAt (LString "2024-03-01") 100))
    /\ upper o = Binary64.round (upper (pointAt (LString "2024-03-01") 100)).
Proof.
  apply (uniform_curve_keeps_rounded_baseline (rndQ 1.1) marchDays flatHundred).
  - apply Qeq_bool_neq. vm_compute. reflexivity.
  - vm_compute. reflexivity.
  - reflexivity.
  - repeat split; vm_compute; try reflexivity; try discriminate.
Defined.

(** Twenty-one multipliers 1.1 sum to a mean of 1.1000000000000003:
    every normalized multiplier is 0.9999999999999998, and the baseline
    values 100.25, 90.75 and 110.25 become 100.2, 90.7 and 110.2. *)
Lemma uniform_curve_of_21_drifts :
  Binary64.average (repeat (F64.lit 1.1) 21)
  = Fin (4953959590107547 # 4503599627370496)
  /\ Forall (fun o => forecast o = F64.lit 100.2 /\ lower o = F64.lit 90.7
                      /\ upper o = F64.lit 110.2)
       (Binary64.applyNormalized (repeat (F64.lit 1.1) 21) [] flat21).
Proof. split; [vm_compute; reflexivity |]. repeat constructor. Qed.

(* ================================================================= *)
(** ** SpikeKernel *)

Section SpikeKernel.

Local Open Scope Q_scope.

Variable host : Host.
Variable p : EventProfile.
Variable tag : string.
Variable ctx : Context.
Variables pk w : Q.
Hypothesis p_kind : kind p = spike.
Hypothesis p_peak : peakImpact p = Fin pk.
Hypothesis p_width : effectiveWidth p w.

Lemma sigma_value :
  exists s,
    Math_max (Fin 3)
      (match widthDays p with Some x => x | None => Fin 14 end / Fin 2.355)%num
    = Fin s
    /\ s == sigmaOf w /\ 3 <= s.
Proof.
  assert (E : (match widthDays p with Some x => x | None => Fin 14 end
               / Fin 2.355)%num = Fin (w / 2.355)).
  { destruct p_width as [-> | (-> & ->)]; reflexivity. }
  rewrite E. destruct (Math_max_Fin 3 (w / 2.355)) as (s & -> & A & B & C).
  exists s. split; [reflexivity|]. split; [|assumption].
  unfold sigmaOf. destruct C as [-> | ->].
  - symmetry. apply Q.max_l. assumption.
  - symmetry. apply Q.max_r. assumption.
Qed.

(** With no center, or with a valid one, the multiplier stays within the
    peak impact. *)
Lemma spike_multiplier_bounds t :
  unitRangeBelowZero (exp host) ->
  (resolveCenter p tag ctx (ValidDate t) = None
   \/ exists c, resolveCenter p tag ctx (ValidDate t) = Some (ValidDate c)) ->
  exists m, multiplierAt host p tag ctx (ValidDate t) = Fin m /\ withinPeak pk m.
Proof.
  intros E [C | (c & C)].
  - exists 1. unfold multiplierAt. rewrite p_kind, C. split; [reflexivity|].
    split; intros; lra.
  - unfold multiplierAt. rewrite p_kind, C, p_peak.
    destruct sigma_value as (s & -> & S & S3).
    cbn [getTime of_Z Num.sub Num.neg Num.add Num.div].
    assert (Z1 : Qzero_b 86400000 = false) by reflexivity. rewrite Z1.
    cbn [Num.div].
    assert (Z2 : Qzero_b s = false) by (apply Qzero_b_false; lra). rewrite Z2.
    cbn [sq Num.mul Math_exp Num.add]. eexists. split; [reflexivity|].
    set (x := (inject_Z t + - inject_Z c) / 86400000 / s).
    assert (X : 0 <= x * x) by nra.
    pose proof (E (-0.5 * (x * x))) as B.
    assert (B' : 0 <= exp host (-0.5 * (x * x)) <= 1) by (apply B; lra).
    split; intros; nra.
Qed.

End SpikeKernel.

Section Gaussian.

Local Open Scope Q_scope.

(** The rational stand-in for [Math.exp] of the sample host. *)
Lemma expModel_increasing : strictlyIncreasing expModel.
Proof.
  intros x y L. unfold expModel.
  destruct (Qle_bool 0 x) eqn:X, (Qle_bool 0 y) eqn:Y.
  - lra.
  - apply Qle_bool_iff in X.
    assert (~ 0 <= y) by (intros H; apply Qle_bool_iff in H; congruence). lra.
  - apply Qle_bool_iff in Y.
    assert (Nx : ~ 0 <= x) by (intros H; apply Qle_bool_iff in H; congruence).
    assert (0 < 1 - x) by lra.
    assert (/ (1 - x) < 1).
    { setoid_replace 1 with (/ 1) at 2 by reflexivity.
      apply -> Qinv_lt_contravar; lra. }
    unfold Qdiv. lra.
  - assert (Nx : ~ 0 <= x) by (intros H; apply Qle_bool_iff in H; congruence).
    assert (Ny : ~ 0 <= y) by (intros H; apply Qle_bool_iff in H; congruence).
    unfold Qdiv. rewrite !Qmult_1_l.
    apply -> Qinv_lt_contravar; lra.
Qed.

Lemma expModel_respectsEq : respectsEq expModel.
Proof.
  intros x y E. unfold expModel.
  assert (B : Qle_bool 0 x = Qle_bool 0 y).
  { destruct (Qle_bool 0 y) eqn:Y.
    - apply Qle_bool_iff. apply Qle_bool_iff in Y. lra.
    - apply not_true_is_false. intros X. apply Qle_bool_iff in X.
      assert (H : 0 <= y) by lra. apply Qle_bool_iff in H. congruence. }
  rewrite B. destruct (Qle_bool 0 y); rewrite E; reflexivity.
Qed.

Lemma expModel_unitRange : unitRangeBelowZero expModel.
Proof.
  intros x X. unfold expModel.
  destruct (Qle_bool 0 x) eqn:B.
  - apply Qle_bool_iff in B. lra.
  - assert (P : 0 < 1 - x) by lra.
    assert (I0 : 0 < / (1 - x)) by (apply Qinv_lt_0_compat; exact P).
    assert (I1 : / (1 - x) <= 1) by (apply Qle_shift_inv_r; lra).
    unfold Qdiv. lra.
Qed.

End Gaussian.

(** The kernel on finite values: its ranges, its value at the center,
    and how it falls off on both sides. *)
Section Kernel64.
Local Open Scope Q_scope.

Variable expf : Q -> Q.
Variables peak sigma : Q.
Hypothesis exp_sane : saneExp expf.
Hypothesis peak_range : 0 <= peak <= 1.
Hypothesis sigma_range : 3 <= sigma.

Lemma expf_comp (x y : Q) : x == y -> expf x == expf y.
Proof.
  intros E. destruct exp_sane as (M & _).
  apply Qle_antisym; apply M; rewrite E; apply Qle_refl.
Qed.

Lemma expf_unit (x : Q) : x <= 0 -> 0 <= expf x <= 1.
Proof.
  intros H. destruct exp_sane as (M & Z & P & _).
  split; [apply P, H |]. rewrite <- Z. apply M, H.
Qed.

(** The steps of the kernel and their ranges. *)
Lemma steps_ranges (x : Q) :
  let dist := rndQ (rndQ x / 86400000) in
  let u := rndQ (dist / sigma) in
  let s := rndQ (u * u) in
  let a := rndQ (-0.5 * s) in
  let e := rndQ (expf a) in
  Qabs x <= 2 ^ 54 ->
  Qabs (rndQ x) <= 2 ^ 54 /\ Qabs dist <= 2 ^ 28 /\ Qabs u <= 2 ^ 28
  /\ 0 <= s <= 2 ^ 56 /\ - 2 ^ 56 <= a <= 0
  /\ 0 <= e <= 1 /\ 0 <= rndQ (peak * e) <= 1.
Proof.
  intros dist u s a e X.
  assert (D54 := pow2_double 54 ltac:(lia)).
  assert (D28 := pow2_double 28 ltac:(lia)).
  assert (D56 := pow2_double 56 ltac:(lia)).
  assert (D0 : rndQ 0 == 0) by reflexivity.
  assert (D1 : rndQ 1 == 1) by reflexivity.
  assert (X' : Qabs (rndQ x) <= 2 ^ 54) by (apply rndQ_abs_le; assumption).
  assert (V28 : 2 ^ 28 == 268435456) by reflexivity.
  assert (V54 : 2 ^ 54 == 18014398509481984) by reflexivity.
  assert (V56 : 2 ^ 56 == 72057594037927936) by reflexivity.
  assert (Hd : Qabs dist <= 2 ^ 28).
  { apply rndQ_abs_le; [exact D28 |].
    apply Qabs_Qle_condition in X'. apply Qabs_Qle_condition.
    rewrite V54 in X'. rewrite V28.
    unfold Qdiv. setoid_replace (/ 86400000) with (1 # 86400000) by reflexivity.
    destruct X' as [L U]. generalize dependent (rndQ x). intros y L U.
    split; lra. }
  assert (Hu : Qabs u <= 2 ^ 28).
  { apply rndQ_abs_le; [exact D28 |].
    apply Qabs_Qle_condition in Hd. apply Qabs_Qle_condition.
    assert (I : 0 < / sigma) by (apply Qinv_lt_0_compat; lra).
    assert (I1 : / sigma <= 1) by (apply Qle_shift_inv_r; lra).
    rewrite V28 in *. destruct Hd as [L U].
    unfold Qdiv. generalize dependent (/ sigma). intros i I I1.
    generalize dependent dist. intros d L U. split; nra. }
  assert (Hs : 0 <= s <= 2 ^ 56).
  { apply rndQ_between; [exact D0 | exact D56 |].
    apply Qabs_Qle_condition in Hu. destruct Hu as [L U]. rewrite V28 in L, U.
    rewrite V56. generalize dependent u. intros v L U. split; nra. }
  assert (Ha : - 2 ^ 56 <= a <= 0).
  { apply rndQ_between; [rewrite rndQ_opp, D56; reflexivity | exact D0 |].
    destruct Hs as [L U]. split; lra. }
  assert (He : 0 <= e <= 1).
  { apply rndQ_between; [exact D0 | exact D1 |]. apply expf_unit. lra. }
  repeat (split; try assumption); try tauto.
  - apply (rndQ_between 0 1); [exact D0 | exact D1 |]. nra.
  - apply (rndQ_between 0 1); [exact D0 | exact D1 |]. nra.
Qed.

Lemma spikeSteps_range (x : Q) :
  Qabs x <= 2 ^ 54 -> 1 <= spikeSteps expf peak sigma x <= 2.
Proof.
  intros X. destruct (steps_ranges x X) as (_ & _ & _ & _ & _ & _ & R).
  unfold spikeSteps.
  apply rndQ_between; [reflexivity | reflexivity |]. lra.
Qed.

(** The number-level computation is these steps. *)
Lemma kernel64_value (t c : Z) :
  timeValue t -> timeValue c ->
  kernel64 expf (Fin peak) (Fin sigma) t c
  = Fin (spikeSteps expf peak sigma (inject_Z t + - inject_Z c)).
Proof.
  intros Ht Hc. set (x := inject_Z t + - inject_Z c).
  assert (X : Qabs x <= 2 ^ 54).
  { unfold x. rewrite <- inject_Z_opp, <- inject_Z_plus.
    apply Qabs_Qle_condition. rewrite <- (pow2_Z 54) by lia.
    rewrite <- inject_Z_opp, <- !Zle_Qle.
    unfold timeValue, maxTime in *. change (2 ^ 54)%Z with 18014398509481984%Z. lia. }
  destruct (steps_ranges x X) as (R0 & R1 & R2 & R3 & R4 & R5 & R6).
  assert (R7 := spikeSteps_range x X).
  cbv zeta in *.
  unfold kernel64, dist64, of_Z, Binary64.sq, Binary64.Math_exp.
  rewrite sub_Fin. fold x.
  rewrite (rnd_value x) by (eapply Qle_lt_trans; [exact R0 | apply pow2_below_huge; lia]).
  rewrite div_Fin by discriminate.
  rewrite rnd_value by (eapply Qle_lt_trans; [exact R1 | apply pow2_below_huge; lia]).
  rewrite div_Fin by (intros E; lra).
  rewrite rnd_value by (eapply Qle_lt_trans; [exact R2 | apply pow2_below_huge; lia]).
  rewrite mul_Fin.
  rewrite rnd_value.
  2:{ rewrite Qabs_pos by tauto. eapply Qle_lt_trans; [apply R3 | apply pow2_below_huge; lia]. }
  rewrite mul_Fin.
  rewrite rnd_value.
  2:{ rewrite Qabs_neg by tauto. destruct R4 as [L U].
      assert (2 ^ 56 < huge) by (apply pow2_below_huge; lia). lra. }
  cbn [Num.Math_exp F64.nearest].
  rewrite rnd_value.
  2:{ rewrite Qabs_pos by tauto. assert (1 < huge) by reflexivity. lra. }
  rewrite mul_Fin.
  rewrite rnd_value.
  2:{ rewrite Qabs_pos by tauto. assert (1 < huge) by reflexivity. lra. }
  rewrite add_Fin.
  rewrite rnd_value.
  2:{ unfold spikeSteps in R7. rewrite Qabs_pos by lra.
      assert (2 < huge) by reflexivity. lra. }
  reflexivity.
Qed.

(** The kernel is even in the time difference. *)
Lemma spikeSteps_even (x : Q) :
  spikeSteps expf peak sigma (- x) == spikeSteps expf peak sigma x.
Proof.
  unfold spikeSteps. cbv zeta.
  assert (U : rndQ (rndQ (rndQ (- x) / 86400000) / sigma)
              == - rndQ (rndQ (rndQ x / 86400000) / sigma)).
  { rewrite <- rndQ_opp. apply rndQ_Proper.
    setoid_replace (- (rndQ (rndQ x / 86400000) / sigma))
      with (- rndQ (rndQ x / 86400000) / sigma) by (field; lra).
    apply Qmult_comp; [| reflexivity].
    rewrite <- rndQ_opp. apply rndQ_Proper.
    setoid_replace (- (rndQ x / 86400000)) with (- rndQ x / 86400000) by (field; discriminate).
    apply Qmult_comp; [| reflexivity]. apply rndQ_opp. }
  set (u1 := rndQ (rndQ (rndQ (- x) / 86400000) / sigma)) in *.
  set (u2 := rndQ (rndQ (rndQ x / 86400000) / sigma)) in *.
  assert (S : u1 * u1 == u2 * u2) by (rewrite U; ring).
  apply rndQ_Proper. apply Qplus_comp; [reflexivity |].
  apply rndQ_Proper. apply Qmult_comp; [reflexivity |].
  apply rndQ_Proper. apply expf_comp.
  apply rndQ_Proper. apply Qmult_comp; [reflexivity |].
  apply rndQ_Proper. exact S.
Qed.

(** Further from the center the kernel is no larger. *)
Lemma spikeSteps_mono (x1 x2 : Q) :
  0 <= x1 <= x2 -> spikeSteps expf peak sigma x2 <= spikeSteps expf peak sigma x1.
Proof.
  intros [P H]. unfold spikeSteps. cbv zeta.
  assert (D0 : rndQ 0 == 0) by reflexivity.
  assert (I : 0 < / sigma) by (apply Qinv_lt_0_compat; lra).
  assert (A1 : 0 <= rndQ x1) by (apply rndQ_sign; exact P).
  assert (A : rndQ x1 <= rndQ x2) by (apply rndQ_mono; exact H).
  assert (B1 : 0 <= rndQ (rndQ x1 / 86400000)).
  { apply rndQ_sign. unfold Qdiv.
    setoid_replace (/ 86400000) with (1 # 86400000) by reflexivity. lra. }
  assert (B : rndQ (rndQ x1 / 86400000) <= rndQ (rndQ x2 / 86400000)).
  { apply rndQ_mono. unfold Qdiv.
    setoid_replace (/ 86400000) with (1 # 86400000) by reflexivity. lra. }
  set (d1 := rndQ (rndQ x1 / 86400000)) in *.
  set (d2 := rndQ (rndQ x2 / 86400000)) in *.
  assert (C1 : 0 <= rndQ (d1 / sigma)).
  { apply rndQ_sign. unfold Qdiv. apply Qmult_le_0_compat; lra. }
  assert (C : rndQ (d1 / sigma) <= rndQ (d2 / sigma)).
  { apply rndQ_mono. unfold Qdiv. apply Qmult_le_compat_r; lra. }
  set (u1 := rndQ (d1 / sigma)) in *. set (u2 := rndQ (d2 / sigma)) in *.
  assert (S : rndQ (u1 * u1) <= rndQ (u2 * u2)) by (apply rndQ_mono; nra).
  assert (S1 : 0 <= rndQ (u1 * u1)) by (apply rndQ_sign; nra).
  set (s1 := rndQ (u1 * u1)) in *. set (s2 := rndQ (u2 * u2)) in *.
  assert (G : rndQ (-0.5 * s2) <= rndQ (-0.5 * s1)) by (apply rndQ_mono; lra).
  assert (G1 : rndQ (-0.5 * s1) <= 0).
  { rewrite <- D0. apply rndQ_mono. lra. }
  set (a1 := rndQ (-0.5 * s1)) in *. set (a2 := rndQ (-0.5 * s2)) in *.
  destruct exp_sane as (M & _).
  assert (E : rndQ (expf a2) <= rndQ (expf a1)) by (apply rndQ_mono, M, G).
  assert (E2 : 0 <= rndQ (expf a2)).
  { apply rndQ_sign. apply expf_unit. lra. }
  set (e1 := rndQ (expf a1)) in *. set (e2 := rndQ (expf a2)) in *.
  apply rndQ_mono. apply Qplus_le_r. apply rndQ_mono. nra.
Qed.

Lemma spikeSteps_abs (x1 x2 : Q) :
  Qabs x1 <= Qabs x2 -> spikeSteps expf peak sigma x2 <= spikeSteps expf peak sigma x1.
Proof.
  intros H.
  assert (A : forall x, spikeSteps expf peak sigma x == spikeSteps expf peak sigma (Qabs x)).
  { intros x. apply Qabs_case; intros; [reflexivity | symmetry; apply spikeSteps_even]. }
  rewrite (A x1), (A x2). apply spikeSteps_mono.
  split; [apply Qabs_nonneg | exact H].
Qed.

(** At the center. *)
Lemma spikeSteps_center :
  rndQ peak == peak -> spikeSteps expf peak sigma 0 = rndQ (1 + peak).
Proof.
  intros Dp. unfold spikeSteps. cbv zeta.
  destruct exp_sane as (_ & Z & _).
  assert (D0 : rndQ 0 == 0) by reflexivity.
  assert (D1 : rndQ 1 == 1) by reflexivity.
  assert (E1 : rndQ (rndQ 0 / 86400000) == 0) by reflexivity.
  assert (E2 : rndQ (rndQ (rndQ 0 / 86400000) / sigma) == 0).
  { rewrite (rndQ_comp _ 0); [reflexivity |].
    generalize dependent (rndQ (rndQ 0 / 86400000)). intros d E. rewrite E.
    unfold Qdiv. ring. }
  set (u := rndQ (rndQ (rndQ 0 / 86400000) / sigma)) in *.
  assert (E3 : rndQ (-0.5 * rndQ (u * u)) == 0).
  { rewrite (rndQ_comp _ 0); [reflexivity |].
    rewrite (rndQ_comp (u * u) 0); [| rewrite E2; ring].
    reflexivity. }
  assert (E4 : rndQ (expf (rndQ (-0.5 * rndQ (u * u)))) == 1).
  { rewrite (rndQ_comp _ 1); [reflexivity |]. rewrite (expf_comp _ 0 E3). exact Z. }
  apply rndQ_comp. apply Qplus_comp; [reflexivity |].
  rewrite <- Dp at 2. apply rndQ_Proper.
  generalize dependent (rndQ (expf (rndQ (-0.5 * rndQ (u * u))))). intros e E. rewrite E. ring.
Qed.

(** A day or more from the center. *)
Lemma spikeSteps_off_center (x : Q) :
  sigma <= 16 -> 86400000 <= Qabs x ->
  spikeSteps expf peak sigma x <= rndQ (1 + rndQ (peak * (1 - (1 # 2048)))).
Proof.
  intros S X.
  apply Qle_trans with (spikeSteps expf peak sigma 86400000).
  { apply spikeSteps_abs. exact X. }
  unfold spikeSteps. cbv zeta.
  destruct exp_sane as (M & _ & _ & K).
  assert (E0 : rndQ 86400000 == 86400000) by reflexivity.
  assert (E1 : rndQ (rndQ 86400000 / 86400000) == 1) by reflexivity.
  assert (E2 : (1 # 16) <= rndQ (rndQ (rndQ 86400000 / 86400000) / sigma)).
  { assert (D : rndQ (1 # 16) == 1 # 16) by reflexivity.
    rewrite <- D. apply rndQ_mono.
    generalize dependent (rndQ (rndQ 86400000 / 86400000)). intros d E. rewrite E.
    apply Qle_shift_div_l; lra. }
  set (u := rndQ (rndQ (rndQ 86400000 / 86400000) / sigma)) in *.
  assert (E3 : (1 # 256) <= rndQ (u * u)).
  { assert (D : rndQ (1 # 256) == 1 # 256) by reflexivity.
    rewrite <- D. apply rndQ_mono. nra. }
  set (s := rndQ (u * u)) in *.
  assert (E4 : rndQ (-0.5 * s) <= - (1 # 512)).
  { assert (D : rndQ (- (1 # 512)) == - (1 # 512)) by reflexivity.
    rewrite <- D. apply rndQ_mono. lra. }
  set (a := rndQ (-0.5 * s)) in *.
  assert (E5 : rndQ (expf a) <= 1 - (1 # 2048)).
  { assert (D : rndQ (1 - (1 # 2048)) == 1 - (1 # 2048)) by reflexivity.
    rewrite <- D. apply rndQ_mono. apply Qle_trans with (expf (- (1 # 512))); [apply M, E4 | exact K]. }
  apply rndQ_mono. apply Qplus_le_r. apply rndQ_mono.
  rewrite !(Qmult_comm peak). apply Qmult_le_compat_r; [exact E5 | tauto].
Qed.

End Kernel64.

Section SpikeKernel64.
Local Open Scope Q_scope.

Lemma TimeClip_timeValue (x c : Z) : TimeClip x = ValidDate c -> timeValue c.
Proof.
  unfold TimeClip. destruct (Z.abs x <=? maxTime)%Z eqn:B; [| discriminate].
  intros E. injection E as <-. apply Z.leb_le, B.
Qed.

Lemma resolveCenter_timeValue p tag ctx d c :
  resolveCenter p tag ctx d = Some (ValidDate c) -> timeValue c.
Proof.
  unfold resolveCenter, makeUTCDate, utcDate, Date_UTC.
  destruct (center p) as [m|].
  - destruct (getUTCFullYear d); [| discriminate].
    intros E. injection E as E. eapply TimeClip_timeValue, E.
  - destruct (dealer ctx); [| discriminate].
    destruct (includes _ _); [| discriminate].
    destruct (getUTCFullYear d); [| discriminate].
    intros E. injection E as E. eapply TimeClip_timeValue, E.
Qed.

Lemma multiplierAt_kernel64 host p tag ctx t c pk w :
  kind p = spike -> peakImpact p = Fin pk -> widthDays p = Some (Fin w) ->
  resolveCenter p tag ctx (ValidDate t) = Some (ValidDate c) ->
  Binary64.multiplierAt host p tag ctx (ValidDate t)
  = gaussian64 (exp host) (F64.lit pk) (F64.lit w) t c.
Proof.
  intros K P W C. unfold Binary64.multiplierAt. rewrite K, C, P, W. reflexivity.
Qed.

Lemma catalog_spike_parameters tag p :
  ownProperty EVENT_PROFILES tag = Some p -> kind p = spike ->
  exists pk w peak sigma,
    peakImpact p = Fin pk /\ widthDays p = Some (Fin w)
    /\ F64.lit pk = Fin peak /\ sigma64 (F64.lit w) = Fin sigma
    /\ 0 <= peak <= 1 /\ rndQ peak == peak /\ 3 <= sigma <= 16
    /\ rndQ (1 + rndQ (peak * (1 - (1 # 2048)))) < rndQ (1 + peak).
Proof.
  intros O K. cbn in O.
  repeat match type of O with
         | (if ?b then _ else _) = _ => destruct b; [injection O as <- | ]
         end; try discriminate.
  - exists 0.32, 24, (rndQ 0.32), (rndQ (rndQ 24 / rndQ 2.355)).
    repeat split; try reflexivity; try (vm_compute; reflexivity); closedQ.
  - exists 0.12, 12, (rndQ 0.12), (rndQ (rndQ 12 / rndQ 2.355)).
    repeat split; try reflexivity; try (vm_compute; reflexivity); closedQ.
  - exists 0.1, 10, (rndQ 0.1), (rndQ (rndQ 10 / rndQ 2.355)).
    repeat split; try reflexivity; try (vm_compute; reflexivity); closedQ.
Qed.

Lemma difference_abs (t c : Z) :
  Qabs (inject_Z t + - inject_Z c) == inject_Z (Z.abs (t - c)).
Proof.
  rewrite <- inject_Z_opp, <- inject_Z_plus.
  unfold Qabs, inject_Z. cbn. reflexivity.
Qed.

End SpikeKernel64.

Section ExpModels.
Local Open Scope Q_scope.

Lemma expModel_sane : saneExp expModel.
Proof.
  split; [| split; [| split]].
  - intros x y H. destruct (Qeq_dec x y) as [E | N].
    + rewrite (expModel_respectsEq x y E). apply Qle_refl.
    + apply Qlt_le_weak, expModel_increasing. lra.
  - reflexivity.
  - intros x H. apply expModel_unitRange, H.
  - closedQ.
Qed.

End ExpModels.




(* ================================================================= *)
(** ** CurveBuilder: every multiplier stays within the peak impact *)

Section Bounds.

Local Open Scope Q_scope.

Variable host : Host.
Variable p : EventProfile.
Variable tag : string.
Variable ctx : Context.
Variable pk : Q.
Hypothesis p_peak : peakImpact p = Fin pk.

Lemma withinPeak_scaled f : 0 <= f <= 1 -> withinPeak pk (1 + pk * f).
Proof. intros F. split; intros P; nra. Qed.

(** Dip, ramp and step over a window of valid, distinct ends. *)
Lemma window_multiplier_bounds t s e :
  kind p = dip \/ kind p = ramp \/ kind p = step ->
  resolveWindow p (ValidDate t) = Some (ValidDate s, ValidDate e) ->
  (s < e)%Z ->
  exists m, multiplierAt host p tag ctx (ValidDate t) = Fin m /\ withinPeak pk m.
Proof.
  intros K W SE.
  assert (U : multiplierAt host p tag ctx (ValidDate t)
              = (Fin 1
                 + (if outsideWindow (ValidDate t) (ValidDate s, ValidDate e)
                    then Fin 0
                    else
                      let t :=
                        Math_min (Fin 1)
                          (Math_max (Fin 0)
                             (Fin ((inject_Z t + - inject_Z s)
                                   / (inject_Z e + - inject_Z s)))) in
                      match kind p with
                      | dip =>
                          peakImpact p
                          * (Fin 1
                             - Math_min (Fin 1)
                                 ((t - Fin 0.5) * (t - Fin 0.5) * Fin 4))
                      | ramp => peakImpact p * t
                      | step => peakImpact p
                      | _ => Fin 0
                      end))%num).
  { assert (Nz : Qzero_b (inject_Z e + - inject_Z s) = false).
    { apply Qzero_b_false. rewrite Zlt_Qlt in SE. lra. }
    unfold multiplierAt. rewrite W.
    cbn [fst snd getTime of_Z Num.sub Num.neg Num.add Num.div]. rewrite Nz.
    destruct K as [K | [K | K]]; rewrite K; reflexivity. }
  rewrite U. clear U.
  destruct (outsideWindow _ _).
  { exists (1 + 0). split; [reflexivity|]. split; intros; lra. }
  cbv zeta.
  destruct (clamp_unit ((inject_Z t + - inject_Z s)
                        / (inject_Z e + - inject_Z s))) as (r & -> & R).
  rewrite p_peak.
  destruct K as [K | [K | K]]; rewrite K.
  - cbn [Num.sub Num.neg Num.add Num.mul].
    match goal with
    | |- context [Math_min (Fin 1) (Fin ?x)] =>
        destruct (Math_min_Fin 1 x) as (v & -> & V1 & _ & V)
    end.
    cbn [Num.sub Num.neg Num.add Num.mul].
    eexists. split; [reflexivity|]. apply withinPeak_scaled.
    destruct V as [-> | ->]; [lra|].
    set (u := r + - (0.5)) in *. nra.
  - cbn [Num.mul Num.add]. eexists. split; [reflexivity|].
    apply withinPeak_scaled. assumption.
  - cbn [Num.add]. eexists. split; [reflexivity|]. split; intros; lra.
Qed.

End Bounds.

Section CatalogDates.

Lemma MakeFullYear_range y :
  yearInRange y -> -271819 <= MakeFullYear y <= 275759.
Proof.
  unfold yearInRange, MakeFullYear. intros.
  destruct (Z.leb_spec 0 y), (Z.leb_spec y 99); cbn [andb]; lia.
Qed.

Lemma MakeDay_carry y m d : MakeDay y m d = MakeDay (y + m / 12) (m mod 12) d.
Proof.
  unfold MakeDay.
  rewrite Z.mod_mod by lia.
  rewrite (Z.div_small (m mod 12) 12) by (apply Z.mod_pos_bound; lia).
  rewrite Z.add_0_r. reflexivity.
Qed.

(** [makeUTCDate] of a year in range is a valid date, for every month
    from eleven months before January to December. *)
Lemma makeUTCDate_valid y m d :
  yearInRange y -> -10 <= m <= 12 -> 1 <= d <= 31 ->
  makeUTCDate (Some y) m d = dayDate (MakeDay (MakeFullYear y) (m - 1) d).
Proof.
  intros R Hm Hd. pose proof (MakeFullYear_range y R) as F.
  unfold makeUTCDate, utcDate, Date_UTC.
  rewrite (MakeDay_carry (MakeFullYear y) (m - 1) d).
  apply MakeDay_valid.
  - unfold representableYear.
    assert (-1 <= (m - 1) / 12 <= 0)
      by (Z.to_euclidean_division_equations; lia).
    lia.
  - apply Z.mod_pos_bound. lia.
  - assumption.
Qed.

Variable p : EventProfile.
Variable tag : string.
Variable ctx : Context.
Variable t : Z.
Hypothesis t_year : yearInRange (YearFromTime t).

(** A window that starts and ends in this order within one year resolves,
    for a valid date, to two valid dates in that order. *)
Lemma resolveWindow_same_year win :
  window p = Some win ->
  1 <= md_m (w_start win) <= 12 -> 1 <= md_d (w_start win) <= 31 ->
  1 <= md_m (w_end win) <= 12 -> 1 <= md_d (w_end win) <= 31 ->
  (forall leap,
     monthStart leap (md_m (w_start win) - 1) + md_d (w_start win)
     < monthStart leap (md_m (w_end win) - 1) + md_d (w_end win)) ->
  exists s e, resolveWindow p (ValidDate t) = Some (ValidDate s, ValidDate e)
              /\ s < e.
Proof.
  intros W Ms Ds Me De Lt. unfold resolveWindow. rewrite W.
  cbn [getUTCFullYear].
  rewrite !makeUTCDate_valid by (assumption || lia).
  set (y := MakeFullYear (YearFromTime t)).
  assert (O : MakeDay y (md_m (w_start win) - 1) (md_d (w_start win))
              < MakeDay y (md_m (w_end win) - 1) (md_d (w_end win))).
  { rewrite !MakeDay_month by lia. specialize (Lt (isLeapYear y)). lia. }
  rewrite dayDate_lt.
  destruct (Z.ltb_spec (MakeDay y (md_m (w_end win) - 1) (md_d (w_end win)))
                       (MakeDay y (md_m (w_start win) - 1) (md_d (w_start win))));
    [lia|].
  eexists _, _. split; [reflexivity|]. unfold msPerDay. lia.
Qed.

Lemma resolveCenter_valid :
  (forall c, center p = Some c -> 1 <= md_m c <= 12 /\ 1 <= md_d c <= 31) ->
  resolveCenter p tag ctx (ValidDate t) = None
  \/ exists c, resolveCenter p tag ctx (ValidDate t) = Some (ValidDate c).
Proof.
  intros C. unfold resolveCenter. cbn [getUTCFullYear].
  destruct (center p) as [c|].
  - destruct (C c eq_refl). right.
    rewrite makeUTCDate_valid by (assumption || lia). eexists. reflexivity.
  - destruct (dealer ctx) as [dl|]; [|left; reflexivity].
    destruct (includes _ _); [|left; reflexivity]. right.
    rewrite makeUTCDate_valid; [eexists; reflexivity | assumption | | lia].
    pose proof (Z.rem_bound_abs
                  (if dealer_id dl =? 0 then 1 else dealer_id dl) 12).
    assert (Z.abs (Z.rem (if dealer_id dl =? 0 then 1 else dealer_id dl) 12)
            < 12) by lia.
    lia.
Qed.

End CatalogDates.




(* ================================================================= *)
(** ** DateNormalizer: the sequence-level fallback *)

Section Fallback.

Lemma sameValueZero_refl a : sameValueZero a a = true.
Proof.
  destruct a; simpl; auto using String.eqb_refl, Z.eqb_refl, Nat.eqb_refl.
Qed.

Lemma sameValueZero_sym a b : sameValueZero a b = sameValueZero b a.
Proof.
  destruct a, b; simpl; auto using String.eqb_sym, Z.eqb_sym, Nat.eqb_sym.
Qed.

Lemma sameValueZero_trans a b c :
  sameValueZero a b = true -> sameValueZero b c = true ->
  sameValueZero a c = true.
Proof.
  destruct a, b, c; simpl; try discriminate; auto.
  - rewrite !String.eqb_eq. congruence.
  - rewrite !Z.eqb_eq. congruence.
  - rewrite !Nat.eqb_eq. congruence.
Qed.

Lemma distinct_nil xs : distinct xs = [] -> xs = [].
Proof.
  induction xs as [|x xs IH]; [reflexivity|]. simpl.
  destruct (existsb (sameValueZero x) xs) eqn:E; [|discriminate].
  intros H. rewrite (IH H) in E. discriminate.
Qed.

(** A set of size at most one: all members are the same value. *)
Lemma distinct_one_all_same xs :
  (length (distinct xs) <= 1)%nat <->
  (forall a b, In a xs -> In b xs -> sameValueZero a b = true).
Proof.
  induction xs as [|x xs IH].
  - split; [intros _ a b [] | simpl; lia].
  - simpl. destruct (existsb (sameValueZero x) xs) eqn:E.
    + rewrite IH. apply existsb_exists in E as (y & Y & XY).
      split.
      * intros H.
        assert (X : forall a, In a xs -> sameValueZero x a = true).
        { intros a A.
          eapply sameValueZero_trans; [exact XY | apply H; assumption]. }
        intros a b [<- | A] [<- | B]; auto using sameValueZero_refl.
        rewrite sameValueZero_sym. auto.
      * intros H a b A B. apply H; right; assumption.
    + split.
      * simpl. intros H.
        assert (N : xs = []).
        { apply distinct_nil.
          destruct (distinct xs); [reflexivity | simpl in H; lia]. }
        subst xs. intros a b [<- | []] [<- | []]. apply sameValueZero_refl.
      * intros H. destruct xs as [|y xs]; [simpl; lia|].
        exfalso.
        assert (T : sameValueZero x y = true) by (apply H; simpl; auto).
        simpl in E. rewrite T in E. discriminate.
Qed.

Lemma filter_all (f : Label -> bool) xs :
  existsb (fun v => negb (f v)) xs = false -> filter f xs = xs.
Proof.
  induction xs as [|x xs IH]; simpl; [reflexivity|].
  intros H. apply orb_false_iff in H as (X & R).
  apply negb_false_iff in X. rewrite X, (IH R). reflexivity.
Qed.

(** The test of [resolvePointDates], read as a property of the labels. *)
Lemma fallback_test raw :
  (length (distinct (filter label_truthy raw)) <=? 1)%nat
  || existsb (fun value => negb (label_truthy value)) raw = true
  <-> degenerate raw.
Proof.
  unfold degenerate.
  destruct (existsb (fun value => negb (label_truthy value)) raw) eqn:B.
  - rewrite orb_true_r. split; [intros _ | reflexivity]. left.
    apply existsb_exists in B as (v & V & N). exists v.
    split; [assumption | apply negb_true_iff, N].
  - rewrite orb_false_r, (filter_all _ _ B), Nat.leb_le, distinct_one_all_same.
    split; [auto|]. intros [(v & V & N) | H]; [|exact H].
    exfalso.
    assert (T : existsb (fun value => negb (label_truthy value)) raw = true).
    { apply existsb_exists. exists v. rewrite N. auto. }
    congruence.
Qed.

End Fallback.

(** C9 (as amended).  For a non-empty point sequence the labels are
    replaced by the daily sequence that starts tomorrow (label [i] is the
    ISO day of the clock plus [i + 1] days) exactly when some label is
    absent or blank or all labels are one and the same value; otherwise
    the original labels are returned unchanged.  The length is kept in
    both cases. *)
Theorem resolvePointDates_fallback (host : Host) (points : list ForecastPoint) :
  points <> [] ->
  (degenerate (map date points) ->
   resolvePointDates host points = buildDailyLabels host (length points))
  /\ (~ degenerate (map date points) ->
      resolvePointDates host points = Some (map date points))
  /\ (forall labels, resolvePointDates host points = Some labels ->
        length labels = length points)
  /\ (forall labels i,
        buildDailyLabels host (length points) = Some labels ->
        (i < length points)%nat ->
        nth_error labels i
        = Some (LString
                  (isoPrefix (clock host + (Z.of_nat i + 1) * 86400000)))).
Proof.
  intros NE. pose proof (fallback_test (map date points)) as T.
  repeat split.
  - intros D. apply T in D. unfold resolvePointDates.
    destruct points; [congruence|]. rewrite D. reflexivity.
  - intros D. unfold resolvePointDates. destruct points; [congruence|].
    destruct (_ || _); [|reflexivity]. exfalso. apply D, T. reflexivity.
  - intros labels. apply resolvePointDates_length.
  - intros labels i. apply buildDailyLabels_nth.
Qed.

Lemma resolvePointDates_fallback_witness :
  (degenerate (map date flatHundred) ->
   resolvePointDates sampleHost flatHundred
   = buildDailyLabels sampleHost (length flatHundred))
  /\ (~ degenerate (map date flatHundred) ->
      resolvePointDates sampleHost flatHundred = Some (map date flatHundred))
  /\ (forall labels, resolvePointDates sampleHost flatHundred = Some labels ->
        length labels = length flatHundred)
  /\ (forall labels i,
        buildDailyLabels sampleHost (length flatHundred) = Some labels ->
        (i < length flatHundred)%nat ->
        nth_error labels i
        = Some (LString
                  (isoPrefix (clock sampleHost + (Z.of_nat i + 1) * 86400000)))).
Proof.
  apply (resolvePointDates_fallback sampleHost flatHundred). discriminate.
Defined.

(** C9 fails when only some labels are blank.  Of three labels the
    second is the empty string: the sequence is neither blank throughout
    nor one repeated value, and yet it is replaced by the days from
    tomorrow (the clock reads 2024-02-29). *)
Lemma partly_blank_labels_are_replaced :
  let points := [ pointAt (LString "2024-01-01") 100;
                  pointAt (LString "") 100;
                  pointAt (LString "2024-01-03") 100 ] in
  ~ entirelyDegenerate (map date points)
  /\ resolvePointDates sampleHost points
     = Some [ LString "2024-03-01"; LString "2024-03-02"; LString "2024-03-03" ]
  /\ resolvePointDates sampleHost points <> Some (map date points).
Proof.
  cbv zeta. split; [|split].
  - intros [B | S].
    + specialize (B (LString "2024-01-01")). simpl in B.
      assert (F : true = false) by (apply B; auto). discriminate.
    + specialize (S (LString "2024-01-01") (LString "2024-01-03")).
      simpl in S.
      assert (F : false = true) by (apply S; auto). discriminate.
  - vm_compute. reflexivity.
  - vm_compute. discriminate.
Qed.

(* ================================================================= *)
(** ** SeriesDownsampler *)

Section Downsampler.

Local Open Scope nat_scope.

Context {A : Type}.

(** Within the budget the series is returned as it is. *)
Lemma downsamplePoints_within_budget (points : list A) maxPoints :
  length points <= maxPoints ->
  downsamplePoints points maxPoints = points.
Proof.
  intros L. unfold downsamplePoints.
  apply Nat.leb_le in L. rewrite L. reflexivity.
Qed.

(** A second pass changes nothing when the first result fits the budget
    of the second. *)
Lemma downsamplePoints_again (points : list A) n m :
  length (downsamplePoints points n) <= m ->
  downsamplePoints (downsamplePoints points n) m = downsamplePoints points n.
Proof. apply downsamplePoints_within_budget. Qed.

Lemma subseq_refl (xs : list A) : subseq xs xs.
Proof. induction xs; constructor; assumption. Qed.

Lemma filteri_from_subseq keep (xs : list A) : forall i,
  subseq (filteri_from keep i xs) xs.
Proof.
  induction xs as [|x xs IH]; intros i; simpl; [constructor|].
  destruct (keep i); constructor; apply IH.
Qed.

Lemma filteri_from_app keep (xs ys : list A) : forall i,
  filteri_from keep i (xs ++ ys)
  = filteri_from keep i xs ++ filteri_from keep (i + length xs) ys.
Proof.
  induction xs as [|x xs IH]; intros i; simpl.
  - rewrite Nat.add_0_r. reflexivity.
  - rewrite IH. replace (S i + length xs) with (i + S (length xs)) by lia.
    destruct (keep i); reflexivity.
Qed.

Lemma downsamplePoints_subseq (points : list A) maxPoints :
  subseq (downsamplePoints points maxPoints) points.
Proof.
  unfold downsamplePoints. destruct (_ <=? _).
  - apply subseq_refl.
  - apply filteri_from_subseq.
Qed.

Lemma remStep_0 step : remStep 0 step = 0.
Proof. destruct step as [s|]; [apply Nat.Div0.mod_0_l | reflexivity]. Qed.

Lemma downsamplePoints_keeps_first (x : A) rest maxPoints :
  exists kept, downsamplePoints (x :: rest) maxPoints = x :: kept.
Proof.
  unfold downsamplePoints. destruct (_ <=? _); [eauto|].
  unfold filteri. cbn [filteri_from]. rewrite remStep_0. cbn [Nat.eqb orb].
  eauto.
Qed.

Lemma downsamplePoints_keeps_last (init : list A) z maxPoints :
  exists kept, downsamplePoints (init ++ [z]) maxPoints = kept ++ [z].
Proof.
  unfold downsamplePoints. destruct (_ <=? _); [eauto|].
  unfold filteri. rewrite filteri_from_app. cbn [filteri_from].
  rewrite length_app. cbn [length].
  replace (0 + length init =? length init + 1 - 1) with true
    by (symmetry; apply Nat.eqb_eq; lia).
  rewrite orb_true_r. eauto.
Qed.

Lemma multiplesBelow_succ s i :
  1 <= s ->
  multiplesBelow s (S i)
  = multiplesBelow s i + (if i mod s =? 0 then 1 else 0).
Proof.
  intros S1. unfold multiplesBelow.
  pose proof (Nat.div_mod_eq i s) as D.
  pose proof (Nat.mod_upper_bound i s ltac:(lia)) as B.
  set (q := i / s) in *. set (r := i mod s) in *.
  destruct (Nat.eqb_spec r 0) as [E | E].
  - rewrite <- (Nat.div_unique (S i + s - 1) s (q + 1) 0) by lia.
    rewrite <- (Nat.div_unique (i + s - 1) s q (s - 1)) by lia.
    reflexivity.
  - rewrite <- (Nat.div_unique (S i + s - 1) s (q + 1) r) by lia.
    rewrite <- (Nat.div_unique (i + s - 1) s (q + 1) (r - 1)) by lia.
    lia.
Qed.

(** The strided sample of the positions [i .. i + length xs) counts the
    multiples of the stride among them. *)
Lemma strided_count (s : nat) (xs : list A) : forall i,
  1 <= s ->
  length (filteri_from (fun k => k mod s =? 0) i xs) + multiplesBelow s i
  = multiplesBelow s (i + length xs).
Proof.
  induction xs as [|x xs IH]; intros i S1; simpl.
  - rewrite Nat.add_0_r. reflexivity.
  - replace (i + S (length xs)) with (S i + length xs) by lia.
    rewrite <- (IH (S i) S1), multiplesBelow_succ by assumption.
    destruct (i mod s =? 0); simpl; lia.
Qed.

Lemma filteri_from_or_length (a b : nat -> bool) (xs : list A) : forall i,
  length (filteri_from (fun k => a k || b k) i xs)
  <= length (filteri_from a i xs) + length (filteri_from b i xs).
Proof.
  induction xs as [|x xs IH]; intros i; simpl; [lia|].
  specialize (IH (S i)). destruct (a i), (b i); simpl; lia.
Qed.

Lemma filteri_from_single_length c (xs : list A) : forall i,
  length (filteri_from (fun k => k =? c) i xs) <= 1.
Proof.
  induction xs as [|x xs IH]; intros i; simpl; [lia|].
  destruct (Nat.eqb_spec i c) as [E | E]; [|apply IH].
  simpl. assert (Z : length (filteri_from (fun k => k =? c) (S i) xs) = 0).
  { clear IH. subst c. generalize (S i) (Nat.lt_succ_diag_r i).
    induction xs as [|y ys IH]; intros j J; simpl; [reflexivity|].
    destruct (Nat.eqb_spec j i); [lia|]. apply IH. lia. }
  lia.
Qed.

(** The strided sample has at most [maxPoints] points; the last point may
    come on top. *)
Lemma downsamplePoints_length (points : list A) maxPoints :
  1 <= maxPoints ->
  length (downsamplePoints points maxPoints) <= maxPoints + 1.
Proof.
  intros N1. unfold downsamplePoints.
  destruct (Nat.leb_spec (length points) maxPoints) as [L | L]; [lia|].
  unfold ceilDiv. destruct maxPoints as [|n]; [lia|].
  set (N := S n) in *. set (len := length points) in *.
  set (s := (len + N - 1) / N).
  assert (S1 : 1 <= s).
  { subst s. apply Nat.div_le_lower_bound; lia. }
  assert (NS : len <= N * s).
  { subst s. pose proof (Nat.div_mod_eq (len + N - 1) N) as D.
    pose proof (Nat.mod_upper_bound (len + N - 1) N ltac:(lia)) as B. lia. }
  unfold filteri, remStep.
  eapply Nat.le_trans; [apply filteri_from_or_length|].
  pose proof (filteri_from_single_length (len - 1) points 0) as One.
  pose proof (strided_count s points 0 S1) as C.
  assert (M0 : multiplesBelow s 0 = 0).
  { unfold multiplesBelow. apply Nat.div_small. lia. }
  assert (MN : multiplesBelow s len <= N).
  { unfold multiplesBelow.
    apply Nat.lt_succ_r. apply Nat.Div0.div_lt_upper_bound. lia. }
  fold len in C. simpl in C. lia.
Qed.

End Downsampler.

(** What the downsampler does keep of its contract: for a budget of at
    least 1 the result is a subsequence of the series with at most
    [maxPoints + 1] points, beginning with the first point of the series
    and ending with its last. *)
Theorem downsamplePoints_contract
    (A : Type) (points : list A) (maxPoints : nat) :
  (1 <= maxPoints)%nat ->
  subseq (downsamplePoints points maxPoints) points
  /\ (length (downsamplePoints points maxPoints) <= maxPoints + 1)%nat
  /\ (forall x rest, points = x :: rest ->
        exists kept, downsamplePoints points maxPoints = x :: kept)
  /\ (forall init z, points = init ++ [z] ->
        exists kept, downsamplePoints points maxPoints = kept ++ [z]).
Proof.
  intros N1. split; [apply downsamplePoints_subseq|].
  split; [apply downsamplePoints_length; assumption|]. split.
  - intros x rest ->. apply downsamplePoints_keeps_first.
  - intros init z ->. apply downsamplePoints_keeps_last.
Qed.

Lemma downsamplePoints_contract_witness :
  subseq (downsamplePoints [0; 1; 2; 3; 4]%nat 2) [0; 1; 2; 3; 4]%nat
  /\ (length (downsamplePoints [0; 1; 2; 3; 4]%nat 2) <= 2 + 1)%nat
  /\ (forall x rest, [0; 1; 2; 3; 4]%nat = x :: rest ->
        exists kept, downsamplePoints [0; 1; 2; 3; 4]%nat 2 = x :: kept)
  /\ (forall init z, [0; 1; 2; 3; 4]%nat = init ++ [z] ->
        exists kept, downsamplePoints [0; 1; 2; 3; 4]%nat 2 = kept ++ [z]).
Proof.
  apply (downsamplePoints_contract nat [0; 1; 2; 3; 4]%nat 2). lia.
Defined.

(** C3, at inputs where the code departs from it.  Five points with a
    budget of 2 are sampled at stride 3 and the last point is added: 3
    points.  Of 89 points with a budget of 30, 31 are returned. *)
Theorem downsamplePoints_exceeds_budget :
  downsamplePoints [0; 1; 2; 3; 4]%nat 2 = [0; 3; 4]%nat
  /\ length (downsamplePoints (seq 0 89) 30) = 31%nat.
Proof. split; reflexivity. Qed.

(** C4, at an input where the code departs from it.  Downsampling five
    points with a budget of 2 gives three points, and downsampling these
    three with the same budget gives two. *)
Theorem downsamplePoints_twice_differs :
  downsamplePoints [0; 1; 2; 3; 4]%nat 2 = [0; 3; 4]%nat
  /\ downsamplePoints (downsamplePoints [0; 1; 2; 3; 4]%nat 2) 2 = [0; 4]%nat
  /\ length (downsamplePoints (downsamplePoints (seq 0 89) 30) 30) = 16%nat.
Proof. repeat split; reflexivity. Qed.

(* ================================================================= *)
(** ** Calendar: the getters invert [MakeDay]; digits *)

Lemma YearFromDay_interval day :
  DayFromYear (YearFromDay day) <= day < DayFromYear (YearFromDay day + 1).
Proof.
  unfold YearFromDay. set (e := 1970 + day * 400 / 146097).
  assert (B : DayFromYear (e - 1) <= day < DayFromYear (e + 1 + 1)).
  { subst e. unfold DayFromYear. Z.to_euclidean_division_equations; lia. }
  destruct (Z.leb_spec (DayFromYear (e + 1)) day).
  - lia.
  - destruct (Z.leb_spec (DayFromYear e) day).
    + lia.
    + replace (e - 1 + 1) with e by lia. lia.
Qed.

Lemma monthOfDay_range leap d : 0 <= monthOfDay leap d < 12.
Proof.
  unfold monthOfDay.
  repeat match goal with
         | |- context [?a <? ?b] => destruct (a <? b); [lia|]
         end.
  lia.
Qed.

Lemma monthOfDay_interval (leap : bool) (d : Z) :
  0 <= d < (if leap then 366 else 365) ->
  monthStart leap (monthOfDay leap d) <= d
  /\ d - monthStart leap (monthOfDay leap d) < 31.
Proof.
  intros H. unfold monthOfDay. destruct leap; cbv [monthStart];
  repeat match goal with
         | |- context [?a <? ?b] => destruct (Z.ltb_spec a b); [lia|]
         end; lia.
Qed.

(** Year, month and day of a time value make its day number again. *)
Lemma MakeDay_of_getters t :
  MakeDay (YearFromTime t) (MonthFromTime t) (DateFromTime t) = Day t
  /\ 0 <= MonthFromTime t < 12 /\ 1 <= DateFromTime t <= 31.
Proof.
  pose proof (YearFromDay_interval (Day t)) as I.
  fold (YearFromTime t) in I.
  pose proof (DayFromYear_succ (YearFromTime t)) as S. rewrite S in I.
  assert (W : 0 <= DayWithinYear t < (if isLeapYear (YearFromTime t) then 366 else 365)).
  { unfold DayWithinYear. unfold DaysInYear in I. destruct (isLeapYear _); lia. }
  pose proof (monthOfDay_range (isLeapYear (YearFromTime t)) (DayWithinYear t)) as M.
  pose proof (monthOfDay_interval _ _ W) as (M1 & M2).
  fold (MonthFromTime t) in M, M1, M2.
  split; [|split; [exact M|]].
  - rewrite MakeDay_month by exact M. unfold DateFromTime.
    cbv zeta. unfold DayWithinYear. lia.
  - unfold DateFromTime. cbv zeta. lia.
Qed.

Lemma digit_range c k : digit c = Some k -> 0 <= k <= 9.
Proof.
  unfold digit. cbv zeta.
  destruct (Z.leb_spec 48 (Z.of_nat (nat_of_ascii c))),
           (Z.leb_spec (Z.of_nat (nat_of_ascii c)) 57); cbn [andb];
    intros E; try discriminate. injection E as <-. lia.
Qed.

Lemma digit_digitChar n : digit (digitChar n) = Some (n mod 10).
Proof.
  unfold digitChar.
  pose proof (Z.mod_pos_bound n 10 ltac:(lia)) as B.
  assert (C : n mod 10 = 0 \/ n mod 10 = 1 \/ n mod 10 = 2 \/ n mod 10 = 3
              \/ n mod 10 = 4 \/ n mod 10 = 5 \/ n mod 10 = 6 \/ n mod 10 = 7
              \/ n mod 10 = 8 \/ n mod 10 = 9) by lia.
  repeat (destruct C as [C | C]); rewrite C; reflexivity.
Qed.

Lemma matchIsoDate_padded y m d :
  0 <= y <= 9999 -> 0 <= m <= 99 -> 0 <= d <= 99 ->
  matchIsoDate (padded 4 y ++ "-" ++ padded 2 m ++ "-" ++ padded 2 d)%string
  = Some (y, m, d).
Proof.
  intros Hy Hm Hd. cbn [padded append matchIsoDate].
  rewrite !digit_digitChar.
  f_equal. f_equal; [f_equal|]; Z.to_euclidean_division_equations; lia.
Qed.

(* ================================================================= *)
(** ** DateNormalizer: truncation to the UTC day *)

Lemma Day_valid t : Z.abs t <= maxTime -> Z.abs (Day t * msPerDay) <= maxTime.
Proof.
  unfold Day, msPerDay, maxTime. intros H.
  Z.to_euclidean_division_equations; lia.
Qed.

Lemma Day_dayDate n : Day (n * msPerDay) = n.
Proof. unfold Day, msPerDay. apply Z.div_mul. lia. Qed.

Lemma utcDay_literal t :
  Z.abs t <= maxTime -> literalYear (YearFromTime t) ->
  utcDay (ValidDate t) = dayDate (Day t).
Proof.
  intros V L. unfold utcDay. cbn [getUTCFullYear getUTCMonth getUTCDate utcDate].
  unfold Date_UTC. rewrite MakeFullYear_literal by assumption.
  destruct (MakeDay_of_getters t) as [-> _].
  unfold TimeClip. apply Day_valid in V.
  destruct (Z.leb_spec (Z.abs (Day t * msPerDay)) maxTime); [reflexivity | lia].
Qed.

Lemma utcDay_two_digit t :
  0 <= YearFromTime t <= 99 ->
  utcDay (ValidDate t)
  = dayDate (MakeDay (1900 + YearFromTime t) (MonthFromTime t) (DateFromTime t)).
Proof.
  intros R. unfold utcDay. cbn [getUTCFullYear getUTCMonth getUTCDate utcDate].
  unfold Date_UTC, MakeFullYear.
  destruct (Z.leb_spec 0 (YearFromTime t)); [|lia].
  destruct (Z.leb_spec (YearFromTime t) 99); [|lia]. cbn [andb].
  destruct (MakeDay_of_getters t) as (_ & M & D).
  apply MakeDay_valid; unfold representableYear; lia.
Qed.

Lemma toUTCDate_denotes host label t :
  denotes host label t -> toUTCDate host label = Some (utcDay (ValidDate t)).
Proof.
  destruct label as [|s|n|r d]; cbn [denotes]; try tauto.
  - intros (NE & M & P). unfold toUTCDate. cbn [label_truthy].
    destruct (String.eqb_spec s ""); [contradiction|]. cbn [negb].
    rewrite M. cbn [newDate]. rewrite P. reflexivity.
  - intros (NZ & V & ->). unfold toUTCDate. cbn [label_truthy].
    destruct (Z.eqb_spec t 0); [contradiction|]. cbn [negb newDate].
    unfold TimeClip. destruct (Z.leb_spec (Z.abs t) maxTime); [reflexivity|lia].
  - intros ->. reflexivity.
Qed.

(** The date normaliser truncates to the UTC day.  For a Date instance, a
    number other than 0 or a string the host parses, with time value
    [t] in the time range: when the year of [t] is none of 0..99 the
    result is midnight UTC of the day of [t], at most one day before
    [t], and normalising the result again returns it; when the year is
    one of 0..99 the result is the same month and day 1900 years later,
    as [Date.UTC] reads such years. *)
Theorem toUTCDate_truncates (host : Host) (label : Label) (t : Z) :
  denotes host label t -> Z.abs t <= maxTime ->
  (literalYear (YearFromTime t) ->
     toUTCDate host label = Some (dayDate (Day t))
     /\ Day t * msPerDay <= t < (Day t + 1) * msPerDay
     /\ forall r, toUTCDate host (LDateObj r (dayDate (Day t)))
                  = Some (dayDate (Day t)))
  /\ (0 <= YearFromTime t <= 99 ->
        toUTCDate host label
        = Some (dayDate (MakeDay (1900 + YearFromTime t)
                                 (MonthFromTime t) (DateFromTime t)))).
Proof.
  intros D V. split.
  - intros L. rewrite (toUTCDate_denotes _ _ _ D), utcDay_literal by assumption.
    split; [reflexivity|]. split.
    + unfold Day, msPerDay. Z.to_euclidean_division_equations; lia.
    + intros r. cbn [toUTCDate label_truthy negb]. unfold dayDate.
      rewrite utcDay_literal.
      * now rewrite Day_dayDate.
      * now apply Day_valid.
      * unfold YearFromTime. now rewrite Day_dayDate.
  - intros R. rewrite (toUTCDate_denotes _ _ _ D). now rewrite utcDay_two_digit.
Qed.

Lemma toUTCDate_truncates_witness :
  (literalYear (YearFromTime 1709168400000) ->
     toUTCDate sampleHost (LNumber 1709168400000) = Some (dayDate (Day 1709168400000))
     /\ Day 1709168400000 * msPerDay <= 1709168400000
        < (Day 1709168400000 + 1) * msPerDay
     /\ forall r, toUTCDate sampleHost (LDateObj r (dayDate (Day 1709168400000)))
                  = Some (dayDate (Day 1709168400000)))
  /\ (0 <= YearFromTime 1709168400000 <= 99 ->
        toUTCDate sampleHost (LNumber 1709168400000)
        = Some (dayDate (MakeDay (1900 + YearFromTime 1709168400000)
                  (MonthFromTime 1709168400000) (DateFromTime 1709168400000)))).
Proof.
  apply (toUTCDate_truncates sampleHost (LNumber 1709168400000) 1709168400000).
  - cbn [denotes]. unfold maxTime. repeat split; lia.
  - unfold maxTime. lia.
Defined.

(* ================================================================= *)
(** ** DateNormalizer: ISO-shaped labels and [formatDate] *)

Ltac no_match H := cbv beta iota in H; discriminate H.

Ltac next_char H s := destruct s as [|? s]; [no_match H|]; cbv beta iota in H.

Ltac dash H :=
  match type of H with
  | context [match ?c with Ascii _ _ _ _ _ _ _ _ => _ end] =>
      destruct c as [[] [] [] [] [] [] [] []]; try (no_match H)
  end; cbv beta iota in H.

Lemma matchIsoDate_range s y m d :
  matchIsoDate s = Some (y, m, d) ->
  0 <= y <= 9999 /\ 0 <= m <= 99 /\ 0 <= d <= 99 /\ s <> ""%string.
Proof.
  unfold matchIsoDate. intros H.
  do 5 next_char H s. dash H.
  do 3 next_char H s. dash H.
  do 2 next_char H s.
  destruct s; [|no_match H]. cbv beta iota in H.
  repeat match type of H with
         | context [digit ?c] =>
             let E := fresh "E" in
             destruct (digit c) eqn:E; [apply digit_range in E | discriminate H]
         end.
  match type of H with
  | Some (?a, ?b, ?c) = _ =>
      assert (y = a /\ m = b /\ d = c) as (-> & -> & ->)
        by (repeat split; congruence)
  end.
  split; [lia|]. split; [lia|]. split; [lia|]. intros X; discriminate X.
Qed.

Ltac evalDays y :=
  let v := eval vm_compute in (DayFromYear y) in
  change (DayFromYear y) with v in *.

Lemma DayFromYear_mono x y : x <= y -> DayFromYear x <= DayFromYear y.
Proof. unfold DayFromYear. intros. Z.to_euclidean_division_equations; lia. Qed.

Lemma YearFromDay_mono a b : a <= b -> YearFromDay a <= YearFromDay b.
Proof.
  intros L.
  pose proof (YearFromDay_interval a) as Ia.
  pose proof (YearFromDay_interval b) as Ib.
  destruct (Z_le_gt_dec (YearFromDay a) (YearFromDay b)) as [|G]; [assumption|].
  pose proof (DayFromYear_mono (YearFromDay b + 1) (YearFromDay a) ltac:(lia)).
  lia.
Qed.

(** Days of the years 0..9999 are valid time values. *)
Lemma four_digit_year_valid n :
  0 <= YearFromDay n <= 9999 -> Z.abs (n * msPerDay) <= maxTime.
Proof.
  intros R. pose proof (YearFromDay_interval n) as I.
  pose proof (DayFromYear_mono 0 (YearFromDay n) ltac:(lia)).
  pose proof (DayFromYear_mono (YearFromDay n + 1) 10000 ltac:(lia)).
  unfold msPerDay, maxTime.
  evalDays 0. evalDays 10000. lia.
Qed.

Lemma iso_string_parses host s y m d :
  matchIsoDate s = Some (y, m, d) ->
  toUTCDate host (LString s) = Some (dayDate (MakeDay (MakeFullYear y) (m - 1) d)).
Proof.
  intros M. pose proof (matchIsoDate_range _ _ _ _ M) as (Ry & Rm & Rd & NE).
  unfold toUTCDate. cbn [label_truthy].
  destruct (String.eqb_spec s ""); [contradiction|]. cbn [negb].
  rewrite M. f_equal. unfold Date_UTC, TimeClip, dayDate.
  assert (B : Z.abs (MakeDay (MakeFullYear y) (m - 1) d * msPerDay) <= maxTime).
  { unfold MakeDay, msPerDay, maxTime. cbv zeta.
    set (ym := MakeFullYear y + (m - 1) / 12).
    assert (Rym : 99 <= ym <= 10008).
    { subst ym. unfold MakeFullYear.
      destruct (Z.leb_spec 0 y), (Z.leb_spec y 99); cbn [andb];
        Z.to_euclidean_division_equations; lia. }
    pose proof (Z.mod_pos_bound (m - 1) 12 ltac:(lia)) as Rmn.
    pose proof (DayFromYear_mono 99 ym ltac:(lia)).
    pose proof (DayFromYear_mono ym 10008 ltac:(lia)).
    evalDays 99. evalDays 10008.
    assert (0 <= monthStart (isLeapYear ym) ((m - 1) mod 12) <= 335).
    { destruct (month_cases _ Rmn) as [E|[E|[E|[E|[E|[E|[E|[E|[E|[E|[E|E]]]]]]]]]]];
        rewrite E; destruct (isLeapYear ym); cbv [monthStart]; lia. }
    lia. }
  destruct (Z.leb_spec (Z.abs (MakeDay (MakeFullYear y) (m - 1) d * msPerDay)) maxTime);
    [reflexivity | lia].
Qed.

(** A label of the shape dddd-dd-dd is never rejected and never handed
    to the host's parser, whatever its digits: the result is the valid
    date that lies [d - 1] days after the first day of month [m] of year
    [y] (years 0..99 read as 1900..1999; month 00 and months beyond 12
    carry into the neighbouring years, days beyond the month into the
    following months).  For a year from 100 on, a month 1..12 and a day
    1..28 it is that calendar day. *)
Theorem iso_label_is_never_rejected (host : Host) (s : string) (y m d : Z) :
  matchIsoDate s = Some (y, m, d) ->
  toUTCDate host (LString s)
  = Some (dayDate (MakeDay (MakeFullYear y) (m - 1) 1 + (d - 1)))
  /\ (100 <= y -> 1 <= m <= 12 -> 1 <= d <= 28 ->
      toUTCDate host (LString s) = Some (civil y m d)
      /\ getUTCFullYear (civil y m d) = Some y
      /\ getUTCMonth (civil y m d) = Some (m - 1)
      /\ getUTCDate (civil y m d) = Some d).
Proof.
  intros M. pose proof (matchIsoDate_range _ _ _ _ M) as (Ry & Rm & Rd & NE).
  rewrite (iso_string_parses host _ _ _ _ M). split.
  - do 2 f_equal. unfold MakeDay. lia.
  - intros Hy Hm Hd.
    rewrite civil_valid by (unfold representableYear; lia).
    rewrite MakeFullYear_literal by (unfold literalYear; lia).
    split; [reflexivity|]. apply getters_of_dayDate; lia.
Qed.

Lemma iso_label_is_never_rejected_witness :
  toUTCDate sampleHost (LString "2024-02-28")
  = Some (dayDate (MakeDay (MakeFullYear 2024) (2 - 1) 1 + (28 - 1)))
  /\ (100 <= 2024 -> 1 <= 2 <= 12 -> 1 <= 28 <= 28 ->
      toUTCDate sampleHost (LString "2024-02-28") = Some (civil 2024 2 28)
      /\ getUTCFullYear (civil 2024 2 28) = Some 2024
      /\ getUTCMonth (civil 2024 2 28) = Some (2 - 1)
      /\ getUTCDate (civil 2024 2 28) = Some 28).
Proof.
  apply (iso_label_is_never_rejected sampleHost "2024-02-28" 2024 2 28).
  reflexivity.
Defined.

(** The ISO prefix of a day of the years 0..9999 is read back as year,
    month (from 1) and day of that day. *)
Lemma matchIsoDate_isoPrefix t :
  0 <= YearFromTime t <= 9999 ->
  matchIsoDate (isoPrefix t)
  = Some (YearFromTime t, MonthFromTime t + 1, DateFromTime t).
Proof.
  intros R. unfold isoPrefix. cbv zeta.
  destruct (Z.leb_spec 0 (YearFromTime t)); [|lia].
  destruct (Z.leb_spec (YearFromTime t) 9999); [|lia]. cbn [andb].
  destruct (MakeDay_of_getters t) as (_ & M & D).
  apply matchIsoDate_padded; lia.
Qed.

Lemma toUTCDate_isoPrefix host t :
  0 <= YearFromTime t <= 9999 ->
  toUTCDate host (LString (isoPrefix t))
  = Some (dayDate (MakeDay (MakeFullYear (YearFromTime t))
                           (MonthFromTime t) (DateFromTime t))).
Proof.
  intros R. rewrite (iso_string_parses host _ _ _ _ (matchIsoDate_isoPrefix t R)).
  now replace (MonthFromTime t + 1 - 1) with (MonthFromTime t) by lia.
Qed.

Lemma toUTCDate_isoPrefix_literal host t :
  100 <= YearFromTime t <= 9999 ->
  toUTCDate host (LString (isoPrefix t)) = Some (dayDate (Day t)).
Proof.
  intros R. rewrite toUTCDate_isoPrefix by lia.
  rewrite MakeFullYear_literal by (unfold literalYear; lia).
  now destruct (MakeDay_of_getters t) as (-> & _).
Qed.

(** [formatDate] and the date normaliser: for a time value of a year
    0..9999 the formatted date has ten characters; the normaliser reads
    it back as midnight UTC of the same day when the year is at least
    100, and as the same month and day 1900 years later when the year is
    one of 0..99. *)
Theorem formatDate_toUTCDate_round_trip (host : Host) (t : Z) :
  0 <= YearFromTime t <= 9999 ->
  exists s,
    formatDate (ValidDate t) = Some s
    /\ String.length s = 10%nat
    /\ (100 <= YearFromTime t ->
        toUTCDate host (LString s) = Some (dayDate (Day t)))
    /\ (YearFromTime t <= 99 ->
        toUTCDate host (LString s)
        = Some (dayDate (MakeDay (1900 + YearFromTime t)
                                 (MonthFromTime t) (DateFromTime t)))).
Proof.
  intros R. exists (isoPrefix t). split; [reflexivity|]. split; [|split].
  - unfold isoPrefix. cbv zeta.
    destruct (Z.leb_spec 0 (YearFromTime t)); [|lia].
    destruct (Z.leb_spec (YearFromTime t) 9999); [|lia]. reflexivity.
  - intros L. apply toUTCDate_isoPrefix_literal. lia.
  - intros L. rewrite toUTCDate_isoPrefix by lia.
    unfold MakeFullYear.
    destruct (Z.leb_spec 0 (YearFromTime t)); [|lia].
    destruct (Z.leb_spec (YearFromTime t) 99); [|lia]. reflexivity.
Qed.

Lemma formatDate_toUTCDate_round_trip_witness :
  exists s,
    formatDate (ValidDate 1709168400000) = Some s
    /\ String.length s = 10%nat
    /\ (100 <= YearFromTime 1709168400000 ->
        toUTCDate sampleHost (LString s) = Some (dayDate (Day 1709168400000)))
    /\ (YearFromTime 1709168400000 <= 99 ->
        toUTCDate sampleHost (LString s)
        = Some (dayDate (MakeDay (1900 + YearFromTime 1709168400000)
                  (MonthFromTime 1709168400000) (DateFromTime 1709168400000)))).
Proof.
  apply (formatDate_toUTCDate_round_trip sampleHost 1709168400000).
  vm_compute. split; discriminate.
Defined.

(* ================================================================= *)
(** ** DateNormalizer: the per-label fallback *)

Section Fallback.

Variable host : Host.

Lemma labelDates_nth labels i label :
  nth_error labels i = Some label ->
  nth_error (labelDates host labels) i
  = Some (match toUTCDate host label with
          | Some parsed => parsed
          | None =>
              addMs (utcDate (getUTCFullYear (today host)) (Some 0) (Some 1))
                    ((Z.of_nat i + 1) * 86400000)
          end).
Proof.
  intros E. unfold labelDates. rewrite mapi_nth, E. reflexivity.
Qed.

Lemma fallback_date i :
  -271820 <= YearFromTime (clock host) <= 275759 ->
  literalYear (YearFromTime (clock host)) ->
  DayFromYear (YearFromTime (clock host)) + Z.of_nat i + 1 <= 100000000 ->
  addMs (utcDate (getUTCFullYear (today host)) (Some 0) (Some 1))
        ((Z.of_nat i + 1) * 86400000)
  = dayDate (DayFromYear (YearFromTime (clock host)) + Z.of_nat i + 1).
Proof.
  intros R L B. unfold today. cbn [getUTCFullYear utcDate]. unfold Date_UTC.
  rewrite MakeFullYear_literal by assumption.
  rewrite MakeDay_valid by (unfold representableYear; lia).
  rewrite MakeDay_month by lia. cbv [monthStart].
  unfold dayDate. cbn [addMs]. unfold TimeClip, msPerDay, maxTime.
  pose proof (DayFromYear_mono (-271820) (YearFromTime (clock host)) ltac:(lia)).
  evalDays (-271820).
  match goal with
  | |- context [?a <=? ?b] => destruct (Z.leb_spec a b); [f_equal; lia | lia]
  end.
Qed.

End Fallback.

(** A label that the normaliser cannot read (absent, blank, 0, or a
    string that is neither ISO-shaped nor accepted by the host) is
    replaced by January 1 of the clock's UTC year plus [index + 1] days:
    the date depends on the position only.  This is for a clock whose
    year [Date.UTC] takes literally and for positions that stay within
    the time range. *)
Theorem unreadable_label_falls_back
    (host : Host) (labels : list Label) (i : nat) (label : Label) :
  nth_error labels i = Some label ->
  toUTCDate host label = None ->
  -271820 <= YearFromTime (clock host) <= 275759 ->
  literalYear (YearFromTime (clock host)) ->
  DayFromYear (YearFromTime (clock host)) + Z.of_nat i + 1 <= 100000000 ->
  nth_error (labelDates host labels) i
  = Some (dayDate (DayFromYear (YearFromTime (clock host)) + Z.of_nat i + 1)).
Proof.
  intros E N R L B. rewrite (labelDates_nth host _ _ _ E), N.
  now rewrite fallback_date.
Qed.

Lemma unreadable_label_falls_back_witness :
  nth_error (labelDates sampleHost [LString "2024-03-01"; LString "soon"; LMissing]) 1
  = Some (dayDate (DayFromYear (YearFromTime (clock sampleHost)) + Z.of_nat 1 + 1)).
Proof.
  apply (unreadable_label_falls_back sampleHost
           [LString "2024-03-01"; LString "soon"; LMissing] 1 (LString "soon")).
  - reflexivity.
  - reflexivity.
  - vm_compute. split; discriminate.
  - right. vm_compute. reflexivity.
  - vm_compute. discriminate.
Defined.

(* ================================================================= *)
(** ** Daily labels, read back by the curve builder *)

Lemma traverse_total {A B} (f : A -> option B) (g : A -> B) xs :
  (forall x, In x xs -> f x = Some (g x)) -> traverse f xs = Some (map g xs).
Proof.
  induction xs as [|x xs IH]; intros H; [reflexivity|].
  cbn [traverse map]. rewrite (H x (or_introl eq_refl)), IH; [reflexivity|].
  intros y Y. apply H. now right.
Qed.

Lemma mapi_from_map {A B C} (f : B -> nat -> C) (g : A -> B) xs : forall i,
  mapi_from f i (map g xs) = mapi_from (fun x k => f (g x) k) i xs.
Proof.
  induction xs as [|x xs IH]; intros i; [reflexivity|].
  cbn [map mapi_from]. now rewrite IH.
Qed.

Lemma mapi_from_seq {B} (f : nat -> nat -> B) n : forall i,
  mapi_from f i (seq i n) = map (fun k => f k k) (seq i n).
Proof.
  induction n as [|n IH]; intros i; [reflexivity|].
  cbn [seq mapi_from map]. now rewrite IH.
Qed.

Lemma Day_add t k : Day (t + k * 86400000) = Day t + k.
Proof. unfold Day, msPerDay. apply Z.div_add. lia. Qed.

Section DailyLabels.

Variable host : Host.
Variable count : nat.

Hypothesis first_year : 100 <= YearFromTime (clock host).
Hypothesis last_year :
  YearFromTime (clock host + Z.of_nat count * 86400000) <= 9999.

Lemma daily_year i :
  (i < count)%nat ->
  100 <= YearFromTime (clock host + (Z.of_nat i + 1) * 86400000) <= 9999.
Proof.
  intros L. unfold YearFromTime in *. rewrite Day_add in *.
  pose proof (YearFromDay_mono (Day (clock host))
                (Day (clock host) + (Z.of_nat i + 1)) ltac:(lia)).
  pose proof (YearFromDay_mono (Day (clock host) + (Z.of_nat i + 1))
                (Day (clock host) + Z.of_nat count) ltac:(lia)).
  lia.
Qed.

Lemma daily_time_valid i :
  (i < count)%nat ->
  addMs (today host) ((Z.of_nat i + 1) * 86400000)
  = ValidDate (clock host + (Z.of_nat i + 1) * 86400000).
Proof.
  intros L. pose proof (daily_year i L) as Y.
  unfold today. cbn [addMs]. unfold TimeClip.
  set (t := clock host + (Z.of_nat i + 1) * 86400000) in *.
  pose proof (four_digit_year_valid (Day t) ltac:(unfold YearFromTime in Y; lia)) as V.
  assert (Z.abs t <= maxTime).
  { pose proof (YearFromDay_interval (Day t)) as I.
    fold (YearFromTime t) in I.
    pose proof (DayFromYear_mono 100 (YearFromTime t) ltac:(lia)).
    pose proof (DayFromYear_mono (YearFromTime t + 1) 10000 ltac:(lia)).
    evalDays 100. evalDays 10000.
    unfold Day, msPerDay, maxTime in *.
    Z.to_euclidean_division_equations; lia. }
  destruct (Z.leb_spec (Z.abs t) maxTime); [reflexivity | lia].
Qed.

Lemma buildDailyLabels_total :
  buildDailyLabels host count
  = Some (map (fun index =>
                 LString (isoPrefix (clock host + (Z.of_nat index + 1) * 86400000)))
              (seq 0 count)).
Proof.
  unfold buildDailyLabels. cbv zeta. apply traverse_total.
  intros i I. apply in_seq in I. rewrite daily_time_valid by lia. reflexivity.
Qed.

Lemma labelDates_daily :
  labelDates host
    (map (fun index =>
            LString (isoPrefix (clock host + (Z.of_nat index + 1) * 86400000)))
         (seq 0 count))
  = map (fun index => dayDate (Day (clock host) + Z.of_nat index + 1)) (seq 0 count).
Proof.
  unfold labelDates, mapi. rewrite mapi_from_map, mapi_from_seq.
  apply map_ext_in. intros i I. apply in_seq in I.
  rewrite toUTCDate_isoPrefix_literal by (apply daily_year; lia).
  rewrite Day_add. f_equal. lia.
Qed.

End DailyLabels.

(** The daily labels and the curve builder agree: with the clock in the
    years 100..9999, [buildDailyLabels count] returns [count] labels,
    and the curve builder reads label [index] as midnight UTC of the
    clock's day plus [index + 1]: consecutive days from tomorrow. *)
Theorem daily_labels_parse_back (host : Host) (count : nat) :
  100 <= YearFromTime (clock host) ->
  YearFromTime (clock host + Z.of_nat count * 86400000) <= 9999 ->
  exists labels,
    buildDailyLabels host count = Some labels
    /\ length labels = count
    /\ labelDates host labels
       = map (fun index => dayDate (Day (clock host) + Z.of_nat index + 1))
             (seq 0 count).
Proof.
  intros F L. eexists. split; [apply buildDailyLabels_total; assumption|].
  split.
  - now rewrite length_map, length_seq.
  - apply labelDates_daily; assumption.
Qed.

Lemma daily_labels_parse_back_witness :
  exists labels,
    buildDailyLabels sampleHost 3 = Some labels
    /\ length labels = 3%nat
    /\ labelDates sampleHost labels
       = map (fun index => dayDate (Day (clock sampleHost) + Z.of_nat index + 1))
             (seq 0 3).
Proof.
  apply (daily_labels_parse_back sampleHost 3); vm_compute; discriminate.
Defined.

(* ================================================================= *)
(** ** Rounding to one decimal *)

Section Rounding.

Local Open Scope Q_scope.

Lemma Qfloor_unique x n :
  inject_Z n <= x -> x < inject_Z (n + 1) -> Qfloor x = n.
Proof.
  intros L U.
  pose proof (Qfloor_le x) as FL. pose proof (Qlt_floor x) as FU.
  assert (A : inject_Z n < inject_Z (Qfloor x + 1)) by (eapply Qle_lt_trans; eassumption).
  assert (B : inject_Z (Qfloor x) < inject_Z (n + 1)) by (eapply Qle_lt_trans; eassumption).
  rewrite <- Zlt_Qlt in A, B. lia.
Qed.

(** [round] on a finite number, as a rational. *)
Lemma round_Fin q :
  round (Fin q) = Fin (inject_Z (Qfloor (q * 10 + (1 # 2))) / 10).
Proof.
  unfold round. cbn [Num.mul Math_round Num.div].
  destruct (Qzero_b 10) eqn:E; [discriminate E | reflexivity].
Qed.

Lemma round_near q :
  - (1 # 20) < inject_Z (Qfloor (q * 10 + (1 # 2))) / 10 - q <= 1 # 20.
Proof.
  pose proof (Qfloor_le (q * 10 + (1 # 2))) as FL.
  pose proof (Qlt_floor (q * 10 + (1 # 2))) as FU.
  rewrite inject_Z_plus in FU.
  set (n := inject_Z (Qfloor (q * 10 + (1 # 2)))) in *.
  change (inject_Z 1) with 1 in FU.
  split.
  - apply Qlt_minus_iff. setoid_replace (n / 10 - q + - - (1 # 20))
      with ((n + 1 - (q * 10 + (1 # 2))) / 10) by field.
    apply Qlt_shift_div_l; lra.
  - apply Qle_minus_iff. setoid_replace ((1 # 20) + - (n / 10 - q))
      with ((q * 10 + (1 # 2) - n) / 10) by field.
    apply Qle_shift_div_l; lra.
Qed.

Lemma round_tenth n :
  Qfloor (inject_Z n / 10 * 10 + (1 # 2)) = n.
Proof.
  apply Qfloor_unique.
  - setoid_replace (inject_Z n / 10 * 10) with (inject_Z n) by field. lra.
  - rewrite inject_Z_plus. change (inject_Z 1) with 1.
    setoid_replace (inject_Z n / 10 * 10) with (inject_Z n) by field. lra.
Qed.

Lemma round_mono p q :
  p <= q ->
  inject_Z (Qfloor (p * 10 + (1 # 2))) / 10
  <= inject_Z (Qfloor (q * 10 + (1 # 2))) / 10.
Proof.
  intros L.
  assert (F : (Qfloor (p * 10 + (1 # 2)) <= Qfloor (q * 10 + (1 # 2)))%Z)
    by (apply Qfloor_resp_le; lra).
  rewrite Zle_Qle in F.
  apply Qle_shift_div_l; [lra|].
  setoid_replace (inject_Z (Qfloor (p * 10 + (1 # 2))) / 10 * 10)
    with (inject_Z (Qfloor (p * 10 + (1 # 2)))) by field.
  exact F.
Qed.

End Rounding.

Section RoundingOneDecimal.
Local Open Scope Q_scope.

(** [round] on a finite value up to 2^1000 in magnitude, step by step. *)
Lemma round64_value (v : Q) :
  Qabs v <= 2 ^ 1000 ->
  Binary64.round (Fin v)
  = Fin (rndQ (inject_Z (Qfloor (rndQ (v * 10) + (1 # 2))) / 10)).
Proof.
  intros B. unfold Binary64.round. rewrite mul_Fin.
  assert (B1 : Qabs (v * 10) <= 2 ^ 1004).
  { rewrite Qabs_Qmult. change (Qabs 10) with 10.
    assert (E : 2 ^ 1004 == 2 ^ 1000 * 16) by reflexivity.
    rewrite E. assert (X := Qabs_nonneg v). lra. }
  destruct (rnd_pow2 1004 _ ltac:(lia) B1) as (-> & B2).
  cbn [Math_round]. rewrite div_Fin by discriminate.
  set (z := Qfloor (rndQ (v * 10) + (1 # 2))).
  assert (B3 : Qabs (inject_Z z / 10) <= 2 ^ 1004).
  { destruct (floor_bounds (rndQ (v * 10) + (1 # 2))) as [L U]. fold z in L, U.
    apply Qabs_Qle_condition in B2. apply Qabs_Qle_condition.
    assert (2 <= 2 ^ 1004) by closedQ.
    unfold Qdiv. setoid_replace (/ 10) with (1 # 10) by reflexivity.
    split; lra. }
  destruct (rnd_pow2 1004 _ ltac:(lia) B3) as (-> & _). reflexivity.
Qed.

Lemma rnd_Fin_inv (q r : Q) : rnd q = Fin r -> r = rndQ q.
Proof.
  unfold rnd. destruct (Qle_bool huge (Qabs (rndQ q))); [discriminate |].
  intros E. injection E as <-. reflexivity.
Qed.

(** Whenever [round] returns a finite value, it is that of the steps. *)
Lemma round64_inv (p rp : Q) :
  Binary64.round (Fin p) = Fin rp ->
  rp = rndQ (inject_Z (Qfloor (rndQ (p * 10) + (1 # 2))) / 10).
Proof.
  unfold Binary64.round. rewrite mul_Fin.
  destruct (rnd (p * 10)) as [a|s|] eqn:A.
  - apply rnd_Fin_inv in A. subst a. cbn [Math_round].
    rewrite div_Fin by discriminate. apply rnd_Fin_inv.
  - cbn. discriminate.
  - cbn. discriminate.
Qed.

Lemma round64_mono (p q : Q) :
  p <= q ->
  rndQ (inject_Z (Qfloor (rndQ (p * 10) + (1 # 2))) / 10)
  <= rndQ (inject_Z (Qfloor (rndQ (q * 10) + (1 # 2))) / 10).
Proof.
  intros L. apply rndQ_mono.
  assert (A : rndQ (p * 10) <= rndQ (q * 10)) by (apply rndQ_mono; lra).
  assert (F : (Qfloor (rndQ (p * 10) + (1 # 2)) <= Qfloor (rndQ (q * 10) + (1 # 2)))%Z)
    by (apply Qfloor_resp_le; lra).
  rewrite Zle_Qle in F.
  unfold Qdiv. setoid_replace (/ 10) with (1 # 10) by reflexivity. lra.
Qed.

Lemma tiny_bound : 2 ^ (-1075) <= 2 ^ (-60).
Proof. apply pow2_le. lia. Qed.

(** The result is within 0.05, and two roundings, of the argument. *)
Lemma round64_near (v : Q) :
  let n := Qfloor (rndQ (v * 10) + (1 # 2)) in
  Qabs (rndQ (inject_Z n / 10) - v) <= (1 # 20) + (Qabs v + 1) * 2 ^ (-51).
Proof.
  intros n.
  assert (E1 := rndQ_error (v * 10)).
  assert (E2 := rndQ_error (inject_Z n / 10)).
  destruct (floor_bounds (rndQ (v * 10) + (1 # 2))) as [L U]. fold n in L, U.
  assert (T := tiny_bound).
  assert (V53 : 2 ^ (-53) == 1 # 9007199254740992) by reflexivity.
  assert (V51 : 2 ^ (-51) == 1 # 2251799813685248) by reflexivity.
  assert (V60 : 2 ^ (-60) == 1 # 1152921504606846976) by reflexivity.
  rewrite V53 in E1, E2. rewrite V60 in T. rewrite V51.
  rewrite Qabs_Qmult in E1. change (Qabs 10) with 10 in E1.
  set (p := rndQ (v * 10)) in *.
  set (r := rndQ (inject_Z n / 10)) in *.
  assert (Hn : inject_Z n / 10 == inject_Z n * (1 # 10)) by reflexivity.
  rewrite Hn in E2. set (z := inject_Z n) in *.
  generalize dependent (2 ^ (-1075)). intros tiny E1 E2 T.
  assert (Az : Qabs (z * (1 # 10)) <= 2 * Qabs v + (1 # 5)).
  { apply Qabs_Qle_condition. apply Qabs_Qle_condition in E1.
    revert E1. apply (Qabs_case v); intros; lra. }
  apply Qabs_Qle_condition. apply Qabs_Qle_condition in E1.
  apply Qabs_Qle_condition in E2.
  revert E1 E2 Az. apply (Qabs_case (z * (1 # 10))); apply (Qabs_case v); intros; split; lra.
Qed.

End RoundingOneDecimal.



(* ================================================================= *)
(** ** Scaling keeps the order of a band *)

Section BandOrder.

Local Open Scope Q_scope.

Lemma scaled_keeps_band pt label c :
  orderedBand pt -> nonNegative c -> orderedBand (scaled pt label c).
Proof.
  intros (l & f & u & El & Ef & Eu & L & U) (q & -> & Q).
  unfold orderedBand, scaled. cbn [lower forecast upper].
  rewrite El, Ef, Eu. cbn [Num.mul]. rewrite !round_Fin.
  do 3 eexists. repeat split.
  - apply round_mono. nra.
  - apply round_mono. nra.
Qed.

Lemma nonNegative_mul x y : nonNegative x -> nonNegative y -> nonNegative (x * y)%num.
Proof.
  intros (p & -> & P) (q & -> & Q). exists (p * q). split; [reflexivity | nra].
Qed.

Lemma nonNegative_at_or curve i :
  Forall nonNegative curve -> nonNegative (at_or curve i (Fin 1)).
Proof.
  intros F. unfold at_or. destruct (nth_in_or_default i curve (Fin 1)) as [I | ->].
  - rewrite Forall_forall in F. now apply F.
  - exists 1. split; [reflexivity | lra].
Qed.

Lemma mapi_from_Forall {A B} (P : A -> Prop) (R : B -> Prop) (f : A -> nat -> B) xs :
  (forall x i, P x -> R (f x i)) ->
  Forall P xs -> forall i, Forall R (mapi_from f i xs).
Proof.
  intros H F. induction F as [|x xs Px _ IH]; intros i; cbn [mapi_from];
    constructor; auto.
Qed.

Lemma applyDirect_keeps_band multiplier curve dates points :
  nonNegative multiplier -> Forall nonNegative curve ->
  Forall orderedBand points ->
  Forall orderedBand (applyDirect multiplier curve dates points).
Proof.
  intros M C P. unfold applyDirect, mapi.
  apply (mapi_from_Forall orderedBand); [|assumption].
  intros pt i O. cbv zeta. apply scaled_keeps_band; [assumption|].
  apply nonNegative_mul; [assumption | now apply nonNegative_at_or].
Qed.

Lemma sum_Fin qs : forall a,
  fold_left Num.add (map Fin qs) (Fin a) = Fin (fold_left Qplus qs a).
Proof. induction qs as [|q qs IH]; intros a; [reflexivity | apply IH]. Qed.

Lemma finite_list curve : Forall finite curve -> exists qs, curve = map Fin qs.
Proof.
  induction 1 as [|x xs Fx _ (qs & ->)]; [now exists []|].
  destruct (finite_Fin x Fx) as (q & ->). now exists (q :: qs).
Qed.

Lemma nonNegative_list curve :
  Forall nonNegative curve ->
  exists qs, curve = map Fin qs /\ Forall (fun q => 0 <= q) qs.
Proof.
  induction 1 as [|x xs (q & -> & Q) _ (qs & -> & F)]; [now exists []|].
  exists (q :: qs). split; [reflexivity | now constructor].
Qed.

Lemma sum_nonneg qs : forall a,
  0 <= a -> Forall (fun q => 0 <= q) qs -> 0 <= fold_left Qplus qs a.
Proof.
  induction qs as [|q qs IH]; intros a A F; [assumption|].
  inversion F; subst. cbn [fold_left]. apply IH; [lra | assumption].
Qed.

(** The divisor of [average]: [Math.max(1, curve.length)]. *)
Lemma count_divisor (n : nat) :
  Math_max (Fin 1) (of_Z (Z.of_nat n)) = Fin (countDivisor n)
  /\ 1 <= countDivisor n.
Proof.
  unfold countDivisor, of_Z. cbn [Math_max Num.lt].
  destruct (Qle_bool (inject_Z (Z.of_nat n)) 1) eqn:E; cbn [negb].
  - split; [reflexivity | lra].
  - split; [reflexivity|].
    destruct (Qlt_le_dec 1 (inject_Z (Z.of_nat n))) as [L|L]; [lra|].
    apply Qle_bool_iff in L. congruence.
Qed.

Lemma average_Fin qs :
  average (map Fin qs)
  = Fin (fold_left Qplus qs 0 / countDivisor (length qs)).
Proof.
  unfold average. rewrite sum_Fin, length_map.
  destruct (count_divisor (length qs)) as (-> & D).
  cbn [Num.div]. destruct (Qzero_b (countDivisor (length qs))) eqn:E; [|reflexivity].
  apply Qzero_b_true in E. lra.
Qed.

Lemma normalize_nonNegative curve :
  Forall nonNegative curve -> Forall nonNegative (normalize curve).
Proof.
  intros F. destruct (nonNegative_list curve F) as (qs & -> & Q).
  unfold normalize. cbv zeta.
  rewrite average_Fin.
  destruct (count_divisor (length qs)) as (_ & D).
  pose proof (sum_nonneg qs 0 ltac:(lra) Q) as S.
  set (s := fold_left Qplus qs 0) in *.
  set (d := countDivisor (length qs)) in *.
  assert (A : or_else (Fin (s / d)) (Fin 1) = Fin (s / d) /\ 0 < s / d
              \/ or_else (Fin (s / d)) (Fin 1) = Fin 1).
  { unfold or_else. cbn [truthy]. destruct (Qzero_b (s / d)) eqn:E; cbn [negb].
    - now right.
    - left. split; [reflexivity|]. apply Qzero_b_false in E.
      assert (0 <= s / d) by (apply Qle_shift_div_l; lra). lra. }
  apply Forall_forall. intros x I. apply in_map_iff in I as (y & <- & I).
  apply in_map_iff in I as (q & <- & I).
  rewrite Forall_forall in Q. specialize (Q q I).
  destruct A as [(-> & P) | ->]; cbn [Num.div].
  - destruct (Qzero_b (s / d)) eqn:E; [apply Qzero_b_true in E; lra|].
    exists (q / (s / d)). split; [reflexivity|]. apply Qle_shift_div_l; lra.
  - destruct (Qzero_b 1) eqn:E; [discriminate E|].
    exists (q / 1). split; [reflexivity|]. apply Qle_shift_div_l; lra.
Qed.

Lemma applyNormalized_keeps_band curve dates points :
  Forall nonNegative curve -> Forall orderedBand points ->
  Forall orderedBand (applyNormalized curve dates points).
Proof.
  intros C P. unfold applyNormalized, mapi. cbv zeta.
  apply (mapi_from_Forall orderedBand); [|assumption].
  intros pt i O. apply scaled_keeps_band; [assumption|].
  apply nonNegative_at_or. now apply normalize_nonNegative.
Qed.

End BandOrder.

(* ================================================================= *)
(** ** The dates of the what-if series *)

Section WhatIfDates.

Variable host : Host.

Lemma buildDailyLabels_present count labels :
  buildDailyLabels host count = Some labels ->
  Forall (fun l => l <> LMissing) labels.
Proof.
  intros E. apply Forall_forall. intros l I.
  apply In_nth_error in I as (i & I).
  assert (L : (i < count)%nat).
  { rewrite <- (buildDailyLabels_length host _ _ E).
    apply nth_error_Some. congruence. }
  rewrite (buildDailyLabels_nth host _ _ _ E L) in I.
  injection I as <-. discriminate.
Qed.

Lemma truthy_present raw :
  existsb (fun value => negb (label_truthy value)) raw = false ->
  Forall (fun l => l <> LMissing) raw.
Proof.
  intros E. apply Forall_forall. intros l I ->.
  assert (X : existsb (fun value => negb (label_truthy value)) raw = true)
    by (apply existsb_exists; exists LMissing; split; [assumption | reflexivity]).
  congruence.
Qed.

Lemma resolvePointDates_present points dates :
  resolvePointDates host points = Some dates ->
  Forall (fun l => l <> LMissing) dates.
Proof.
  unfold resolvePointDates. destruct points as [|pt points].
  - intros E. injection E as <-. constructor.
  - cbv zeta.
    destruct (existsb (fun value => negb (label_truthy value))
                (map date (pt :: points))) eqn:B.
    + rewrite orb_true_r. apply buildDailyLabels_present.
    + rewrite orb_false_r.
      destruct (_ <=? _)%nat.
      * apply buildDailyLabels_present.
      * intros E. injection E as <-. now apply truthy_present.
Qed.

(** A second resolution of labels that were resolved once returns them. *)
Lemma resolvePointDates_stable points dates points' :
  resolvePointDates host points = Some dates ->
  map date points' = dates ->
  resolvePointDates host points' = Some dates.
Proof.
  intros R M.
  pose proof (resolvePointDates_length host _ _ R) as L.
  assert (L' : length points' = length points)
    by (rewrite <- L, <- M; now rewrite length_map).
  unfold resolvePointDates in *.
  destruct points as [|pt points].
  - destruct points'; [assumption | discriminate L'].
  - destruct points' as [|pt' points'']; [discriminate L'|].
    set (pts := pt :: points) in *. set (pts' := pt' :: points'') in *.
    cbv zeta in *. rewrite M.
    destruct ((length (distinct (filter label_truthy (map date pts))) <=? 1)%nat
              || existsb (fun value => negb (label_truthy value)) (map date pts))
      eqn:C.
    + rewrite L'.
      match goal with
      | |- (if ?c then _ else _) = _ => destruct c; [exact R | reflexivity]
      end.
    + assert (E : map date pts = dates) by congruence.
      rewrite <- E, C. reflexivity.
Qed.

Lemma labelAt_present dates i l fallback :
  nth_error dates i = Some l -> l <> LMissing -> labelAt dates i fallback = l.
Proof.
  intros E N. unfold labelAt. rewrite E. destruct l; congruence.
Qed.

Lemma scaled_dates (f : ForecastPoint -> nat -> number) dates points :
  length dates = length points ->
  Forall (fun l => l <> LMissing) dates ->
  map date
    (mapi (fun point index =>
             scaled point (labelAt dates index (date point)) (f point index))
          points)
  = dates.
Proof.
  intros L P. apply nth_error_ext. intros i.
  rewrite nth_error_map, mapi_nth.
  destruct (nth_error points i) as [pt|] eqn:E; cbn [option_map].
  - assert (I : (i < length dates)%nat)
      by (rewrite L; apply nth_error_Some; congruence).
    destruct (nth_error dates i) as [l|] eqn:D;
      [|apply nth_error_None in D; lia].
    cbn [scaled date]. f_equal. apply labelAt_present; [assumption|].
    rewrite Forall_forall in P. apply P. eapply nth_error_In, D.
  - symmetry. apply nth_error_None. rewrite L. now apply nth_error_None.
Qed.

End WhatIfDates.

(** The what-if series carries the resolved dates.  When the label
    resolution of the baseline returns [dates], then in demo mode, and in
    API mode for a tag with a profile, [runWhatIf] returns one point per
    baseline point, the dates of these points are [dates], and resolving
    the dates of the result again returns [dates]; in API mode for a tag
    without a profile the points are returned as they are. *)
Theorem what_if_carries_resolved_dates
    (host : Host) (catalog : Catalog) (points : list ForecastPoint)
    (whatIfPercent : number) (whatIfEvent : string)
    (selectedDealer : option Dealer) (dates : list Label) (demoMode : bool) :
  resolvePointDates host points = Some dates ->
  (demoMode = true \/ getProfile catalog whatIfEvent <> None ->
   exists out,
     runWhatIf host catalog demoMode points whatIfPercent whatIfEvent
       selectedDealer = Some out
     /\ length out = length points
     /\ map date out = dates
     /\ resolvePointDates host out = Some dates)
  /\ (demoMode = false -> getProfile catalog whatIfEvent = None ->
      runWhatIf host catalog demoMode points whatIfPercent whatIfEvent
        selectedDealer = Some points).
Proof.
  intros R.
  pose proof (resolvePointDates_length host _ _ R) as L.
  pose proof (resolvePointDates_present host _ _ R) as P.
  split.
  - intros C. unfold runWhatIf, whatIfDirect, whatIfNormalized.
    assert (D : forall f,
      let out := mapi (fun point index =>
                         scaled point (labelAt dates index (date point))
                                (f point index)) points in
      length out = length points /\ map date out = dates
      /\ resolvePointDates host out = Some dates).
    { intros f out. pose proof (scaled_dates f dates points L P) as M.
      split; [apply mapi_length|]. split; [exact M|].
      exact (resolvePointDates_stable host _ _ _ R M). }
    destruct demoMode.
    + rewrite R. eexists. split; [reflexivity|].
      apply (D (fun _ index => _)).
    + destruct C as [C | C]; [discriminate C|].
      destruct (getProfile catalog whatIfEvent); [|congruence].
      rewrite R. eexists. split; [reflexivity|].
      apply (D (fun _ index => _)).
  - intros -> N. unfold runWhatIf, whatIfNormalized. now rewrite N.
Qed.

Lemma what_if_carries_resolved_dates_witness :
  (true = true \/ getProfile EVENT_PROFILES "Year-End Promo (Dec)" <> None ->
   exists out,
     runWhatIf sampleHost EVENT_PROFILES true flatHundred (Fin 10)
       "Year-End Promo (Dec)" None = Some out
     /\ length out = length flatHundred
     /\ map date out = marchDays
     /\ resolvePointDates sampleHost out = Some marchDays)
  /\ (true = false -> getProfile EVENT_PROFILES "Year-End Promo (Dec)" = None ->
      runWhatIf sampleHost EVENT_PROFILES true flatHundred (Fin 10)
        "Year-End Promo (Dec)" None = Some flatHundred).
Proof.
  apply (what_if_carries_resolved_dates sampleHost EVENT_PROFILES flatHundred
           (Fin 10) "Year-End Promo (Dec)" None marchDays true).
  reflexivity.
Defined.

(* ================================================================= *)
(** ** Chart data *)

Lemma subseq_length {A} (xs ys : list A) :
  subseq xs ys -> (length xs <= length ys)%nat.
Proof. induction 1; cbn [length]; lia. Qed.

Lemma subseq_map {A B} (f : A -> B) (xs ys : list A) :
  subseq xs ys -> subseq (map f xs) (map f ys).
Proof. induction 1; cbn [map]; constructor; assumption. Qed.

Section ChartData.

Variable host : Host.

(** With the clock in the years 100..9999 the label resolution returns. *)
Lemma resolvePointDates_total points bound :
  100 <= YearFromTime (clock host) ->
  YearFromTime (clock host + Z.of_nat bound * 86400000) <= 9999 ->
  (length points <= bound)%nat ->
  exists dates, resolvePointDates host points = Some dates.
Proof.
  intros F L B. unfold resolvePointDates.
  destruct points as [|pt points]; [eauto|]. cbv zeta.
  destruct (_ || _); [|eauto].
  eexists. apply buildDailyLabels_total; [assumption|].
  unfold YearFromTime in *. rewrite Day_add in *.
  pose proof (YearFromDay_mono
                (Day (clock host) + Z.of_nat (length (pt :: points)))
                (Day (clock host) + Z.of_nat bound) ltac:(lia)).
  lia.
Qed.

End ChartData.

(** Chart data.  With the clock in the years 100..9999 and a budget of
    at least 1, [forecastChart] returns a chart whose labels and whose
    three data series all have one and the same length, at most the
    budget plus 1; each data series is a subsequence of the forecast,
    lower and upper values of the points; a series within the budget is
    charted in full, with the resolved dates of its points as labels.
    [whatIfChart] has the labels and the forecast series of
    [forecastChart]. *)
Theorem chart_data_is_aligned
    (host : Host) (points : list ForecastPoint) (maxChartPoints : nat) :
  100 <= YearFromTime (clock host) ->
  YearFromTime (clock host + Z.of_nat (length points) * 86400000) <= 9999 ->
  (1 <= maxChartPoints)%nat ->
  exists chart,
    forecastChart host (Some points) maxChartPoints = Some (Some chart)
    /\ (length (Chart.labels chart) <= maxChartPoints + 1)%nat
    /\ Forall (fun data => length data = length (Chart.labels chart))
              (Chart.datasets chart)
    /\ (exists f l u, Chart.datasets chart = [f; l; u]
          /\ subseq f (map forecast points)
          /\ subseq l (map lower points)
          /\ subseq u (map upper points)
          /\ whatIfChart host (Some points) maxChartPoints
             = Some (Some {| Chart.labels := Chart.labels chart;
                             Chart.datasets := [f] |}))
    /\ ((length points <= maxChartPoints)%nat ->
        Chart.datasets chart
        = [map forecast points; map lower points; map upper points]
        /\ resolvePointDates host points = Some (Chart.labels chart)).
Proof.
  intros F L N. unfold forecastChart, whatIfChart. cbv zeta.
  pose proof (downsamplePoints_subseq points maxChartPoints) as S.
  pose proof (downsamplePoints_length points maxChartPoints N) as B.
  destruct (resolvePointDates_total host (downsamplePoints points maxChartPoints)
              (length points) F L (subseq_length _ _ S)) as (dates & R).
  rewrite R. eexists. split; [reflexivity|].
  cbn [Chart.labels Chart.datasets].
  pose proof (resolvePointDates_length host _ _ R) as E.
  split; [lia|]. split; [|split].
  - unfold forecastValues. repeat constructor; rewrite length_map; lia.
  - do 3 eexists. split; [reflexivity|].
    unfold forecastValues. repeat split; try (now apply subseq_map).
  - intros W. rewrite (downsamplePoints_within_budget points _ W) in *.
    split; [reflexivity | assumption].
Qed.

Lemma chart_data_is_aligned_witness :
  exists chart,
    forecastChart sampleHost (Some flatHundred) 2 = Some (Some chart)
    /\ (length (Chart.labels chart) <= 2 + 1)%nat
    /\ Forall (fun data => length data = length (Chart.labels chart))
              (Chart.datasets chart)
    /\ (exists f l u, Chart.datasets chart = [f; l; u]
          /\ subseq f (map forecast flatHundred)
          /\ subseq l (map lower flatHundred)
          /\ subseq u (map upper flatHundred)
          /\ whatIfChart sampleHost (Some flatHundred) 2
             = Some (Some {| Chart.labels := Chart.labels chart;
                             Chart.datasets := [f] |}))
    /\ ((length flatHundred <= 2)%nat ->
        Chart.datasets chart
        = [map forecast flatHundred; map lower flatHundred; map upper flatHundred]
        /\ resolvePointDates sampleHost flatHundred = Some (Chart.labels chart)).
Proof.
  apply (chart_data_is_aligned sampleHost flatHundred 2).
  - vm_compute. discriminate.
  - vm_compute. discriminate.
  - lia.
Defined.

(* ================================================================= *)
(** ** The overlap flag *)

Section Overlap.

Variable host : Host.

Lemma existsb_map {A B} (f : B -> bool) (g : A -> B) xs :
  existsb f (map g xs) = existsb (fun x => f (g x)) xs.
Proof. induction xs as [|x xs IH]; cbn [map existsb]; [|rewrite IH]; reflexivity. Qed.

Lemma existsb_none {A} (f : A -> bool) xs :
  Forall (fun x => f x = false) xs -> existsb f xs = false.
Proof. induction 1 as [|x xs E _ IH]; cbn [existsb]; [|rewrite E, IH]; reflexivity. Qed.

Lemma existsb_some {A} (f : A -> bool) xs :
  Exists (fun x => f x = true) xs -> existsb f xs = true.
Proof.
  intros E. apply existsb_exists. apply Exists_exists in E. exact E.
Qed.

Lemma eventHasOverlap_points points tag dealer dates :
  points <> [] ->
  resolvePointDates host points = Some dates ->
  eventHasOverlap host (Some points) None tag dealer
  = Some (existsb deviates
            (buildEventMultiplier host tag dates {| dealer := dealer |})).
Proof.
  intros NE R. unfold eventHasOverlap. cbv zeta. rewrite R.
  pose proof (resolvePointDates_length host _ _ R) as L.
  destruct dates as [|l dates]; [|reflexivity].
  destruct points; [congruence | discriminate L].
Qed.

Lemma curve_of_profile tag p dates ctx :
  getProfile EVENT_PROFILES tag = Some p ->
  buildEventMultiplier host tag dates ctx
  = map (multiplierAt host p tag ctx) (labelDates host dates).
Proof.
  intros G. unfold buildEventMultiplier, buildEventMultiplierIn. rewrite G.
  destruct dates; reflexivity.
Qed.

Lemma unknown_tag_no_overlap tag dates ctx :
  ownProperty EVENT_PROFILES tag = None ->
  existsb deviates (buildEventMultiplier host tag dates ctx) = false.
Proof.
  intros O. destruct (getProfile_not_own _ _ O) as [G | G].
  - unfold buildEventMultiplier, buildEventMultiplierIn. now rewrite G.
  - rewrite (curve_of_profile _ _ _ _ G), existsb_map. apply existsb_none.
    apply Forall_forall. intros d _. now rewrite multiplierAt_inherited.
Qed.

End Overlap.

Lemma catalog_step_peak tag p :
  ownProperty EVENT_PROFILES tag = Some p -> kind p = step ->
  peakImpact p = Fin 0.18.
Proof.
  unfold EVENT_PROFILES. cbn [ownProperty].
  repeat match goal with
         | |- context [String.eqb ?a ?b] => destruct (String.eqb a b)
         end;
    intros E; try discriminate E; injection E as <-;
    intros K; try discriminate K; reflexivity.
Qed.

Ltac eval_dates :=
  match goal with
  | |- context [labelDates ?host ?labels] =>
      let l := eval vm_compute in (labelDates host labels) in
      let E := fresh in
      assert (E : labelDates host labels = l) by (vm_compute; reflexivity);
      rewrite E; clear E
  end.

Ltac resolve_here :=
  match goal with
  | |- exists w, resolveWindow ?p ?d = Some w /\ _ =>
      let r := eval vm_compute in (resolveWindow p d) in
      match r with
      | Some ?w => exists w; split; vm_compute; reflexivity
      end
  end.



(** The overlap flag is true as soon as one date of the series lies
    inside the resolved window of a step profile of the catalog. *)
Theorem step_event_overlap_is_seen
    (host : Host) (points : list ForecastPoint) (tag : string) (p : EventProfile)
    (selectedDealer : option Dealer) (dates : list Label) :
  resolvePointDates host points = Some dates ->
  ownProperty EVENT_PROFILES tag = Some p ->
  kind p = step ->
  Exists (fun d => exists w, resolveWindow p d = Some w
                             /\ outsideWindow d w = false)
         (labelDates host dates) ->
  eventHasOverlap host (Some points) None tag selectedDealer = Some true.
Proof.
  intros R O K E.
  assert (NE : points <> []).
  { intros ->. cbn in R. injection R as <-. inversion E. }
  rewrite (eventHasOverlap_points host _ tag selectedDealer _ NE R).
  rewrite (curve_of_profile host _ _ _ _ (getProfile_own _ _ _ O)), existsb_map.
  f_equal. apply existsb_some. apply Exists_exists.
  apply Exists_exists in E as (d & I & X). exists d. split; [assumption|].
  unfold deviates.
  rewrite (multiplierAt_step_inside host p tag _ d K X).
  now rewrite (catalog_step_peak tag p O K).
Qed.

Lemma step_event_overlap_is_seen_witness :
  eventHasOverlap sampleHost
    (Some [pointAt (LString "2024-03-14") 100; pointAt (LString "2024-03-15") 100])
    None "Summer Paint Push (Mar-Apr)" None = Some true.
Proof.
  apply (step_event_overlap_is_seen sampleHost
           [pointAt (LString "2024-03-14") 100; pointAt (LString "2024-03-15") 100]
           "Summer Paint Push (Mar-Apr)"
           (windowed step 0.08 0.18 (md 3 15) (md 4 30)) None
           [LString "2024-03-14"; LString "2024-03-15"]).
  - vm_compute; reflexivity.
  - vm_compute; reflexivity.
  - reflexivity.
  - eval_dates. apply Exists_cons_tl, Exists_cons_hd. resolve_here.
Defined.

(* ================================================================= *)
(** ** Demo data *)

Section DemoPoints.

Local Open Scope Q_scope.

Variable host : Host.
Variable sin : Q -> Q.
Variable horizon : nat.
Variable b : Q.
Variable tr : Q.

Hypothesis sin_bounded : unitBounded sin.
Hypothesis base_large : 8 <= b.
Hypothesis trend_up : 0 <= tr.
Hypothesis first_year : (100 <= YearFromTime (clock host))%Z.
Hypothesis last_year :
  (YearFromTime (clock host + Z.of_nat horizon * 86400000) <= 9999)%Z.

Lemma buildDemoPoints_total :
  buildDemoPoints host sin horizon (Fin b) (Fin tr)
  = Some (map (demoPoint host sin b tr) (seq 0 horizon)).
Proof.
  unfold buildDemoPoints. cbv zeta. apply traverse_total.
  intros i I. apply in_seq in I.
  rewrite (daily_time_valid host horizon first_year last_year i) by lia.
  cbn [formatDate option_map]. unfold demoPoint. cbv zeta.
  unfold of_Z, Math_sin. cbn [Num.div Num.mul Num.add].
  replace (Qzero_b 4) with false by reflexivity.
  cbn [Num.mul Num.add]. rewrite round_Fin. reflexivity.
Qed.

Lemma demo_value_nonneg index :
  0 <= b + tr * inject_Z (Z.of_nat index)
       + 8 * sin (inject_Z (Z.of_nat index) / 4).
Proof.
  pose proof (sin_bounded (inject_Z (Z.of_nat index) / 4)) as S.
  assert (0 <= inject_Z (Z.of_nat index))
    by (rewrite <- (Zle_Qle 0); lia).
  nra.
Qed.

Lemma round_zero : Qfloor (0 * 10 + (1 # 2)) = 0%Z.
Proof. reflexivity. Qed.

Lemma demoPoint_band index :
  orderedBand (demoPoint host sin b tr index)
  /\ exists l f, lower (demoPoint host sin b tr index) = Fin l
                 /\ forecast (demoPoint host sin b tr index) = Fin f /\ 0 <= l /\ 0 <= f.
Proof.
  unfold demoPoint. cbv zeta. cbn [lower forecast upper].
  set (v := b + tr * inject_Z (Z.of_nat index)
            + 8 * sin (inject_Z (Z.of_nat index) / 4)).
  pose proof (demo_value_nonneg index) as V. fold v in V.
  set (n := Qfloor (v * 10 + (1 # 2))).
  set (f := inject_Z n / 10).
  assert (F0 : 0 <= f).
  { pose proof (round_mono 0 v V) as M. rewrite round_zero in M.
    fold n in M. fold f in M.
    setoid_replace (inject_Z 0 / 10) with 0 in M by reflexivity. exact M. }
  assert (FF : inject_Z (Qfloor (f * 10 + (1 # 2))) / 10 == f).
  { unfold f. rewrite round_tenth. reflexivity. }
  destruct (Math_max_Fin 0 (f * 0.88)) as (r & -> & R0 & R1 & RC).
  rewrite !round_Fin.
  assert (RL : r <= f) by (destruct RC as [-> | ->]; lra).
  pose proof (round_mono r f RL) as A.
  pose proof (round_mono f (f * 1.12) ltac:(lra)) as B.
  pose proof (round_mono 0 r R0) as C. rewrite round_zero in C.
  setoid_replace (inject_Z 0 / 10) with 0 in C by reflexivity.
  rewrite FF in A, B.
  split.
  - do 3 eexists. repeat split; assumption.
  - do 2 eexists. repeat split; assumption.
Qed.

End DemoPoints.

Lemma traverse_labels {A} (f : A -> option string) (g : A -> string -> ForecastPoint)
    xs : forall pts,
  (forall x s, date (g x s) = LString s) ->
  traverse (fun x => option_map (g x) (f x)) xs = Some pts ->
  traverse (fun x => option_map LString (f x)) xs = Some (map date pts).
Proof.
  induction xs as [|x xs IH]; intros pts D; cbn [traverse].
  - intros E. injection E as <-. reflexivity.
  - destruct (f x) as [s|]; cbn [option_map]; [|discriminate].
    destruct (traverse (fun x0 => option_map (g x0) (f x0)) xs) as [rest|];
      [|discriminate].
    intros E. assert (pts = g x s :: rest) as -> by congruence.
    rewrite (IH rest D eq_refl). cbn [map]. now rewrite D.
Qed.

(** The dates of the demo points are the daily labels of the same clock,
    whether the resolution replaces them or not. *)
Lemma demo_dates host sin horizon base trend pts :
  buildDemoPoints host sin horizon base trend = Some pts ->
  buildDailyLabels host horizon = Some (map date pts)
  /\ resolvePointDates host pts = Some (map date pts).
Proof.
  intros E. pose proof (traverse_length _ _ _ E) as L. rewrite length_seq in L.
  assert (D : buildDailyLabels host horizon = Some (map date pts)).
  { unfold buildDemoPoints in E. cbv zeta in E. unfold buildDailyLabels. cbv zeta.
    eapply traverse_labels in E; [exact E | intros; reflexivity]. }
  split; [exact D|].
  unfold resolvePointDates. destruct pts as [|pt pts]; [reflexivity|].
  cbv zeta. destruct (_ || _); [|reflexivity]. now rewrite L.
Qed.

(** Demo data.  For a base of at least 8, a trend that is not negative,
    a sine with values in [-1, 1] and the clock in the years 100..9999,
    [buildDemoPoints] returns [horizon] points with finite values,
    [0 <= lower <= forecast <= upper]; their dates are the daily labels
    from tomorrow, and the label resolution returns these dates. *)
Theorem demo_points_are_well_formed
    (host : Host) (sin : Q -> Q) (horizon : nat) (b tr : Q) :
  unitBounded sin -> (8 <= b)%Q -> (0 <= tr)%Q ->
  100 <= YearFromTime (clock host) ->
  YearFromTime (clock host + Z.of_nat horizon * 86400000) <= 9999 ->
  exists pts,
    buildDemoPoints host sin horizon (Fin b) (Fin tr) = Some pts
    /\ length pts = horizon
    /\ Forall orderedBand pts
    /\ Forall (fun pt => nonNegative (lower pt)) pts
    /\ buildDailyLabels host horizon = Some (map date pts)
    /\ resolvePointDates host pts = Some (map date pts).
Proof.
  intros S B T F L.
  pose proof (buildDemoPoints_total host sin horizon b tr F L) as E.
  eexists. split; [exact E|].
  split; [now rewrite length_map, length_seq|].
  split; [|split].
  - apply Forall_forall. intros pt I. apply in_map_iff in I as (i & <- & _).
    now apply demoPoint_band.
  - apply Forall_forall. intros pt I. apply in_map_iff in I as (i & <- & _).
    destruct (demoPoint_band host sin b tr S B T i) as (_ & l & f & -> & _ & L0 & _).
    exists l. split; [reflexivity | assumption].
  - exact (demo_dates host sin horizon _ _ _ E).
Qed.

Lemma demo_points_are_well_formed_witness :
  exists pts,
    buildDemoPoints sampleHost flatSine 30 (Fin 120) (Fin 0.6) = Some pts
    /\ length pts = 30%nat
    /\ Forall orderedBand pts
    /\ Forall (fun pt => nonNegative (lower pt)) pts
    /\ buildDailyLabels sampleHost 30 = Some (map date pts)
    /\ resolvePointDates sampleHost pts = Some (map date pts).
Proof.
  apply (demo_points_are_well_formed sampleHost flatSine 30 120 0.6).
  - intros x. unfold flatSine. split; discriminate.
  - discriminate.
  - discriminate.
  - vm_compute. discriminate.
  - vm_compute. discriminate.
Defined.

(* ================================================================= *)
(** ** The shapes of ramp and dip *)

Lemma square_nonneg (x : Q) : (0 <= x * x)%Q.
Proof.
  destruct (Qlt_le_dec x 0).
  - setoid_replace (x * x)%Q with ((- x) * (- x))%Q by ring.
    apply Qmult_le_0_compat; lra.
  - apply Qmult_le_0_compat; lra.
Qed.

Section WindowShapes.

Local Open Scope Q_scope.

Variable host : Host.
Variable p : EventProfile.
Variable tag : string.
Variable ctx : Context.
Variable s : Z.
Variable e : Z.
Variable t : Z.

Hypothesis window_order : (s < e)%Z.
Hypothesis inside : (s <= t <= e)%Z.
Hypothesis resolved :
  resolveWindow p (ValidDate t) = Some (ValidDate s, ValidDate e).

Lemma progress_unit : 0 <= progress s e t <= 1.
Proof.
  unfold progress.
  assert (inject_Z s < inject_Z e) by (rewrite <- Zlt_Qlt; lia).
  assert (inject_Z s <= inject_Z t) by (rewrite <- Zle_Qle; lia).
  assert (inject_Z t <= inject_Z e) by (rewrite <- Zle_Qle; lia).
  split.
  - apply Qle_shift_div_l; lra.
  - apply Qle_shift_div_r; lra.
Qed.

Lemma not_outside :
  outsideWindow (ValidDate t) (ValidDate s, ValidDate e) = false.
Proof.
  unfold outsideWindow. cbn [fst snd].
  rewrite date_lt_valid, date_gt_valid.
  destruct (Z.ltb_spec t s); [lia|]. destruct (Z.ltb_spec e t); [lia|].
  reflexivity.
Qed.

(** The clamped position [t] of the source on a date inside its window. *)
Lemma clamped_progress :
  exists r,
    Math_min (Fin 1)
      (Math_max (Fin 0)
         ((getTime (ValidDate t) - getTime (ValidDate s))
          / (getTime (ValidDate e) - getTime (ValidDate s)))%num)
    = Fin r
    /\ r == progress s e t.
Proof.
  pose proof progress_unit as U. unfold progress in *.
  cbn [getTime]. unfold of_Z, Num.sub. cbn [Num.neg Num.add Num.div].
  assert (NZ : Qzero_b (inject_Z e + - inject_Z s) = false).
  { apply Qzero_b_false.
    assert (inject_Z s < inject_Z e) by (rewrite <- Zlt_Qlt; lia). lra. }
  rewrite NZ.
  set (q := (inject_Z t + - inject_Z s) / (inject_Z e + - inject_Z s)).
  assert (Q : q == (inject_Z t - inject_Z s) / (inject_Z e - inject_Z s))
    by reflexivity.
  destruct (Math_max_Fin 0 q) as (r1 & -> & A0 & A1 & AC).
  destruct (Math_min_Fin 1 r1) as (r2 & -> & B0 & B1 & BC).
  exists r2. split; [reflexivity|].
  rewrite <- Q. rewrite <- Q in U.
  destruct AC as [-> | ->], BC as [-> | ->]; lra.
Qed.

Lemma ramp_value pk :
  kind p = ramp -> peakImpact p = Fin pk ->
  exists m, multiplierAt host p tag ctx (ValidDate t) = Fin m
            /\ m == 1 + pk * progress s e t.
Proof.
  intros K P. unfold multiplierAt. rewrite K, resolved.
  cbv beta iota zeta. rewrite not_outside, P. cbn [fst snd].
  destruct clamped_progress as (r & -> & R).
  cbn [Num.mul Num.add]. eexists. split; [reflexivity|]. now rewrite R.
Qed.

Lemma dip_value pk :
  kind p = dip -> peakImpact p = Fin pk ->
  exists m, multiplierAt host p tag ctx (ValidDate t) = Fin m
            /\ m == 1 + 4 * pk * progress s e t * (1 - progress s e t).
Proof.
  intros K P. unfold multiplierAt. rewrite K, resolved.
  cbv beta iota zeta. rewrite not_outside, P. cbn [fst snd].
  destruct clamped_progress as (r & -> & R).
  pose proof progress_unit as U. rewrite <- R in U.
  unfold Num.sub. cbn [Num.neg Num.mul Num.add].
  destruct (Math_min_Fin 1 ((r + - (0.5)) * (r + - (0.5)) * 4))
    as (c & -> & C0 & C1 & CC).
  cbn [Num.neg Num.mul Num.add]. eexists. split; [reflexivity|].
  rewrite <- R.
  assert (E : c == (r + - (0.5)) * (r + - (0.5)) * 4).
  { destruct CC as [-> | ->]; [|reflexivity].
    assert ((r + - (0.5)) * (r + - (0.5)) * 4 <= 1) by nra. lra. }
  rewrite E. ring.
Qed.

End WindowShapes.





(* ================================================================= *)
(** ** The dealer anniversary *)

(** The dealer anniversary.  For a dealer with an id that is not
    negative, the centre of the anniversary spike is the 15th of the
    month [(id || 1) % 12 + 1], one of the months 1..12, in the year of
    the date.  With no dealer selected there is no centre and the curve
    is 1 at every position. *)
Theorem dealer_anniversary_center
    (host : Host) (dl : Dealer) (t : Z) (labels : list Label) :
  0 <= dealer_id dl ->
  literalYear (YearFromTime t) ->
  getProfile EVENT_PROFILES anniversaryTag = Some anniversaryProfile
  /\ resolveCenter anniversaryProfile anniversaryTag {| dealer := Some dl |}
       (ValidDate t)
     = Some (civil (YearFromTime t) (anniversaryMonth (dealer_id dl)) 15)
  /\ 1 <= anniversaryMonth (dealer_id dl) <= 12
  /\ resolveCenter anniversaryProfile anniversaryTag {| dealer := None |}
       (ValidDate t) = None
  /\ buildEventMultiplier host anniversaryTag labels {| dealer := None |}
     = repeat (Fin 1) (length labels).
Proof.
  intros I L. split; [reflexivity|]. split; [|split; [|split]].
  - unfold resolveCenter. cbn [anniversaryProfile centred center dealer].
    replace (includes "Dealer Anniversary" anniversaryTag) with true
      by (vm_compute; reflexivity).
    cbn [getUTCFullYear]. rewrite makeUTCDate_literal by assumption.
    unfold anniversaryMonth. rewrite Z.rem_mod_nonneg; [reflexivity | | lia].
    destruct (Z.eqb_spec (dealer_id dl) 0); lia.
  - unfold anniversaryMonth.
    pose proof (Z.mod_pos_bound (if dealer_id dl =? 0 then 1 else dealer_id dl) 12
                  ltac:(lia)). lia.
  - reflexivity.
  - unfold buildEventMultiplier, buildEventMultiplierIn.
    replace (getProfile EVENT_PROFILES anniversaryTag)
      with (Some anniversaryProfile) by reflexivity.
    destruct labels as [|l labels]; [reflexivity|].
    rewrite <- (labelDates_length host (l :: labels)).
    apply map_uniform. apply Forall_forall. intros d _. reflexivity.
Qed.

Lemma dealer_anniversary_center_witness :
  getProfile EVENT_PROFILES anniversaryTag = Some anniversaryProfile
  /\ resolveCenter anniversaryProfile anniversaryTag
       {| dealer := Some {| dealer_id := 14 |} |} (ValidDate 1709168400000)
     = Some (civil (YearFromTime 1709168400000)
                   (anniversaryMonth (dealer_id {| dealer_id := 14 |})) 15)
  /\ 1 <= anniversaryMonth (dealer_id {| dealer_id := 14 |}) <= 12
  /\ resolveCenter anniversaryProfile anniversaryTag {| dealer := None |}
       (ValidDate 1709168400000) = None
  /\ buildEventMultiplier sampleHost anniversaryTag marchDays {| dealer := None |}
     = repeat (Fin 1) (length marchDays).
Proof.
  apply (dealer_anniversary_center sampleHost {| dealer_id := 14 |}
           1709168400000 marchDays).
  - cbn [dealer_id]. lia.
  - right. vm_compute. reflexivity.
Defined.

(* ================================================================= *)
(** ** Impact labels *)

Section ImpactLabel.

Local Open Scope Q_scope.

Lemma integerToString_negative n :
  (n < 0)%Z -> exists digits, integerToString n = String "-" digits.
Proof.
  destruct n as [|p|p]; try lia. intros _. unfold integerToString.
  cbn [Z.to_int NilZero.string_of_int]. eauto.
Qed.

End ImpactLabel.

Section ImpactLabel64.
Local Open Scope Q_scope.

Lemma formatImpact_Fin v :
  Qabs v <= 10 ^ 18 ->
  formatImpact (Fin v)
  = ((if Qle_bool 0 v then "+" else "")
     ++ integerToString (Qfloor (rndQ (v * 100) + (1 # 2))) ++ "%")%string.
Proof.
  intros B. unfold formatImpact, roundedToString. cbv zeta.
  rewrite mul_Fin.
  assert (B1 : Qabs (v * 100) <= 2 ^ 70).
  { rewrite Qabs_Qmult. change (Qabs 100) with 100.
    assert (10 ^ 18 * 100 <= 2 ^ 70) by closedQ. assert (X := Qabs_nonneg v).
    generalize dependent (10 ^ 18). generalize dependent (2 ^ 70). intros. lra. }
  destruct (rnd_pow2 70 _ ltac:(lia) B1) as (-> & _).
  cbn [Num.le Num.lt Math_round]. rewrite Qfloor_Z, negb_involutive.
  reflexivity.
Qed.

End ImpactLabel64.

(** The impact label, in binary64.  With [p] the binary64 product
    [value * 100] and [n] the integer nearest to [p] (a tie goes up):
    for a value that is not negative the label is "+", [n] and "%"; a
    negative value with [p >= -0.5] is labelled "0%" with no sign; for
    [p < -0.5] the label starts with "-"; NaN is labelled "NaN%".  The
    product is rounded before [Math.round] sees it: 0.285 is labelled
    "+28%", 0.015 "+2%", and -0.005 "0%".  (Values up to 10^18 in
    magnitude, whose percentages JavaScript writes without an
    exponent.) *)
Theorem formatImpact_sign (v : Q) :
  (Qabs v <= 10 ^ 18)%Q ->
  let p := rndQ (v * 100) in
  let n := Qfloor (p + (1 # 2)) in
  ((0 <= v)%Q ->
   formatImpact (Fin v) = ("+" ++ integerToString n ++ "%")%string /\ 0 <= n)
  /\ ((v < 0)%Q -> (- (1 # 2) <= p)%Q -> formatImpact (Fin v) = "0%"%string)
  /\ ((p < - (1 # 2))%Q ->
      n < 0 /\ exists digits, formatImpact (Fin v) = ("-" ++ digits ++ "%")%string)
  /\ formatImpact NaN = "NaN%"%string
  /\ formatImpact (F64.lit 0.285) = "+28%"%string
  /\ formatImpact (F64.lit 0.015) = "+2%"%string
  /\ formatImpact (F64.lit (-0.005)) = "0%"%string.
Proof.
  intros B p n. rewrite (formatImpact_Fin v B). fold p. fold n.
  assert (D0 : (rndQ 0 == 0)%Q) by reflexivity.
  split; [| split; [| split; [| split]]].
  - intros P. assert (P' := P). apply Qle_bool_iff in P'. rewrite P'.
    split; [reflexivity |].
    assert (0 <= p)%Q by (unfold p; apply rndQ_sign; lra).
    assert (F : (Qfloor 0 <= Qfloor (p + (1 # 2)))%Z) by (apply Qfloor_resp_le; lra).
    exact F.
  - intros N L.
    destruct (Qle_bool 0 v) eqn:E; [apply Qle_bool_iff in E; lra |].
    assert (p <= 0)%Q by (unfold p; rewrite <- D0; apply rndQ_mono; lra).
    unfold n. rewrite (Qfloor_unique (p + (1 # 2)) 0).
    + reflexivity.
    + change (inject_Z 0) with 0%Q. lra.
    + change (inject_Z (0 + 1)) with 1%Q. lra.
  - intros U.
    assert (Nv : (v < 0)%Q).
    { apply Qnot_le_lt. intros P.
      assert (0 <= p)%Q by (unfold p; apply rndQ_sign; lra). lra. }
    destruct (Qle_bool 0 v) eqn:E; [apply Qle_bool_iff in E; lra |].
    assert (N : (n < 0)%Z).
    { pose proof (Qfloor_le (p + (1 # 2))) as F. fold n in F.
      rewrite Zlt_Qlt. change (inject_Z 0) with 0%Q. lra. }
    split; [exact N |].
    destruct (integerToString_negative _ N) as (digits & ->).
    exists digits. reflexivity.
  - reflexivity.
  - repeat split; vm_compute; reflexivity.
Qed.

Lemma formatImpact_sign_witness :
  let p := rndQ (-0.12 * 100) in
  let n := Qfloor (p + (1 # 2)) in
  ((0 <= -0.12)%Q ->
   formatImpact (Fin (-0.12)) = ("+" ++ integerToString n ++ "%")%string /\ 0 <= n)
  /\ ((-0.12 < 0)%Q -> (- (1 # 2) <= p)%Q -> formatImpact (Fin (-0.12)) = "0%"%string)
  /\ ((p < - (1 # 2))%Q ->
      n < 0 /\ exists digits,
                 formatImpact (Fin (-0.12)) = ("-" ++ digits ++ "%")%string)
  /\ formatImpact NaN = "NaN%"%string
  /\ formatImpact (F64.lit 0.285) = "+28%"%string
  /\ formatImpact (F64.lit 0.015) = "+2%"%string
  /\ formatImpact (F64.lit (-0.005)) = "0%"%string.
Proof.
  apply (formatImpact_sign (-0.12)). closedQ.
Defined.

(* ================================================================= *)
(** ** Catalog events keep the bands in order *)

Section CatalogRange.

Variable host : Host.
Hypothesis exp_unit : unitRangeBelowZero (exp host).

(** The multiplier of a catalog profile on a date in range, with the
    bounds of the catalog's peak impacts. *)
Lemma catalog_multiplier_bounds tag p ctx t :
  ownProperty EVENT_PROFILES tag = Some p ->
  yearInRange (YearFromTime t) ->
  exists pk m,
    peakImpact p = Fin pk
    /\ multiplierAt host p tag ctx (ValidDate t) = Fin m
    /\ withinPeak pk m
    /\ (- (1 # 4) <= pk <= 8 # 25)%Q.
Proof.
  intros O R.
  assert (Cases :
    (exists pk, peakImpact p = Fin pk /\ (- (1 # 4) <= pk <= 8 # 25)%Q
       /\ (kind p = dip \/ kind p = ramp \/ kind p = step)
       /\ exists s e,
            resolveWindow p (ValidDate t) = Some (ValidDate s, ValidDate e)
            /\ s < e)
    \/ (exists pk w, peakImpact p = Fin pk /\ (- (1 # 4) <= pk <= 8 # 25)%Q
          /\ kind p = spike
          /\ effectiveWidth p w
          /\ (resolveCenter p tag ctx (ValidDate t) = None
              \/ exists c,
                   resolveCenter p tag ctx (ValidDate t)
                   = Some (ValidDate c)))).
  { cbn in O.
    repeat match type of O with
           | (if ?b then _ else _) = _ => destruct b; [injection O as <- | ]
           end; try discriminate.
    all: first
      [ left; eexists; split; [reflexivity|];
        split; [split; discriminate|]; split; [cbn; tauto|];
        eapply resolveWindow_same_year;
        [ assumption | reflexivity | cbn; lia | cbn; lia | cbn; lia
        | cbn; lia | intros [|]; reflexivity ]
      | right; eexists _, _; split; [reflexivity|];
        split; [split; discriminate|]; split; [reflexivity|];
        split; [left; reflexivity|];
        apply resolveCenter_valid; [assumption|];
        cbn; intros c Hc; (discriminate || (injection Hc as <-; cbn; lia)) ]. }
  destruct Cases as [(pk & P & B & K & s & e & W & SE)
                    | (pk & w & P & B & K & Wd & C)].
  - destruct (window_multiplier_bounds host p tag ctx pk P t s e K W SE)
      as (m & -> & M).
    eauto 6.
  - destruct (spike_multiplier_bounds host p tag ctx pk w K P Wd t exp_unit C)
      as (m & -> & M).
    eauto 6.
Qed.

Lemma catalog_multiplier_range tag p ctx d :
  ownProperty EVENT_PROFILES tag = Some p ->
  dateInRange d ->
  exists m, multiplierAt host p tag ctx d = Fin m /\ (3 # 4 <= m <= 33 # 25)%Q.
Proof.
  intros O (t & -> & R).
  destruct (catalog_multiplier_bounds tag p ctx t O R)
    as (pk & m & _ & -> & (W1 & W2) & B).
  exists m. split; [reflexivity|].
  destruct (Qlt_le_dec pk 0) as [N | N].
  - specialize (W2 N). lra.
  - specialize (W1 N). lra.
Qed.

Lemma catalog_curve_range tag p labels ctx :
  ownProperty EVENT_PROFILES tag = Some p ->
  Forall dateInRange (labelDates host labels) ->
  Forall (fun v => exists m, v = Fin m /\ (3 # 4 <= m <= 33 # 25)%Q)
         (buildEventMultiplier host tag labels ctx).
Proof.
  intros O F. unfold buildEventMultiplier, buildEventMultiplierIn.
  rewrite (getProfile_own _ _ _ O).
  destruct labels as [|l labels]; [constructor|].
  apply Forall_forall. intros v I. apply in_map_iff in I as (d & <- & I).
  rewrite Forall_forall in F. now apply catalog_multiplier_range; [|apply F].
Qed.

End CatalogRange.



(* ================================================================= *)
(** ** The demo what-if run *)

Section DemoRun.

Variable host : Host.
Variable count : nat.
Hypothesis first_year : 100 <= YearFromTime (clock host).
Hypothesis last_year :
  YearFromTime (clock host + Z.of_nat count * 86400000) <= 9999.

Lemma daily_dates_in_range :
  Forall dateInRange
    (map (fun index => dayDate (Day (clock host) + Z.of_nat index + 1))
         (seq 0 count)).
Proof.
  apply Forall_forall. intros d I. apply in_map_iff in I as (i & <- & I).
  apply in_seq in I. eexists. split; [reflexivity|].
  pose proof (daily_year host count first_year last_year i ltac:(lia)) as Y.
  unfold YearFromTime in *. rewrite Day_add in Y. rewrite Day_dayDate.
  replace (Day (clock host) + Z.of_nat i + 1)
    with (Day (clock host) + (Z.of_nat i + 1)) by lia.
  unfold yearInRange. lia.
Qed.

End DemoRun.

(** The demo what-if run, end to end.  With the clock in the years
    100..9999, for every event of the catalog, every dealer and every
    percent shift of at least -100, the demo forecast is built and
    [runWhatIf] returns [horizon] points with the dates of the demo
    forecast and finite values [lower <= forecast <= upper]. *)
Theorem demo_what_if_keeps_bands
    (host : Host) (sin : Q -> Q) (horizon : nat) (tag : string)
    (p : EventProfile) (percent : Q) (selectedDealer : option Dealer) :
  unitBounded sin ->
  unitRangeBelowZero (exp host) ->
  100 <= YearFromTime (clock host) ->
  YearFromTime (clock host + Z.of_nat horizon * 86400000) <= 9999 ->
  ownProperty EVENT_PROFILES tag = Some p ->
  (-100 <= percent)%Q ->
  exists base out,
    buildDemoForecast host sin horizon (Fin 120) = Some base
    /\ runWhatIf host EVENT_PROFILES true base (Fin percent) tag selectedDealer
       = Some out
    /\ length out = horizon
    /\ map date out = map date base
    /\ Forall orderedBand out.
Proof.
  intros S E F L O P.
  pose proof (buildDemoPoints_total host sin horizon 120 0.6 F L) as B.
  set (base := map (demoPoint host sin 120 0.6) (seq 0 horizon)) in *.
  destruct (demo_dates host sin horizon _ _ _ B) as (Daily & Res).
  assert (Ord : Forall orderedBand base).
  { apply Forall_forall. intros pt I. apply in_map_iff in I as (i & <- & _).
    apply demoPoint_band; [assumption | discriminate | discriminate]. }
  assert (D : Forall dateInRange (labelDates host (map date base))).
  { pose proof (buildDailyLabels_total host horizon F L) as T.
    rewrite Daily in T. injection T as ->.
    rewrite labelDates_daily by assumption.
    now apply daily_dates_in_range. }
  pose proof (catalog_curve_range host E tag p (map date base)
                {| dealer := selectedDealer |} O D) as C.
  assert (N : Forall nonNegative
                (buildEventMultiplier host tag (map date base)
                   {| dealer := selectedDealer |})).
  { eapply Forall_impl; [|exact C]. intros v (m & -> & M).
    exists m. split; [reflexivity | lra]. }
  exists base. eexists. split; [exact B|].
  unfold runWhatIf, whatIfDirect. rewrite Res.
  split; [reflexivity|]. split; [|split].
  - unfold applyDirect. rewrite mapi_length. unfold base.
    now rewrite length_map, length_seq.
  - apply scaled_dates.
    + now rewrite length_map.
    + exact (resolvePointDates_present host _ _ Res).
  - apply applyDirect_keeps_band; [|exact N | exact Ord].
    cbn [Num.div Num.add].
    replace (Qzero_b 100) with false by reflexivity.
    eexists. split; [reflexivity|].
    assert (0 <= percent / 100 + 1)%Q; [|lra].
    setoid_replace (percent / 100 + 1)%Q with ((percent + 100) / 100)%Q by field.
    apply Qle_shift_div_l; lra.
Qed.

Lemma demo_what_if_keeps_bands_witness :
  exists base out,
    buildDemoForecast sampleHost flatSine 30 (Fin 120) = Some base
    /\ runWhatIf sampleHost EVENT_PROFILES true base (Fin 10)
         "Monsoon Month (Jun-Sep)" None = Some out
    /\ length out = 30%nat
    /\ map date out = map date base
    /\ Forall orderedBand out.
Proof.
  apply (demo_what_if_keeps_bands sampleHost flatSine 30
           "Monsoon Month (Jun-Sep)"
           (windowed dip (-0.12) (-0.25) (md 6 15) (md 9 15)) 10 None).
  - intros x. unfold flatSine. split; discriminate.
  - exact expModel_unitRange.
  - vm_compute. discriminate.
  - vm_compute. discriminate.
  - reflexivity.
  - discriminate.
Defined.

(* ================================================================= *)
(** ** SeriesDownsampler: the budgets at the edge *)

Section EdgeBudgets.

Context {A : Type}.

Lemma filteri_from_none keep (xs : list A) : forall i,
  (forall k, (i <= k < i + length xs)%nat -> keep k = false) ->
  filteri_from keep i xs = [].
Proof.
  induction xs as [|x xs IH]; intros i H; [reflexivity|].
  cbn [filteri_from]. rewrite (H i) by (cbn [length]; lia).
  apply IH. intros k K. apply H. cbn [length]. lia.
Qed.

Lemma downsamplePoints_zero_budget (x z : A) (mid : list A) :
  downsamplePoints (x :: mid ++ [z]) 0 = [x; z].
Proof.
  unfold downsamplePoints. cbn [length Nat.leb ceilDiv remStep].
  unfold filteri. cbn [filteri_from Nat.eqb orb].
  rewrite filteri_from_app, length_app. cbn [length filteri_from].
  rewrite (filteri_from_none _ mid 1).
  - replace (1 + length mid =? S (length mid + 1) - 1)%nat with true
      by (symmetry; apply Nat.eqb_eq; lia).
    rewrite orb_true_r. reflexivity.
  - intros k K. apply orb_false_iff. split; apply Nat.eqb_neq; lia.
Qed.

End EdgeBudgets.

(** The downsampler at the edge of its budgets.  A series within the
    budget is returned as it is, and so is the empty series for every
    budget.  With a budget of 0 the stride is infinite: a single point
    is kept, and a series of two or more points is reduced to its first
    and its last point. *)
Theorem downsamplePoints_edge_budgets
    (A : Type) (points : list A) (maxPoints : nat) :
  ((length points <= maxPoints)%nat ->
   downsamplePoints points maxPoints = points)
  /\ downsamplePoints (@nil A) maxPoints = []
  /\ (forall x : A, downsamplePoints [x] 0 = [x])
  /\ (forall x mid z, points = x :: mid ++ [z] ->
        downsamplePoints points 0 = [x; z]).
Proof.
  split; [apply downsamplePoints_within_budget|].
  split; [reflexivity|]. split; [reflexivity|].
  intros x mid z ->. apply downsamplePoints_zero_budget.
Qed.

(* ================================================================= *)
(** ** The what-if run returns *)

(** [runWhatIf] returns.  With the clock in the years 100..9999 (so that
    the daily labels can be formatted), for every baseline, whatever its
    labels, every tag, every percent shift and every dealer, in demo
    mode and in API mode, no exception escapes and the result has one
    point per baseline point. *)
Theorem what_if_returns_a_series
    (host : Host) (catalog : Catalog) (demoMode : bool)
    (points : list ForecastPoint) (whatIfPercent : number)
    (whatIfEvent : string) (selectedDealer : option Dealer) :
  100 <= YearFromTime (clock host) ->
  YearFromTime (clock host + Z.of_nat (length points) * 86400000) <= 9999 ->
  exists out,
    runWhatIf host catalog demoMode points whatIfPercent whatIfEvent
      selectedDealer = Some out
    /\ length out = length points.
Proof.
  intros F L.
  destruct (resolvePointDates_total host points (length points) F L (le_n _))
    as (dates & R).
  unfold runWhatIf, whatIfDirect, whatIfNormalized.
  destruct demoMode.
  - rewrite R. eexists. split; [reflexivity | apply mapi_length].
  - destruct (getProfile catalog whatIfEvent).
    + rewrite R. eexists. split; [reflexivity | apply mapi_length].
    + eexists. split; reflexivity.
Qed.

Lemma what_if_returns_a_series_witness :
  exists out,
    runWhatIf sampleHost EVENT_PROFILES false
      [pointAt LMissing 100; pointAt LMissing 100] (Fin 10)
      "Diwali Festival (Oct-Nov)" None = Some out
    /\ length out = length [pointAt LMissing 100; pointAt LMissing 100].
Proof.
  apply (what_if_returns_a_series sampleHost EVENT_PROFILES false
           [pointAt LMissing 100; pointAt LMissing 100] (Fin 10)
           "Diwali Festival (Oct-Nov)" None).
  - vm_compute. discriminate.
  - vm_compute. discriminate.
Defined.

(* ================================================================= *)
(** ** Inventory by region: what the totals are *)

Module InventoryFacts.

Import Inventory.

Lemma sumZ_cons x xs : sumZ (x :: xs) = x + sumZ xs.
Proof. reflexivity. Qed.

Lemma Map_get_set totals key value k :
  Map_get (Map_set totals key value) k
  = if String.eqb key k then Some value else Map_get totals k.
Proof.
  induction totals as [|[k0 v0] rest IH]; cbn [Map_set Map_get].
  - reflexivity.
  - destruct (String.eqb_spec k0 key) as [->|N]; cbn [Map_get].
    + destruct (String.eqb_spec key k); reflexivity.
    + rewrite IH. destruct (String.eqb_spec k0 k) as [->|]; [|reflexivity].
      destruct (String.eqb_spec key k); [congruence | reflexivity].
Qed.

Lemma Map_set_keys totals key value :
  map fst (Map_set totals key value)
  = if existsb (String.eqb key) (map fst totals) then map fst totals
    else map fst totals ++ [key].
Proof.
  induction totals as [|[k0 v0] rest IH]; cbn [Map_set map fst existsb app].
  - reflexivity.
  - rewrite (String.eqb_sym key k0).
    destruct (String.eqb k0 key); cbn [orb map fst]; [reflexivity|].
    rewrite IH. destruct (existsb _ _); reflexivity.
Qed.

Lemma Map_set_NoDup totals key value :
  NoDup (map fst totals) -> NoDup (map fst (Map_set totals key value)).
Proof.
  intros ND. rewrite Map_set_keys.
  destruct (existsb (String.eqb key) (map fst totals)) eqn:E; [assumption|].
  apply NoDup_app; [assumption | repeat constructor; intros [] | ].
  intros x I [X|[]]. subst x.
  assert (existsb (String.eqb key) (map fst totals) = true)
    by (apply existsb_exists; exists key; split; [assumption | apply String.eqb_refl]).
  congruence.
Qed.

(** The sum of all values after [set]: the new value replaces the old. *)
Lemma Map_set_sum totals key value :
  sumZ (map snd (Map_set totals key value))
  = sumZ (map snd totals) + value - totalOf totals key.
Proof.
  unfold totalOf.
  induction totals as [|[k0 v0] rest IH]; cbn [Map_set Map_get map snd].
  - rewrite sumZ_cons. change (sumZ []) with 0. lia.
  - destruct (String.eqb k0 key); cbn [map snd]; rewrite !sumZ_cons.
    + lia.
    + rewrite IH. lia.
Qed.

Section Fold.

Variable dealers : list DealerRow.

Lemma addItem_total totals item key :
  totalOf (addItem dealers totals item) key
  = totalOf totals key + contribution dealers key item.
Proof.
  unfold addItem, contribution, totalOf.
  destruct (findDealer dealers item) as [d|]; [|lia].
  cbv zeta. rewrite Map_get_set.
  destruct (String.eqb_spec (region d) key) as [->|N]; [|lia].
  destruct (Map_get totals key) as [v|]; [|lia].
  destruct (Z.eqb_spec v 0); lia.
Qed.

Lemma addItem_keys totals item key :
  In key (map fst (addItem dealers totals item))
  <-> In key (map fst totals)
      \/ exists d, findDealer dealers item = Some d /\ region d = key.
Proof.
  unfold addItem. destruct (findDealer dealers item) as [d|].
  - cbv zeta. rewrite Map_set_keys.
    destruct (existsb (String.eqb (region d)) (map fst totals)) eqn:E.
    + split; [now left|]. intros [I | (d' & D & <-)]; [assumption|].
      injection D as <-. apply existsb_exists in E as (x & X & Q).
      apply String.eqb_eq in Q. now subst.
    + rewrite in_app_iff. cbn [In]. split.
      * intros [I | [<- | []]]; [now left | right; eauto].
      * intros [I | (d' & D & <-)]; [now left|].
        injection D as <-. right. now left.
  - split; [now left|]. intros [I | (d & D & _)]; [assumption | discriminate].
Qed.

Lemma addItem_NoDup totals item :
  NoDup (map fst totals) -> NoDup (map fst (addItem dealers totals item)).
Proof.
  unfold addItem. destruct (findDealer dealers item); [|trivial].
  apply Map_set_NoDup.
Qed.

Lemma addItem_sum totals item :
  sumZ (map snd (addItem dealers totals item))
  = sumZ (map snd totals) + knownQuantity dealers item.
Proof.
  unfold addItem, knownQuantity.
  destruct (findDealer dealers item) as [d|]; [|lia].
  cbv zeta. rewrite Map_set_sum. unfold totalOf.
  destruct (Map_get totals (region d)) as [v|]; [|lia].
  destruct (Z.eqb_spec v 0); lia.
Qed.

Lemma fold_total items : forall totals key,
  totalOf (fold_left (addItem dealers) items totals) key
  = totalOf totals key + regionTotal dealers items key.
Proof.
  induction items as [|item items IH]; intros totals key;
    cbn [fold_left]; unfold regionTotal; cbn [map].
  - change (sumZ []) with 0. lia.
  - rewrite IH, addItem_total, sumZ_cons. unfold regionTotal. lia.
Qed.

Lemma fold_keys items : forall totals key,
  In key (map fst (fold_left (addItem dealers) items totals))
  <-> In key (map fst totals) \/ stocked dealers items key = true.
Proof.
  induction items as [|item items IH]; intros totals key;
    cbn [fold_left stocked existsb].
  - split; [now left | intros [|]; [assumption | discriminate]].
  - rewrite IH, addItem_keys, orb_true_iff.
    fold (stocked dealers items key).
    destruct (findDealer dealers item) as [d|].
    + rewrite String.eqb_eq. split.
      * intros [[I | (d' & D & <-)] | S]; auto.
        injection D as <-. auto.
      * intros [I | [E | S]]; eauto.
    + split.
      * intros [[I | (d' & D & _)] | S]; auto. discriminate.
      * intros [I | [E | S]]; auto. discriminate.
Qed.

Lemma fold_NoDup items : forall totals,
  NoDup (map fst totals) ->
  NoDup (map fst (fold_left (addItem dealers) items totals)).
Proof.
  induction items as [|item items IH]; intros totals ND; cbn [fold_left];
    [assumption|].
  apply IH, addItem_NoDup, ND.
Qed.

Lemma fold_sum items : forall totals,
  sumZ (map snd (fold_left (addItem dealers) items totals))
  = sumZ (map snd totals) + sumZ (map (knownQuantity dealers) items).
Proof.
  induction items as [|item items IH]; intros totals; cbn [fold_left map].
  - change (sumZ []) with 0. lia.
  - rewrite IH, addItem_sum, sumZ_cons. lia.
Qed.

(** The value at the position of a key is the value under the key. *)
Lemma nth_total (totals : Totals) : forall i key value,
  NoDup (map fst totals) ->
  nth_error (map fst totals) i = Some key ->
  nth_error (map snd totals) i = Some value ->
  Map_get totals key = Some value.
Proof.
  induction totals as [|[k v] rest IH]; intros i key value ND K V.
  - destruct i; discriminate K.
  - cbn [map fst snd] in *. inversion ND as [|? ? NI ND']; subst.
    destruct i as [|i]; cbn [nth_error] in K, V; cbn [Map_get].
    + injection K as ->. injection V as ->. now rewrite String.eqb_refl.
    + destruct (String.eqb_spec k key) as [->|N].
      * exfalso. apply NI. eapply nth_error_In, K.
      * eapply IH; eassumption.
Qed.

End Fold.

End InventoryFacts.

(** Stock by region.  The chart data list every region once; a region is
    listed exactly when some inventory item belongs to a known dealer of
    the region; the value at the position of a region is the sum of the
    quantities of these items; the values add up to the quantities of
    all items whose dealer is known (items of unknown dealers are left
    out); labels and values have the same length; and without an
    inventory array the chart data are empty. *)
Theorem region_inventory_totals
    (dealers : list Inventory.DealerRow) (items : list Inventory.Item) :
  let data := Inventory.regionInventoryData dealers (Some items) in
  NoDup (Inventory.labels data)
  /\ length (Inventory.values data) = length (Inventory.labels data)
  /\ (forall key, In key (Inventory.labels data)
                  <-> stocked dealers items key = true)
  /\ (forall i key value,
        nth_error (Inventory.labels data) i = Some key ->
        nth_error (Inventory.values data) i = Some value ->
        value = regionTotal dealers items key)
  /\ sumZ (Inventory.values data) = sumZ (map (knownQuantity dealers) items)
  /\ Inventory.regionInventoryData dealers None
     = {| Inventory.labels := []; Inventory.values := [] |}.
Proof.
  unfold Inventory.regionInventoryData. cbv zeta.
  cbn [Inventory.labels Inventory.values].
  set (totals := fold_left (Inventory.addItem dealers) items []).
  assert (ND : NoDup (map fst totals))
    by (apply InventoryFacts.fold_NoDup; constructor).
  split; [exact ND|]. split; [now rewrite !length_map|].
  split; [|split; [|split]].
  - intros key. unfold totals. rewrite InventoryFacts.fold_keys.
    cbn [map In]. tauto.
  - intros i key value K V.
    pose proof (InventoryFacts.nth_total totals i key value ND K V) as G.
    pose proof (InventoryFacts.fold_total dealers items [] key) as T.
    fold totals in T. unfold totalOf in T. rewrite G in T.
    cbn [Inventory.Map_get] in T. lia.
  - unfold totals. rewrite InventoryFacts.fold_sum. cbn [map].
    change (sumZ []) with 0. lia.
  - reflexivity.
Qed.
